(** * watchdogd: a shallow embedding of [main.go] and its specification

    The service keeps one map from check-in key to the time of the last
    check-in.  A key carries its own freshness window ([backups-24h]); a
    status query answers OKAY, ALARM or NEVER.  This file embeds the
    program in Rocq, function by function, together with the parts of the
    Go standard library the program's behaviour rests on ([regexp],
    [time.ParseDuration], [time.Time], [encoding/json], [crypto/subtle]),
    and then states and proves the properties of the specification.  A
    last part follows the rest of the program (startup, the mutex, the
    save each check-in starts) and proves what the code shows beyond the
    specification.

    Conventions.  A Go [string] is a sequence of bytes: Rocq's [string] of
    8-bit [ascii].  Go's fixed-width integers are [Z] with the wrap-around
    written out.  A function that may panic returns a [Run]. *)

From Stdlib Require Import ZArith String Ascii List Lia Floats Uint63.
From stdpp Require Import gmap strings list fin_maps sorting.

Open Scope Z_scope.

(** ** Bytes *)

(** The numeric value of a byte, as Go compares bytes. *)
Definition code (c : ascii) : Z := Z.of_N (N_of_ascii c).

(** ['lo' <= c && c <= 'hi']. *)
Definition inRange (lo hi c : ascii) : bool :=
  (code lo <=? code c) && (code c <=? code hi).

Definition isDigit (c : ascii) : bool := inRange "0" "9" c.

(** The value of a decimal digit: [c - '0']. *)
Definition digitVal (c : ascii) : Z := code c - 48.

(** ** Errors, results and panics *)

(** The [error] values that can arise in this program, by what they
    report rather than by the text of their message. *)
Inductive error : Type :=
| errInvalidDuration (orig : string)        (* time: invalid duration *)
| errMissingUnit (orig : string)            (* time: missing unit in duration *)
| errUnknownUnit (u orig : string)          (* time: unknown unit in duration *)
| errSyntax                                 (* json: the text is not well formed *)
| errUnmarshalType (value : string)         (* json: cannot unmarshal value into the Go type *)
| errNotJSONString                          (* Time.UnmarshalJSON: input is not a JSON string *)
| errTimeParse (value : string)             (* parsing time: cannot parse *)
| errYearRange                              (* Time.MarshalJSON: year outside of range [0,9999] *)
| errZoneRange                              (* Time.MarshalJSON: timezone hour outside of range [0,23] *)
| errNilMap.                                (* assignment to entry in nil map *)

(** Go's [(T, error)] pair. *)
Inductive result (E A : Type) : Type :=
| Ok (a : A)
| Err (e : E).
Arguments Ok {E A} a.
Arguments Err {E A} e.

(** A computation that returns or panics. *)
Inductive Run (A : Type) : Type :=
| Ret (a : A)
| Panic (e : error).
Arguments Ret {A} a.
Arguments Panic {A} e.

(** [func must[T any](v T, err error) T]: panic on an error, else the value. *)
Definition must {A : Type} (r : result error A) : Run A :=
  match r with
  | Err e => Panic e
  | Ok v => Ret v
  end.

(** ** Package [regexp]: the fragment [keyRe] is written in

    Go documents its matching as leftmost-first: the match returned is the
    leftmost one, and among those the one a backtracking search finds
    first.  [run] is that backtracking search, in continuation-passing
    style; repetition is greedy. *)
Module regexp.

Inductive Regexp : Type :=
| BeginText                         (* ^  (no flag m: beginning of text) *)
| EndText                           (* $  (no flag m: end of text) *)
| Lit (c : ascii)                   (* a literal byte *)
| Class (p : ascii -> bool)         (* [...] or \d: one byte of the class *)
| Plus (p : ascii -> bool)          (* x+ for a class x, greedy *)
| Capture (r : Regexp)              (* ( ... ) *)
| Cat (r1 r2 : Regexp).

Section Run.
Context {A : Type}.

(** What remains to be matched: the position reached, the text from
    there on, and the capture groups closed so far. *)
Definition Cont : Type := nat -> string -> list (nat * nat) -> option A.

(** Zero or more bytes of the class, as many as possible first. *)
Fixpoint star (p : ascii -> bool) (s : string) (pos : nat)
         (caps : list (nat * nat)) (k : Cont) : option A :=
  match s with
  | String c s' =>
      if p c then
        match star p s' (S pos) caps k with
        | Some r => Some r
        | None => k pos s caps
        end
      else k pos s caps
  | EmptyString => k pos s caps
  end.

Fixpoint run (r : Regexp) (s : string) (pos : nat)
         (caps : list (nat * nat)) (k : Cont) : option A :=
  match r with
  | BeginText => if Nat.eqb pos 0 then k pos s caps else None
  | EndText =>
      match s with
      | EmptyString => k pos s caps
      | String _ _ => None
      end
  | Lit c =>
      match s with
      | String c' s' => if Ascii.eqb c c' then k (S pos) s' caps else None
      | EmptyString => None
      end
  | Class p =>
      match s with
      | String c' s' => if p c' then k (S pos) s' caps else None
      | EmptyString => None
      end
  | Plus p =>
      match s with
      | String c' s' => if p c' then star p s' (S pos) caps k else None
      | EmptyString => None
      end
  | Capture r1 =>
      run r1 s pos caps (fun pos' s' caps' => k pos' s' (caps' ++ [(pos, pos')]))
  | Cat r1 r2 =>
      run r1 s pos caps (fun pos' s' caps' => run r2 s' pos' caps' k)
  end.
End Run.

(** The index pairs of a match: the whole match, then each group. *)
Definition indexes (start stop : nat) (caps : list (nat * nat)) : list nat :=
  start :: stop :: flat_map (fun c => [fst c; snd c]) caps.

(** The search for the leftmost match, starting at [pos] where [s] is
    the text from [pos] on. *)
Fixpoint findFrom (re : Regexp) (s : string) (pos : nat) : option (list nat) :=
  match run re s pos [] (fun stop _ caps => Some (indexes pos stop caps)) with
  | Some m => Some m
  | None =>
      match s with
      | String _ s' => findFrom re s' (S pos)
      | EmptyString => None
      end
  end.

(** The method [FindStringSubmatchIndex] of a compiled expression;
    [None] is Go's [nil]. *)
Definition FindStringSubmatchIndex (re : Regexp) (s : string) : option (list nat) :=
  findFrom re s 0%nat.

End regexp.

(** [s[i:j]] for [i <= j <= len(s)]. *)
Definition slice (s : string) (i j : nat) : string := substring i (j - i) s.

(** ** Package [time]: durations *)
Module time.

(** [time.Duration] is an [int64] count of nanoseconds. *)
Abbreviation Duration := Z (only parsing).

Definition Nanosecond : Duration := 1.
Definition Microsecond : Duration := 1000 * Nanosecond.
Definition Millisecond : Duration := 1000 * Microsecond.
Definition Second : Duration := 1000 * Millisecond.
Definition Minute : Duration := 60 * Second.
Definition Hour : Duration := 60 * Minute.

Definition minDuration : Duration := - 2 ^ 63.
Definition maxDuration : Duration := 2 ^ 63 - 1.

(** [uint64] arithmetic wraps. *)
Definition u64 (z : Z) : Z := z mod 2 ^ 64.

(** [float64(x)] for an integer: the nearest double, ties to even. *)
Definition float64_of_Z (z : Z) : float :=
  SF2Prim (binary_normalize prec emax z 0 false).

(** [uint64(x)] for a double: the fraction is discarded. *)
Definition uint64_of_float (x : float) : Z :=
  match Prim2SF x with
  | S754_finite false m e =>
      u64 (if 0 <=? e then Z.pos m * 2 ^ e else Z.pos m / 2 ^ (- e))
  | _ => 0
  end.

(** [leadingInt] consumes the leading digits of [s]; [x] is the value
    read so far.  [None] is [errLeadingInt] (overflow). *)
Fixpoint leadingInt (s : string) (x : Z) : option (Z * string) :=
  match s with
  | String c s' =>
      if isDigit c then
        if x >? 2 ^ 63 / 10 then None
        else
          let x' := u64 (x * 10 + code c - 48) in
          if x' >? 2 ^ 63 then None else leadingInt s' x'
      else Some (x, s)
  | EmptyString => Some (x, s)
  end.

(** [leadingFraction] consumes the leading digits of [s] as the digits
    after a decimal point: the value read, its scale, and the rest.
    Once the value would overflow, further digits are skipped. *)
Fixpoint leadingFraction (s : string) (x : Z) (scale : float) (overflow : bool)
  : Z * float * string :=
  match s with
  | String c s' =>
      if isDigit c then
        if overflow then leadingFraction s' x scale true
        else if x >? (2 ^ 63 - 1) / 10 then leadingFraction s' x scale true
        else
          let y := u64 (x * 10 + code c - 48) in
          if y >? 2 ^ 63 then leadingFraction s' x scale true
          else leadingFraction s' y (scale * 10)%float false
      else (x, scale, s)
  | EmptyString => (x, scale, s)
  end.

(** The unit of a component: the bytes up to the next ['.'] or digit. *)
Fixpoint spanUnit (s : string) : string * string :=
  match s with
  | String c s' =>
      if Ascii.eqb c "." || isDigit c then (EmptyString, s)
      else let '(u, rest) := spanUnit s' in (String c u, rest)
  | EmptyString => (EmptyString, EmptyString)
  end.

(** The two spellings of "micro" in UTF-8: U+00B5 and U+03BC. *)
Definition microSign : string :=
  String (ascii_of_nat 194) (String (ascii_of_nat 181) "s").
Definition greekMu : string :=
  String (ascii_of_nat 206) (String (ascii_of_nat 188) "s").

Definition unitMap (u : string) : option Z :=
  if String.eqb u "ns" then Some Nanosecond
  else if String.eqb u "us" then Some Microsecond
  else if String.eqb u microSign then Some Microsecond
  else if String.eqb u greekMu then Some Microsecond
  else if String.eqb u "ms" then Some Millisecond
  else if String.eqb u "s" then Some Second
  else if String.eqb u "m" then Some Minute
  else if String.eqb u "h" then Some Hour
  else None.

(** The loop of [ParseDuration] over the components (digits, an optional
    point and digits, a unit); [d] is the sum so far.  Every round
    consumes at least the unit, so [String.length s] rounds are enough
    for [s]; [fuel] counts them. *)
Fixpoint parseLoop (fuel : nat) (orig s : string) (d : Z) : result error Z :=
  match s with
  | EmptyString => Ok d
  | String c0 _ =>
      match fuel with
      | O => Err (errInvalidDuration orig)
      | S fuel' =>
          if negb (Ascii.eqb c0 "." || isDigit c0) then Err (errInvalidDuration orig)
          else
            match leadingInt s 0 with
            | None => Err (errInvalidDuration orig)
            | Some (v, s1) =>
                let pre := negb (Nat.eqb (String.length s) (String.length s1)) in
                let '(f, scale, s2, post) :=
                  match s1 with
                  | String c1 s1' =>
                      if Ascii.eqb c1 "." then
                        let '(f, scale, s2) := leadingFraction s1' 0 1%float false in
                        (f, scale, s2,
                         negb (Nat.eqb (String.length s1') (String.length s2)))
                      else (0, 1%float, s1, false)
                  | EmptyString => (0, 1%float, s1, false)
                  end in
                if negb pre && negb post then Err (errInvalidDuration orig)
                else
                  let '(u, s3) := spanUnit s2 in
                  match u with
                  | EmptyString => Err (errMissingUnit orig)
                  | String _ _ =>
                      match unitMap u with
                      | None =>
                          Err (errUnknownUnit u orig)
                      | Some unit =>
                          if v >? 2 ^ 63 / unit then Err (errInvalidDuration orig)
                          else
                            let v1 := u64 (v * unit) in
                            let v2 :=
                              if f >? 0 then
                                u64 (v1 + uint64_of_float
                                            (float64_of_Z f *
                                             (float64_of_Z unit / scale))%float)
                              else v1 in
                            if (f >? 0) && (v2 >? 2 ^ 63) then Err (errInvalidDuration orig)
                            else
                              let d' := u64 (d + v2) in
                              if d' >? 2 ^ 63 then Err (errInvalidDuration orig)
                              else parseLoop fuel' orig s3 d'
                      end
                  end
            end
      end
  end.

(** [time.ParseDuration]. *)
Definition ParseDuration (orig : string) : result error Duration :=
  let '(neg, s) :=
    match orig with
    | String c s' =>
        if Ascii.eqb c "-" || Ascii.eqb c "+" then (Ascii.eqb c "-", s')
        else (false, orig)
    | EmptyString => (false, orig)
    end in
  if String.eqb s "0" then Ok 0
  else if String.eqb s "" then Err (errInvalidDuration orig)
  else
    match parseLoop (String.length s) orig s 0 with
    | Err e => Err e
    | Ok d =>
        if neg then Ok (- d)
        else if d >? 2 ^ 63 - 1 then Err (errInvalidDuration orig)
        else Ok d
    end.


(** *** Instants

    A [Time] is an instant together with the zone it is shown in.  Go
    stores the seconds in an [int64]; every time this program can meet is
    far from its limits, so [sec] is a plain integer here.  The monotonic
    clock reading that [time.Now] attaches plays no part: every stored
    time has gone through [UTC] or through the JSON decoder, which drop
    it, so [Sub] always compares wall-clock instants. *)
Record Time : Type := mkTime {
  sec : Z;      (* seconds since January 1, year 1, 00:00:00 UTC *)
  nsec : Z;     (* nanoseconds within the second, in [0, 999999999] *)
  offset : Z    (* the zone in force at this instant: seconds east of UTC *)
}.

(** The zero value [Time{}]: January 1, year 1, 00:00:00 UTC. *)
Definition zeroTime : Time := mkTime 0 0 0.

(** [IsZero] looks at the instant only, whatever the zone. *)
Definition IsZero (t : Time) : bool := (sec t =? 0) && (nsec t =? 0).

Definition UTC (t : Time) : Time := mkTime (sec t) (nsec t) 0.

Definition Equal (t u : Time) : bool := (sec t =? sec u) && (nsec t =? nsec u).

Definition Before (t u : Time) : bool :=
  (sec t <? sec u) || ((sec t =? sec u) && (nsec t <? nsec u)).

(** [int64] arithmetic wraps. *)
Definition i64 (z : Z) : Z := (z + 2 ^ 63) mod 2 ^ 64 - 2 ^ 63.

(** [t.Add(d)]; Go's [/] and [%] truncate towards zero. *)
Definition Add (t : Time) (d : Duration) : Time :=
  let dsec := Z.quot d 1000000000 in
  let ns := nsec t + Z.rem d 1000000000 in
  if ns >=? 1000000000 then mkTime (sec t + dsec + 1) (ns - 1000000000) (offset t)
  else if ns <? 0 then mkTime (sec t + dsec - 1) (ns + 1000000000) (offset t)
  else mkTime (sec t + dsec) ns (offset t).

(** [t.Sub(u)]: the difference, or the largest or smallest [Duration]
    when the difference does not fit. *)
Definition Sub (t u : Time) : Duration :=
  let d := i64 ((sec t - sec u) * Second + (nsec t - nsec u)) in
  if Equal (Add u d) t then d
  else if Before t u then minDuration
  else maxDuration.

Definition Seconds (d : Duration) : float :=
  (float64_of_Z (Z.quot d Second) +
   float64_of_Z (Z.rem d Second) / float64_of_Z 1000000000)%float.

Definition Minutes (d : Duration) : float :=
  (float64_of_Z (Z.quot d Minute) +
   float64_of_Z (Z.rem d Minute) / float64_of_Z (60 * 1000000000))%float.

Definition Hours (d : Duration) : float :=
  (float64_of_Z (Z.quot d Hour) +
   float64_of_Z (Z.rem d Hour) / float64_of_Z (60 * 60 * 1000000000))%float.

(** *** The calendar

    Go shows instants in the proleptic Gregorian calendar.  The two
    conversions between a day count and a date are written with the
    usual 400-year eras that begin on March 1; days count from
    January 1 of year 1, as [sec] does. *)

Definition isLeap (year : Z) : bool :=
  (year mod 4 =? 0) && (negb (year mod 100 =? 0) || (year mod 400 =? 0)).

Definition daysIn (month year : Z) : Z :=
  if month =? 2 then (if isLeap year then 29 else 28)
  else if (month =? 4) || (month =? 6) || (month =? 9) || (month =? 11) then 30
  else 31.

(** The day of the era, from the year of the era, the month counted
    from March, and the day of the month. *)
Definition dayOfEra (yoe mp day : Z) : Z :=
  yoe * 365 + yoe / 4 - yoe / 100 + (153 * mp + 2) / 5 + day - 1.

(** Days from January 1 of year 1 to the given date. *)
Definition daysOfDate (year month day : Z) : Z :=
  let y := if month <=? 2 then year - 1 else year in
  let era := y / 400 in
  let yoe := y - era * 400 in
  let mp := if month <=? 2 then month + 9 else month - 3 in
  era * 146097 + dayOfEra yoe mp day - 306.

(** The year of the era, the month from March and the day of the month
    of a day of the era. *)
Definition dateOfEra (doe : Z) : Z * Z * Z :=
  let yoe := (doe - doe / 1460 + doe / 36524 - doe / 146096) / 365 in
  let doy := doe - (365 * yoe + yoe / 4 - yoe / 100) in
  let mp := (5 * doy + 2) / 153 in
  (yoe, mp, doy - (153 * mp + 2) / 5 + 1).

(** The date, [(year, month, day)], of a day count. *)
Definition dateOfDays (days : Z) : Z * Z * Z :=
  let z := days + 306 in
  let era := z / 146097 in
  let '(yoe, mp, day) := dateOfEra (z - era * 146097) in
  let month := if mp <? 10 then mp + 3 else mp - 9 in
  let y := yoe + era * 400 in
  (if month <=? 2 then y + 1 else y, month, day).

(** The seconds since year 1 as the zone's wall clock shows them. *)
Definition abs (t : Time) : Z := sec t + offset t.

Definition Date (t : Time) : Z * Z * Z := dateOfDays (abs t / 86400).
Definition Year (t : Time) : Z := fst (fst (Date t)).
Definition Clock (t : Time) : Z * Z * Z :=
  let s := abs t mod 86400 in (s / 3600, s mod 3600 / 60, s mod 60).

(** *** Formatting *)

Definition digitChar (d : Z) : ascii := ascii_of_N (Z.to_N (48 + d)).

(** The decimal digits of [u >= 0] in front of [acc]. *)
Fixpoint utoa (fuel : nat) (u : Z) (acc : string) : string :=
  let acc' := String (digitChar (u mod 10)) acc in
  match fuel with
  | O => acc'
  | S fuel' => if u <? 10 then acc' else utoa fuel' (u / 10) acc'
  end.

(** [strconv.Itoa] on a number that is not negative. *)
Definition itoa (u : Z) : string := utoa (Z.to_nat (Z.log2 u)) u "".

Fixpoint zeros (n : nat) : string :=
  match n with
  | O => ""
  | S n' => String "0" (zeros n')
  end.

(** [appendInt(b, x, width)]: [x] in decimal, padded with zeros to
    [width] digits, after a minus sign when negative. *)
Definition appendInt (x : Z) (width : nat) : string :=
  let u := Z.abs x in
  (if x <? 0 then "-" else "") +:+
  (if Nat.eqb width 2 && (u <? 100) then
     String (digitChar (u / 10)) (String (digitChar (u mod 10)) "")
   else if Nat.eqb width 4 && (u <? 10000) then
     String (digitChar (u / 1000)) (String (digitChar (u / 100 mod 10))
       (String (digitChar (u / 10 mod 10)) (String (digitChar (u mod 10)) "")))
   else
     let ds := itoa u in zeros (width - String.length ds) +:+ ds).

(** The text without its trailing ['0'] bytes. *)
Fixpoint trimZeros (s : string) : string :=
  match s with
  | EmptyString => ""
  | String c s' =>
      match trimZeros s' with
      | EmptyString => if Ascii.eqb c "0" then "" else String c ""
      | rest => String c rest
      end
  end.

(** [appendNano] for the layout [.999999999]: nothing for a whole
    second, else the point and nine digits less the trailing zeros. *)
Definition appendNano (nanosec : Z) : string :=
  if nanosec =? 0 then ""
  else String "." (trimZeros (appendInt nanosec 9)).

(** The zone as [appendFormatRFC3339] writes it: [Z] for UTC, else the
    sign, the hours and the minutes of the offset. *)
Definition formatZone (offset : Z) : string :=
  if offset =? 0 then "Z"
  else
    let zone := Z.quot offset 60 in
    (if zone <? 0 then "-" else "+") +:+
    appendInt (Z.abs zone / 60) 2 +:+ ":" +:+ appendInt (Z.abs zone mod 60) 2.

(** [appendFormatRFC3339(b, nanos)], which [Format] runs for the
    layouts [RFC3339] and [RFC3339Nano]. *)
Definition appendFormatRFC3339 (t : Time) (nanos : bool) : string :=
  let '(year, month, day) := Date t in
  let '(hour, min, s) := Clock t in
  appendInt year 4 +:+ "-" +:+ appendInt month 2 +:+ "-" +:+ appendInt day 2 +:+
  "T" +:+ appendInt hour 2 +:+ ":" +:+ appendInt min 2 +:+ ":" +:+ appendInt s 2 +:+
  (if nanos then appendNano (nsec t) else "") +:+ formatZone (offset t).

(** [t.Format(time.RFC3339)]. *)
Definition FormatRFC3339 (t : Time) : string := appendFormatRFC3339 t false.

(** [appendStrictRFC3339]: RFC 3339 has four-digit years and zone hours
    below 24.  Go reads both off the text it has just formatted (the
    fifth byte is not ['-']; the zone hour has three digits or is 24 or
    more); here they are read off the numbers that text shows. *)
Definition appendStrictRFC3339 (t : Time) : result error string :=
  let year := Year t in
  if (year <? 0) || (9999 <? year) then Err errYearRange
  else if negb (offset t =? 0) && (24 <=? Z.abs (Z.quot (offset t) 60) / 60)
  then Err errZoneRange
  else Ok (appendFormatRFC3339 t true).


(** *** Parsing *)

(** [parseUint]: an unsigned decimal number within [[min, max]].  Go
    records a failure in a flag and goes on; every failure ends in the
    same refusal, so a failure here ends the parse at once. *)
Fixpoint uintOf (s : string) (x : Z) : option Z :=
  match s with
  | EmptyString => Some x
  | String c s' => if isDigit c then uintOf s' (x * 10 + digitVal c) else None
  end.

Definition parseUint (s : string) (min max : Z) : option Z :=
  match uintOf s 0 with
  | Some x => if (x <? min) || (max <? x) then None else Some x
  | None => None
  end.

(** The leading digits of [s] and what follows them. *)
Fixpoint spanDigits (s : string) : string * string :=
  match s with
  | String c s' =>
      if isDigit c then let '(ds, rest) := spanDigits s' in (String c ds, rest)
      else (EmptyString, s)
  | EmptyString => (EmptyString, EmptyString)
  end.

(** [parseNanoseconds] on the digits after the point: at most nine
    count, and fewer are scaled up to nanoseconds. *)
Definition parseNanoseconds (digits : string) : Z :=
  let ds := substring 0 9 digits in
  match uintOf ds 0 with
  | Some x => x * 10 ^ Z.of_nat (9 - String.length ds)
  | None => 0
  end.

(** The fraction of a second after the clock, if there is one (a point
    and at least one digit): the nanoseconds and the text that follows. *)
Definition parseFraction (rest : string) : Z * string :=
  match rest with
  | String p (String f1 frac) =>
      if Ascii.eqb p "." && isDigit f1 then
        let '(ds, rest') := spanDigits (String f1 frac) in
        (parseNanoseconds ds, rest')
      else (0, rest)
  | _ => (0, rest)
  end.

(** The zone at the end of an RFC 3339 time: [Z], or a sign, two digits
    of hours, a colon and two digits of minutes.  The result is the
    offset in seconds. *)
Definition parseZone (s : string) : option Z :=
  match s with
  | String "Z" EmptyString => Some 0
  | String sign (String h1 (String h2 (String colon (String m1 (String m2 EmptyString))))) =>
      match parseUint (String h1 (String h2 "")) 0 23,
            parseUint (String m1 (String m2 "")) 0 59 with
      | Some hr, Some mm =>
          if (Ascii.eqb sign "-" || Ascii.eqb sign "+") && Ascii.eqb colon ":" then
            let zoneOffset := (hr * 60 + mm) * 60 in
            Some (if Ascii.eqb sign "-" then - zoneOffset else zoneOffset)
          else None
      | _, _ => None
      end
  | _ => None
  end.

(** [parseRFC3339], the parser for the exact RFC 3339 form: the date and
    the clock at fixed positions, an optional fraction, the zone. *)
Definition parseRFC3339 (s : string) : option Time :=
  match s with
  | String y1 (String y2 (String y3 (String y4 (String c4
    (String mo1 (String mo2 (String c7
    (String d1 (String d2 (String c10
    (String h1 (String h2 (String c13
    (String mi1 (String mi2 (String c16
    (String s1 (String s2 rest)))))))))))))))))) =>
      match parseUint (String y1 (String y2 (String y3 (String y4 ""))))  0 9999 with
      | None => None
      | Some year =>
      match parseUint (String mo1 (String mo2 "")) 1 12 with
      | None => None
      | Some month =>
      match parseUint (String d1 (String d2 "")) 1 (daysIn month year),
            parseUint (String h1 (String h2 "")) 0 23,
            parseUint (String mi1 (String mi2 "")) 0 59,
            parseUint (String s1 (String s2 "")) 0 59 with
      | Some day, Some hour, Some min, Some s =>
          if Ascii.eqb c4 "-" && Ascii.eqb c7 "-" && Ascii.eqb c10 "T"
             && Ascii.eqb c13 ":" && Ascii.eqb c16 ":" then
            let '(ns, rest') := parseFraction rest in
            match parseZone rest' with
            | Some zoneOffset =>
                Some (mkTime (daysOfDate year month day * 86400
                              + hour * 3600 + min * 60 + s - zoneOffset)
                             ns zoneOffset)
            | None => None
            end
          else None
      | _, _, _, _ => None
      end end end
  | _ => None
  end.

Section Strict.
(** [Parse(RFC3339, s)], the parser driven by the layout, which Go
    falls back on when [parseRFC3339] refuses.  It accepts a few
    spellings that RFC 3339 does not have; nothing below depends on
    which. *)
Variable ParseLayout : string -> result error Time.

Definition parseStrictRFC3339 (b : string) : result error Time :=
  match parseRFC3339 b with
  | Some t => Ok t
  | None => ParseLayout b
  end.
End Strict.

End time.

(** ** Go maps

    [checkins] is a [map[string]time.Time].  A Go map variable is either
    [nil] or a map: reading [nil] is reading an empty map, writing to it
    panics. *)
Inductive GoMap : Type :=
| nilMap
| goMap (m : gmap string time.Time).

(** [make(map[string]time.Time)]. *)
Definition emptyMap : GoMap := goMap ∅.

Definition entries (c : GoMap) : gmap string time.Time :=
  match c with
  | nilMap => ∅
  | goMap m => m
  end.

(** [c[key]]: the zero value when the key is missing. *)
Definition index (c : GoMap) (key : string) : time.Time :=
  default time.zeroTime (entries c !! key).

(** [c[key] = t]. *)
Definition assign (c : GoMap) (key : string) (t : time.Time) : Run GoMap :=
  match c with
  | nilMap => Panic errNilMap
  | goMap m => Ret (goMap (<[key := t]> m))
  end.

(** [len(c)]. *)
Definition len (c : GoMap) : Z := Z.of_nat (size (entries c)).

(** ** Package [encoding/json]

    The package is modelled on JSON values rather than on their text: a
    text either is not well formed, or denotes a value.  Object members
    keep their order, and a string value keeps its bytes as written
    between the quotes, which is what [Time.UnmarshalJSON] parses.  A key
    is the Go string itself: the encoder escapes it and the decoder
    undoes that.  (The encoder also replaces bytes that are not UTF-8;
    the keys of this program are ASCII when they come from a check-in and
    UTF-8 when they come from the decoder.) *)
Module json.

#[local] Unset Elimination Schemes.
Inductive Value : Type :=
| Null
| Bool (b : bool)
| Number (literal : string)
| Str (raw : string)
| Array (elements : list Value)
| Object (members : list (string * Value)).
#[local] Set Elimination Schemes.

Inductive Text : Type :=
| Malformed
| Wellformed (v : Value).

(** [Time.MarshalJSON]. *)
Definition marshalTime (t : time.Time) : result error Value :=
  match time.appendStrictRFC3339 t with
  | Ok s => Ok (Str s)
  | Err e => Err e
  end.

Fixpoint marshalMembers (kvs : list (string * time.Time))
  : result error (list (string * Value)) :=
  match kvs with
  | [] => Ok []
  | (k, t) :: rest =>
      match marshalTime t with
      | Err e => Err e
      | Ok v =>
          match marshalMembers rest with
          | Err e => Err e
          | Ok ms => Ok ((k, v) :: ms)
          end
      end
  end.

(** The order the encoder writes a map in: by key, bytewise. *)
Definition keyLe (a b : string * time.Time) : Prop := String.le (fst a) (fst b).

#[global] Instance keyLe_dec : RelDecision keyLe.
Proof. intros a b. unfold keyLe. apply _. Defined.

(** [json.MarshalIndent(m, "", "  ")] for a [map[string]time.Time]; the
    indentation shapes the text only. *)
Definition MarshalIndent (c : GoMap) : result error Text :=
  match c with
  | nilMap => Ok (Wellformed Null)
  | goMap m =>
      match marshalMembers (merge_sort keyLe (map_to_list m)) with
      | Err e => Err e
      | Ok ms => Ok (Wellformed (Object ms))
      end
  end.

(** What the decoder does with a member whose value is refused.  The
    decoder is not part of this repository, and the releases of Go
    differ: the older decoder returns at once, the newer one leaves the
    zero value under the key and goes on with the members that follow.
    Either way [Unmarshal] returns the first error. *)
Inductive OnRefusal : Type :=
| StopAtRefusal
| ZeroAndGoOn.

Section Unmarshal.
Variable ParseLayout : string -> result error time.Time.
Variable onRefusal : OnRefusal.

(** [Time.UnmarshalJSON] into a zeroed map element: [null] leaves it
    as it is, a string is parsed, anything else is refused. *)
Definition unmarshalTime (v : Value) : result error time.Time :=
  match v with
  | Null => Ok time.zeroTime
  | Str raw => time.parseStrictRFC3339 ParseLayout raw
  | _ => Err errNotJSONString
  end.

(** The decoder's loop over the members of an object: each value is
    decoded and stored under its key.  What was stored before a refused
    value stays; the loop then ends, or stores the zero time under the
    key of that value and goes on, as [onRefusal] says. *)
Fixpoint object (members : list (string * Value)) (m : gmap string time.Time)
  : gmap string time.Time * option error :=
  match members with
  | [] => (m, None)
  | (k, v) :: rest =>
      match unmarshalTime v with
      | Err e =>
          match onRefusal with
          | StopAtRefusal => (m, Some e)
          | ZeroAndGoOn => (fst (object rest (<[k := time.zeroTime]> m)), Some e)
          end
      | Ok t => object rest (<[k := t]> m)
      end
  end.

(** [json.Unmarshal(data, &checkins)]: the map afterwards and the
    error returned.  The text is checked as a whole before anything
    is stored. *)
Definition Unmarshal (data : Text) (checkins : GoMap) : GoMap * option error :=
  match data with
  | Malformed => (checkins, Some errSyntax)
  | Wellformed Null => (nilMap, None)
  | Wellformed (Object members) =>
      let '(m, e) := object members (entries checkins) in (goMap m, e)
  | Wellformed (Bool _) => (checkins, Some (errUnmarshalType "bool"))
  | Wellformed (Number _) => (checkins, Some (errUnmarshalType "number"))
  | Wellformed (Str _) => (checkins, Some (errUnmarshalType "string"))
  | Wellformed (Array _) => (checkins, Some (errUnmarshalType "array"))
  end.
End Unmarshal.

End json.

(** ** Package [crypto/subtle] *)
Module subtle.

(** [uint32] arithmetic wraps. *)
Definition u32 (z : Z) : Z := z mod 2 ^ 32.

(** [int((uint32(x^y) - 1) >> 31)]. *)
Definition ConstantTimeByteEq (x y : Z) : Z :=
  Z.shiftr (u32 (Z.lxor x y - 1)) 31.

(** The loop [v |= x[i] ^ y[i]] over two texts of one length. *)
Fixpoint fold (x y : string) (v : Z) : Z :=
  match x, y with
  | String a x', String b y' => fold x' y' (Z.lor v (Z.lxor (code a) (code b)))
  | _, _ => v
  end.

Definition ConstantTimeCompare (x y : string) : Z :=
  if negb (Nat.eqb (String.length x) (String.length y)) then 0
  else ConstantTimeByteEq (fold x y 0) 0.

End subtle.

(** ** Package [strings] *)

(** [strings.CutPrefix(s, prefix)]. *)
Fixpoint CutPrefix (s prefix : string) {struct prefix} : string * bool :=
  match prefix with
  | EmptyString => (s, true)
  | String p prefix' =>
      match s with
      | String c s' =>
          if Ascii.eqb c p then
            let '(after, found) := CutPrefix s' prefix' in
            if found then (after, true) else (s, false)
          else (s, false)
      | EmptyString => (s, false)
      end
  end.

(** ** Package [encoding/base32] *)
Module base32.

(** The alphabet of [base32.StdEncoding]. *)
Definition encodeStd : string := "ABCDEFGHIJKLMNOPQRSTUVWXYZ234567".

(** The [n] low bits of a byte, the highest first. *)
Fixpoint bitsOfByte (n : nat) (b : Z) : list bool :=
  match n with
  | O => []
  | S n' => Z.testbit b (Z.of_nat n') :: bitsOfByte n' b
  end.

(** The number a group of bits denotes, after the bits that gave [acc]. *)
Fixpoint valueOf (bits : list bool) (acc : Z) : Z :=
  match bits with
  | [] => acc
  | b :: bits' => valueOf bits' (2 * acc + Z.b2z b)
  end.

(** One character for every five bits; the last group is filled up with
    zero bits. *)
Fixpoint encodeBits (fuel : nat) (bits : list bool) : string :=
  match fuel, bits with
  | S fuel', _ :: _ =>
      let group := take 5 (bits ++ [false; false; false; false]) in
      match get (Z.to_nat (valueOf group 0)) encodeStd with
      | Some c => String c (encodeBits fuel' (drop 5 bits))
      | None => ""
      end
  | _, _ => ""
  end.

(** [StdEncoding.WithPadding(NoPadding).EncodeToString(src)]. *)
Definition EncodeToString (src : list Z) : string :=
  let bits := flat_map (bitsOfByte 8) src in
  encodeBits (length bits) bits.

End base32.

(** ** Package [fmt] *)
Module fmt.

Definition newline : string := String (ascii_of_nat 10) "".

(** The integer nearest to [m * 2^e], ties to the even one. *)
Definition roundHalfEven (m e : Z) : Z :=
  if 0 <=? e then m * 2 ^ e
  else
    let q := m / 2 ^ (- e) in
    let r := m mod 2 ^ (- e) in
    if (2 * r >? 2 ^ (- e)) || ((2 * r =? 2 ^ (- e)) && Z.odd q) then q + 1 else q.

(** The verb [%.0f]: no digit after the point, correctly rounded. *)
Definition f0 (x : float) : string :=
  match Prim2SF x with
  | S754_nan => "NaN"
  | S754_infinity s => if s then "-Inf" else "+Inf"
  | S754_zero s => if s then "-0" else "0"
  | S754_finite s m e =>
      (if s then "-" else "") +:+ time.itoa (roundHalfEven (Z.pos m) e)
  end.

(** The verb [%d] for an [int]. *)
Definition d (x : Z) : string :=
  (if x <? 0 then "-" else "") +:+ time.itoa (Z.abs x).

End fmt.

(** ** [main.go] *)

(** The file named by [-f], as [os.ReadFile] finds it. *)
Inductive File : Type :=
| NoFile                          (* the error satisfies os.IsNotExist *)
| Unreadable (err : string)       (* any other error *)
| Data (text : json.Text).

(** The disk: the file, and the error of [os.WriteFile] if it fails. *)
Record Disk : Type := mkDisk {
  file : File;
  writeError : option string
}.

(** A function that may end the process: [log.Fatalf] logs and exits. *)
Inductive Exit (A : Type) : Type :=
| Continue (a : A)
| Fatal (msg : string).
Arguments Continue {A} a.
Arguments Fatal {A} msg.

Definition logNoFile : string :=
  "no watchdogd database file found, starting with an empty database.".
Definition logCorrupted : string :=
  "corrupted watchdogd database file, starting with an empty database.".

Section Load.
Variable ParseLayout : string -> result error time.Time.
Variable onRefusal : json.OnRefusal.

(** [func load()]: what [checkins] holds afterwards and what was logged. *)
Definition load (d : Disk) (checkins : GoMap) : Exit (GoMap * list string) :=
  match file d with
  | NoFile => Continue (checkins, [logNoFile])
  | Unreadable err => Fatal ("error loading watchdogd database: " +:+ err)
  | Data data =>
      match json.Unmarshal ParseLayout onRefusal data checkins with
      | (checkins', Some _) => Continue (checkins', [logCorrupted])
      | (checkins', None) => Continue (checkins', [])
      end
  end.
End Load.

(** [func save()]: the disk afterwards.  [maps.Clone] copies the map, so
    the text written is that of [checkins] at the time of the copy. *)
Definition save (filename : string) (checkins : GoMap) (d : Disk) : Run (Exit Disk) :=
  if String.eqb filename "" then Ret (Continue d)
  else
    match must (json.MarshalIndent checkins) with
    | Panic e => Panic e
    | Ret data =>
        match writeError d with
        | Some err => Ret (Fatal ("watchdogd saving failed: " +:+ err))
        | None => Ret (Continue (mkDisk (Data data) None))
        end
    end.

(** ** [main.go]: the key codec *)

(** One byte of [[a-zA-Z0-9._-]]. *)
Definition labelClass (c : ascii) : bool :=
  inRange "a" "z" c || inRange "A" "Z" c || inRange "0" "9" c
  || Ascii.eqb c "." || Ascii.eqb c "_" || Ascii.eqb c "-".

(** One byte of [[hms]]. *)
Definition unitClass (c : ascii) : bool :=
  Ascii.eqb c "h" || Ascii.eqb c "m" || Ascii.eqb c "s".

(** [keyRe = regexp.MustCompile(`^[a-zA-Z0-9._-]+-(\d+[hms])$`)];
    in Go's syntax [\d] is [[0-9]]. *)
Definition keyRe : regexp.Regexp :=
  regexp.Cat regexp.BeginText
    (regexp.Cat (regexp.Plus labelClass)
       (regexp.Cat (regexp.Lit "-")
          (regexp.Cat
             (regexp.Capture (regexp.Cat (regexp.Plus isDigit) (regexp.Class unitClass)))
             regexp.EndText))).

(** [func parse(key string) (time.Duration, bool)]. *)
Definition parse (key : string) : Run (time.Duration * bool) :=
  match regexp.FindStringSubmatchIndex keyRe key with
  | None => Ret (0, false)
  | Some m =>
      match must (time.ParseDuration (slice key (nth 2 m 0%nat) (nth 3 m 0%nat))) with
      | Panic e => Panic e
      | Ret d => Ret (d, true)
      end
  end.

(** *** Requests and responses *)

(** What a handler reads from [*http.Request]. *)
Record Request : Type := mkRequest {
  pathKey : string;          (* r.PathValue("key") *)
  authorization : string;    (* r.Header.Get("Authorization"): empty when there is no
                                such header, or one with an empty value *)
  queryToken : string        (* r.URL.Query().Get("token"): empty when there is none *)
}.

(** *** Package [net/http]: the Authorization header *)
Module http.

(** The Authorization header as the request carries it: none, or its
    value (the first one, when the header comes more than once), which
    may be empty. *)
Definition Header : Type := option string.

(** [r.Header.Get("Authorization")]: the value of the header, and [""]
    when there is no such header. *)
Definition Get (h : Header) : string := default "" h.

End http.

(** The request a handler is given for a path key, an Authorization
    header and a [token] query parameter. *)
Definition received (key : string) (header : http.Header) (token : string) : Request :=
  mkRequest key (http.Get header) token.

(** What a handler writes to [http.ResponseWriter]. *)
Record Response : Type := mkResponse {
  status : Z;
  contentType : string;
  body : string
}.

Definition StatusOK : Z := 200.
Definition StatusNoContent : Z := 204.
Definition StatusBadRequest : Z := 400.
Definition StatusUnauthorized : Z := 401.

(** [http.Error(w, msg, code)]. *)
Definition httpError (msg : string) (code : Z) : Response :=
  mkResponse code "text/plain; charset=utf-8" (msg +:+ fmt.newline).

(** What running a handler comes to: [checkins] afterwards, the response
    (or the panic that cut the handler short), and whether [go save()]
    was started. *)
Record Outcome : Type := mkOutcome {
  after : GoMap;
  reply : Run Response;
  saving : bool
}.

(** A handler, given [checkins] and what [time.Now()] returns. *)
Definition HandlerFunc : Type := GoMap -> time.Time -> Request -> Outcome.

(** [func authMiddleware(handler http.HandlerFunc) http.HandlerFunc]. *)
Definition authMiddleware (authToken : string) (handler : HandlerFunc) : HandlerFunc :=
  fun checkins now r =>
    let token := authorization r in
    let '(token, ok) :=
      if String.eqb token "" then (queryToken r, true)
      else CutPrefix token "Bearer " in
    if negb ok then
      mkOutcome checkins (Ret (httpError "Invalid Authorization format" StatusBadRequest)) false
    else if negb (subtle.ConstantTimeCompare authToken token =? 1) then
      mkOutcome checkins (Ret (httpError "Unauthorized" StatusUnauthorized)) false
    else handler checkins now r.

(** [func checkinHandler(w http.ResponseWriter, r *http.Request)]. *)
Definition checkinHandler : HandlerFunc :=
  fun checkins now r =>
    let key := pathKey r in
    match parse key with
    | Panic e => mkOutcome checkins (Panic e) false
    | Ret (_, false) =>
        mkOutcome checkins (Ret (httpError "Invalid key" StatusBadRequest)) false
    | Ret (_, true) =>
        match assign checkins key (time.UTC now) with
        | Panic e => mkOutcome checkins (Panic e) false
        | Ret checkins' =>
            mkOutcome checkins' (Ret (mkResponse StatusNoContent "" "")) true
        end
    end.

(** [func printStatus(w io.Writer, key string, dur time.Duration,
    lastCheckin, now time.Time)]: the bytes written. *)
Definition printStatus (key : string) (dur : time.Duration)
           (lastCheckin now : time.Time) : string :=
  if time.IsZero lastCheckin then key +:+ " NEVER ALARM" +:+ fmt.newline
  else
    let since := time.Sub now lastCheckin in
    let status := if since >? dur then "ALARM" else "OKAY" in
    key +:+ " " +:+ time.FormatRFC3339 lastCheckin +:+ " " +:+
    fmt.f0 (time.Hours since) +:+ "h " +:+
    fmt.f0 (time.Minutes since) +:+ "m " +:+
    fmt.f0 (time.Seconds since) +:+ "s " +:+ status +:+ fmt.newline.

(** [func statusHandler(w http.ResponseWriter, r *http.Request)]. *)
Definition statusHandler : HandlerFunc :=
  fun checkins now r =>
    let key := pathKey r in
    match parse key with
    | Panic e => mkOutcome checkins (Panic e) false
    | Ret (_, false) =>
        mkOutcome checkins (Ret (httpError "Invalid key" StatusBadRequest)) false
    | Ret (dur, true) =>
        let lastCheckin := index checkins key in
        mkOutcome checkins
          (Ret (mkResponse StatusOK "text/plain" (printStatus key dur lastCheckin now)))
          false
    end.

(** The loop of [listHandler] over the entries of the copied map, in the
    order [range] yields them; [w] is what has been written so far. *)
Fixpoint listLines (visit : list (string * time.Time)) (now : time.Time) (w : string)
  : Run string :=
  match visit with
  | [] => Ret w
  | (key, lastCheckin) :: rest =>
      match parse key with
      | Panic e => Panic e
      | Ret (dur, _) => listLines rest now (w +:+ printStatus key dur lastCheckin now)
      end
  end.

(** [func listHandler(w http.ResponseWriter, r *http.Request)].  Go does
    not fix the order in which [range] visits a map: [visit] is that
    order, some arrangement of the entries of [checkins]. *)
Definition listHandler (visit : list (string * time.Time)) : HandlerFunc :=
  fun checkins now r =>
    let header := "watchdogd has " +:+ fmt.d (len checkins) +:+ " keys" +:+ fmt.newline in
    match listLines visit now header with
    | Panic e => mkOutcome checkins (Panic e) false
    | Ret w => mkOutcome checkins (Ret (mkResponse StatusOK "text/plain" w)) false
    end.

(** *** The routes of [main] *)

(** A request as the mux dispatches it. *)
Inductive Route : Type :=
| PostKey (r : Request)                                     (* POST /{key} *)
| GetKey (r : Request)                                      (* GET /{key} *)
| Root (visit : list (string * time.Time)) (r : Request).  (* /{$} *)

Definition serve (authToken : string) (route : Route) : GoMap -> time.Time -> Outcome :=
  fun checkins now =>
    match route with
    | PostKey r => authMiddleware authToken checkinHandler checkins now r
    | GetKey r => statusHandler checkins now r
    | Root visit r => listHandler visit checkins now r
    end.

(** The requests of a run, each with the clock reading it meets, served
    one after the other. *)
Fixpoint run (authToken : string) (trace : list (Route * time.Time)) (checkins : GoMap)
  : GoMap :=
  match trace with
  | [] => checkins
  | (route, now) :: rest => run authToken rest (after (serve authToken route checkins now))
  end.

(** *** Startup *)

Definition logInMemory : string :=
  "no filename specified, running an in-memory server.".

Section Startup.
Variable ParseLayout : string -> result error time.Time.
Variable onRefusal : json.OnRefusal.

(** [func main()] up to the point where it listens: the token requests
    are checked against, the registry, and what was logged.  [tokenFlag]
    and [fileFlag] are the values of [-t] and [-f]; [random] is the 32
    bytes that [rand.Read] returns. *)
Definition startup (fileFlag tokenFlag : string) (random : list Z) (d : Disk)
  : Exit (string * GoMap * list string) :=
  let '(authToken, logged) :=
    if String.eqb tokenFlag "" then
      let token := base32.EncodeToString random in
      (token, ["auth token not specified, using a random token: " +:+ token])
    else (tokenFlag, []) in
  if String.eqb fileFlag "" then Continue (authToken, emptyMap, logged ++ [logInMemory])
  else
    match load ParseLayout onRefusal d emptyMap with
    | Fatal msg => Fatal msg
    | Continue (checkins, logged') => Continue (authToken, checkins, logged ++ logged')
    end.
End Startup.

(** * The vocabulary of the specification *)

(** Every byte of [s] satisfies [p]. *)
Fixpoint allb (p : ascii -> bool) (s : string) : bool :=
  match s with
  | EmptyString => true
  | String c s' => p c && allb p s'
  end.

(** The number a string of decimal digits denotes, after the digits that
    gave [x]. *)
Fixpoint decimal (s : string) (x : Z) : Z :=
  match s with
  | String c s' => decimal s' (x * 10 + digitVal c)
  | EmptyString => x
  end.

(** The length of one [h], [m] or [s], in nanoseconds. *)
Definition unitNanos (u : ascii) : Z :=
  if Ascii.eqb u "h" then time.Hour
  else if Ascii.eqb u "m" then time.Minute
  else time.Second.

(** The shape of a key: a label, a dash, digits, a unit. *)
Definition KeyShape (label digits : string) (u : ascii) (s : string) : Prop :=
  s = label +:+ "-" +:+ digits +:+ String u "" /\
  label <> "" /\ allb labelClass label = true /\
  digits <> "" /\ allb isDigit digits = true /\
  unitClass u = true.

(** A key the pattern refuses. *)
Definition malformed (key : string) : Prop :=
  regexp.FindStringSubmatchIndex keyRe key = None.

(** The key codec as the specification words it: the number in the suffix
    is a positive integer, every key of the shape is accepted with the
    number scaled by the unit, and everything else is refused. *)
Definition KeyAsSpecified (s : string) (n : Z) (u : ascii) : Prop :=
  exists label digits, KeyShape label digits u s /\ n = decimal digits 0 /\ 0 < n.

Definition KeyCodecAsSpecified (s : string) : Prop :=
  ((exists d, parse s = Ret (d, true)) <-> exists n u, KeyAsSpecified s n u) /\
  (forall n u, KeyAsSpecified s n u -> parse s = Ret (n * unitNanos u, true)) /\
  ((~ exists n u, KeyAsSpecified s n u) -> parse s = Ret (0, false)).

(** What is left of [keyRe] after the label, and the continuation that
    ends a match begun at position 0. *)
Definition keyTail : regexp.Regexp :=
  regexp.Cat (regexp.Lit "-")
    (regexp.Cat
       (regexp.Capture (regexp.Cat (regexp.Plus isDigit) (regexp.Class unitClass)))
       regexp.EndText).

Definition found (stop : nat) (_ : string) (caps : list (nat * nat)) : option (list nat) :=
  Some (regexp.indexes 0 stop caps).

Definition noDash (c : ascii) : bool := negb (Ascii.eqb c "-").

Definition startsNonDigit (s : string) : Prop :=
  match s with
  | String c _ => isDigit c = false
  | EmptyString => True
  end.

(** The verdict of a status query, and the decision [printStatus] takes
    between its three outputs. *)
Inductive Verdict : Type := OKAY | ALARM | NEVER.

Definition evaluate (window : time.Duration) (lastSeen now : time.Time) : Verdict :=
  if time.IsZero lastSeen then NEVER
  else if time.Sub now lastSeen >? window then ALARM
  else OKAY.

(** The line [printStatus] writes for a verdict. *)
Definition statusLine (key : string) (lastSeen : time.Time) (elapsed : time.Duration)
           (v : Verdict) : string :=
  match v with
  | NEVER => key +:+ " NEVER ALARM" +:+ fmt.newline
  | _ =>
      key +:+ " " +:+ time.FormatRFC3339 lastSeen +:+ " " +:+
      fmt.f0 (time.Hours elapsed) +:+ "h " +:+
      fmt.f0 (time.Minutes elapsed) +:+ "m " +:+
      fmt.f0 (time.Seconds elapsed) +:+ "s " +:+
      (match v with ALARM => "ALARM" | _ => "OKAY" end) +:+ fmt.newline
  end.

(** The exact number of nanoseconds from [u] to [t]. *)
Definition nanosBetween (t u : time.Time) : Z :=
  (time.sec t - time.sec u) * time.Second + (time.nsec t - time.nsec u).

(** A seconds count of the Unix clock as a [Time] in UTC. *)
Definition unix (s : Z) : time.Time := time.mkTime (s + 62135596800) 0 0.

(** Every key of [c] is one that [parse] accepts. *)
Definition keysParse (c : GoMap) : Prop :=
  forall k t, entries c !! k = Some t -> exists d, parse k = Ret (d, true).

Definition unauthorized (checkins : GoMap) : Outcome :=
  mkOutcome checkins (Ret (httpError "Unauthorized" StatusUnauthorized)) false.

Definition badHeader (checkins : GoMap) : Outcome :=
  mkOutcome checkins (Ret (httpError "Invalid Authorization format" StatusBadRequest)) false.

(** Authentication as the specification words it: a header, when there
    is one, must carry the prefix, and then it decides alone; the query
    parameter is looked at only when there is no header. *)
Definition AuthAsSpecified (authToken : string) (handler : HandlerFunc) (checkins : GoMap)
           (now : time.Time) (key : string) (header : http.Header) (token : string) : Prop :=
  let r := received key header token in
  let out := authMiddleware authToken handler checkins now r in
  match header with
  | None =>
      out = if decide (token = authToken) then handler checkins now r
            else unauthorized checkins
  | Some value =>
      (forall t, value = "Bearer " +:+ t ->
         out = if decide (t = authToken) then handler checkins now r
               else unauthorized checkins) /\
      ((forall t, value <> "Bearer " +:+ t) -> out = badHeader checkins)
  end.

(** The nanoseconds of a [Time] are within the second. *)
Definition wfNsec (t : time.Time) : Prop := 0 <= time.nsec t < 1000000000.

(** A difference cut to the range of a [Duration]. *)
Definition clamp (z : Z) : time.Duration :=
  if z <? time.minDuration then time.minDuration
  else if time.maxDuration <? z then time.maxDuration
  else z.

(** What [checkins[key]] returns for a key that never checked in. *)
Definition absentReading : time.Time := index emptyMap "".

(** Lookup as the specification words it: a recorded time is returned as
    it is, and is never the reading of a key that is absent. *)
Definition LookupAsSpecified (c : GoMap) (key : string) : Prop :=
  (entries c !! key = None -> index c key = absentReading) /\
  (forall t, entries c !! key = Some t -> index c key = t /\ index c key <> absentReading).

(** A registry that holds [a-1h] at the zero time, and a database file
    that loads into it. *)
Definition zeroRegistry : GoMap := goMap {[ "a-1h" := time.zeroTime ]}.

Definition zeroFile : Disk :=
  mkDisk (Data (json.Wellformed (json.Object [("a-1h", json.Str "0001-01-01T00:00:00Z")])))
         None.

(** The time elapsed broken into hours, minutes below 60 and seconds
    below 60. *)
Definition components (elapsed : time.Duration) : Z * Z * Z :=
  let s := Z.quot elapsed time.Second in
  (Z.quot s 3600, Z.quot (Z.rem s 3600) 60, Z.rem s 60).

(** The status line as the specification words it: the three numbers are
    the components of the time elapsed. *)
Definition LineAsSpecified (key : string) (lastSeen : time.Time)
           (elapsed : time.Duration) (verdict : string) : string :=
  let '(h, m, s) := components elapsed in
  key +:+ " " +:+ time.FormatRFC3339 lastSeen +:+ " " +:+
  fmt.d h +:+ "h " +:+ fmt.d m +:+ "m " +:+ fmt.d s +:+ "s " +:+ verdict +:+ fmt.newline.

Definition StatusOutputAsSpecified (key : string) (window : time.Duration)
           (lastSeen now : time.Time) : Prop :=
  if time.IsZero lastSeen
  then printStatus key window lastSeen now = key +:+ " NEVER ALARM" +:+ fmt.newline
  else exists verdict,
      (verdict = "OKAY" \/ verdict = "ALARM") /\
      printStatus key window lastSeen now =
        LineAsSpecified key lastSeen (time.Sub now lastSeen) verdict.

(** The last [n] decimal digits of [u], most significant first. *)
Fixpoint digitsN (n : nat) (u : Z) : string :=
  match n with
  | O => ""
  | S n' => digitsN n' (u / 10) +:+ String (time.digitChar (u mod 10)) ""
  end.

Definition two (n : Z) : string :=
  String (time.digitChar (n / 10)) (String (time.digitChar (n mod 10)) "").

Definition four (n : Z) : string :=
  String (time.digitChar (n / 1000)) (String (time.digitChar (n / 100 mod 10))
    (String (time.digitChar (n / 10 mod 10)) (String (time.digitChar (n mod 10)) ""))).

(** The times RFC 3339 can write and read back: nanoseconds within the
    second, a year of four digits in the zone of the time, a zone of
    whole minutes and less than a day.  A check-in recorded in UTC from a
    clock within the years 0 to 9999 is one, and so is every time the
    parser returns. *)
Definition canonical (t : time.Time) : Prop :=
  0 <= time.nsec t < 1000000000 /\
  0 <= time.Year t <= 9999 /\
  time.offset t mod 60 = 0 /\
  - 86400 < time.offset t < 86400.

(** A database file that is well-formed JSON, whose first member is a
    check-in and whose second is not a time. *)
Definition corruptFile : Disk :=
  mkDisk (Data (json.Wellformed
                  (json.Object [("a-1h", json.Str "2023-11-14T22:13:20Z");
                                ("b-1h", json.Number "5")])))
         None.

(** A registry as [json.MarshalIndent] writes it. *)
Definition written (kv : string * time.Time) : string * json.Value :=
  (fst kv, json.Str (time.appendFormatRFC3339 (snd kv) true)).

(** A clock reading that a check-in can record and RFC 3339 can write:
    nanoseconds within the second and, in UTC, a year of four digits. *)
Definition clockOK (now : time.Time) : Prop :=
  wfNsec now /\ 0 <= time.Year (time.UTC now) <= 9999.

(** Every time of the registry is canonical. *)
Definition allCanonical (c : GoMap) : Prop :=
  forall k t, entries c !! k = Some t -> canonical t.

Definition lineFeed : ascii := ascii_of_nat 10.

Definition plain (c : ascii) : bool := negb (Ascii.eqb c lineFeed).

(** A text that is one line: no line feed but the one that ends it. *)
Definition oneLine (s : string) : Prop :=
  exists text, s = text +:+ fmt.newline /\ allb plain text = true.

(** * More of [main.go]

    ** [ensure] *)

(** [func ensure(err error)]; nothing in the program calls it. *)
Definition ensure (err : option error) : Run unit :=
  match err with
  | Some e => Panic e
  | None => Ret tt
  end.

(** ** A server whose saves keep up

    [checkinHandler] starts [save] in a goroutine of its own and answers
    without waiting for it.  [serveSaved] is the schedule in which that
    goroutine has written the file before the next request is served.
    A panic in the goroutine ends the process, and so does
    [log.Fatalf]. *)
Record Server : Type := mkServer {
  registry : GoMap;
  disk : Disk
}.

Inductive Stop : Type :=
| Crashed (e : error)      (* a panic outside a handler *)
| Exited (msg : string).   (* log.Fatalf *)

Definition serveSaved (filename authToken : string) (route : Route)
           (s : Server) (now : time.Time) : result Stop Server :=
  let out := serve authToken route (registry s) now in
  if saving out then
    match save filename (after out) (disk s) with
    | Panic e => Err (Crashed e)
    | Ret (Fatal msg) => Err (Exited msg)
    | Ret (Continue d') => Ok (mkServer (after out) d')
    end
  else Ok (mkServer (after out) (disk s)).

Fixpoint runSaved (filename authToken : string) (trace : list (Route * time.Time))
         (s : Server) : result Stop Server :=
  match trace with
  | [] => Ok s
  | (route, now) :: rest =>
      match serveSaved filename authToken route s now with
      | Ok s' => runSaved filename authToken rest s'
      | Err stop => Err stop
      end
  end.

(** ** The mutex

    The handlers take [mu] around every use of [checkins] and release it
    by hand: there is no [defer], so a panic between [Lock] and [Unlock]
    leaves [mu] locked.  net/http recovers the panic of a handler and
    goes on serving; a handler that then calls [Lock] waits for ever.
    This second reading of the handlers follows [mu] as well.  Requests
    are still served one after the other, and a handler answers with its
    response and whether it started [save]. *)
Module mutex.

Record Shared : Type := mkShared {
  checkins : GoMap;
  mu : bool                 (* whether [mu] is locked *)
}.

Inductive Step (A : Type) : Type :=
| Done (a : A) (s : Shared)
| Panics (e : error) (s : Shared)
| Blocks.                   (* the handler waits for [mu] and never returns *)
Arguments Done {A} a s.
Arguments Panics {A} e s.
Arguments Blocks {A}.

Definition M (A : Type) : Type := Shared -> Step A.

Definition ret {A : Type} (a : A) : M A := fun s => Done a s.

Definition bind {A B : Type} (m : M A) (f : A -> M B) : M B :=
  fun s =>
    match m s with
    | Done a s' => f a s'
    | Panics e s' => Panics e s'
    | Blocks => Blocks
    end.

Notation "x <- m ;; k" := (bind m (fun x => k))
  (at level 100, m at next level, right associativity).

Definition lift {A : Type} (r : Run A) : M A :=
  fun s =>
    match r with
    | Ret a => Done a s
    | Panic e => Panics e s
    end.

(** [mu.Lock()] and [mu.Unlock()]. *)
Definition Lock : M unit :=
  fun s => if mu s then Blocks else Done tt (mkShared (checkins s) true).

Definition Unlock : M unit :=
  fun s => Done tt (mkShared (checkins s) false).

(** Reading the variable [checkins], and [checkins[key] = t]. *)
Definition get : M GoMap := fun s => Done (checkins s) s.

Definition store (key : string) (t : time.Time) : M unit :=
  fun s =>
    match assign (checkins s) key t with
    | Ret c => Done tt (mkShared c (mu s))
    | Panic e => Panics e s
    end.

Definition HandlerFunc : Type := time.Time -> Request -> M (Response * bool).

Definition authMiddleware (authToken : string) (handler : HandlerFunc) : HandlerFunc :=
  fun now r =>
    let token := authorization r in
    let '(token, ok) :=
      if String.eqb token "" then (queryToken r, true)
      else CutPrefix token "Bearer " in
    if negb ok then
      ret (httpError "Invalid Authorization format" StatusBadRequest, false)
    else if negb (subtle.ConstantTimeCompare authToken token =? 1) then
      ret (httpError "Unauthorized" StatusUnauthorized, false)
    else handler now r.

Definition checkinHandler : HandlerFunc :=
  fun now r =>
    let key := pathKey r in
    p <- lift (parse key) ;;
    if negb (snd p) then ret (httpError "Invalid key" StatusBadRequest, false)
    else
      let now := time.UTC now in
      _ <- Lock ;;
      _ <- store key now ;;
      _ <- Unlock ;;
      ret (mkResponse StatusNoContent "" "", true).

Definition statusHandler : HandlerFunc :=
  fun now r =>
    let key := pathKey r in
    p <- lift (parse key) ;;
    if negb (snd p) then ret (httpError "Invalid key" StatusBadRequest, false)
    else
      _ <- Lock ;;
      c <- get ;;
      let lastCheckin := index c key in
      _ <- Unlock ;;
      ret (mkResponse StatusOK "text/plain" (printStatus key (fst p) lastCheckin now), false).

Definition listHandler (visit : list (string * time.Time)) : HandlerFunc :=
  fun now r =>
    _ <- Lock ;;
    m <- get ;;
    _ <- Unlock ;;
    let header := "watchdogd has " +:+ fmt.d (len m) +:+ " keys" +:+ fmt.newline in
    w <- lift (listLines visit now header) ;;
    ret (mkResponse StatusOK "text/plain" w, false).

Definition serve (authToken : string) (route : Route) (now : time.Time)
  : M (Response * bool) :=
  match route with
  | PostKey r => authMiddleware authToken checkinHandler now r
  | GetKey r => statusHandler now r
  | Root visit r => listHandler visit now r
  end.

End mutex.

(** What a handler of the first reading comes to, in the terms of the
    second, when [mu] is free before and after. *)
Definition ofOutcome (o : Outcome) : mutex.Step (Response * bool) :=
  match reply o with
  | Ret resp => mutex.Done (resp, saving o) (mutex.mkShared (after o) false)
  | Panic e => mutex.Panics e (mutex.mkShared (after o) false)
  end.

(** ** The vocabulary of the further properties *)

(** One character of the base32 alphabet. *)
Definition base32Char (c : ascii) : bool := inRange "A" "Z" c || inRange "2" "7" c.

(** The lines of a listing, one after the other. *)
Definition concatLines (lines : list string) : string := foldr String.append "" lines.

(** The status line [GET /key] answers with. *)
Definition statusOf (c : GoMap) (now : time.Time) (key line : string) : Prop :=
  reply (statusHandler c now (mkRequest key "" "")) =
  Ret (mkResponse StatusOK "text/plain" line).

(** A database file that holds the given check-ins, written as
    [json.MarshalIndent] writes them, followed by other members. *)
Definition databaseFile (good : list (string * time.Time))
           (others : list (string * json.Value)) (write : option string) : Disk :=
  mkDisk (Data (json.Wellformed (json.Object ((written <$> good) ++ others)))) write.

(** A member of a database file that the decoder reads by the exact
    RFC 3339 form: a time in that form, or [null]. *)
Definition strictMember (kv : string * json.Value) : Prop :=
  match snd kv with
  | json.Null => True
  | json.Str raw => time.parseRFC3339 raw <> None
  | _ => False
  end.

(** A time with its nanoseconds dropped, as a text without a fraction
    shows it. *)
Definition toTheSecond (t : time.Time) : time.Time :=
  time.mkTime (time.sec t) 0 (time.offset t).

(** * Proofs

    ** Strings *)
Lemma str_app_cons (c : ascii) (a b : string) : String c a +:+ b = String c (a +:+ b).
Proof. reflexivity. Qed.

Lemma str_app_nil_l (b : string) : "" +:+ b = b.
Proof. reflexivity. Qed.

Create Rewrite HintDb str.
#[local] Hint Rewrite str_app_cons str_app_nil_l : str.

Ltac str := autorewrite with str in *; simpl in *.

Lemma str_app_nil_r (s : string) : s +:+ "" = s.
Proof. induction s; str; congruence. Qed.

Lemma str_app_assoc (a b c : string) : (a +:+ b) +:+ c = a +:+ (b +:+ c).
Proof. induction a; str; congruence. Qed.

Lemma str_length_app (a b : string) :
  String.length (a +:+ b) = (String.length a + String.length b)%nat.
Proof. induction a; str; congruence. Qed.

Lemma allb_app p a b : allb p (a +:+ b) = allb p a && allb p b.
Proof. induction a; str; [reflexivity|]. rewrite IHa. apply andb_assoc. Qed.

Lemma substring_all (s : string) : substring 0 (String.length s) s = s.
Proof. induction s; simpl; congruence. Qed.

Lemma substring_skip (a b : string) (n : nat) :
  substring (String.length a) n (a +:+ b) = substring 0 n b.
Proof. induction a; str; [reflexivity|]. exact IHa. Qed.

Lemma slice_suffix (a b : string) :
  slice (a +:+ b) (String.length a) (String.length (a +:+ b)) = b.
Proof.
  unfold slice. rewrite str_length_app.
  replace (String.length a + String.length b - String.length a)%nat
    with (String.length b) by lia.
  rewrite substring_skip. apply substring_all.
Qed.

(** ** The backtracking search *)
Section StarFacts.
Context {A : Type}.
Implicit Types (k : @regexp.Cont A).

(* a successful star consumed a prefix of the class and the rest went to k *)
Lemma star_sound p s pos caps k r :
  regexp.star p s pos caps k = Some r ->
  exists pre rest, s = pre +:+ rest /\ allb p pre = true /\
    k (pos + String.length pre)%nat rest caps = Some r.
Proof.
  revert pos. induction s as [|c s IH]; intros pos H; simpl in H.
  - exists ""%string, ""%string. str. rewrite Nat.add_0_r. auto.
  - destruct (p c) eqn:Hc.
    + destruct (regexp.star p s (S pos) caps k) eqn:Hs.
      * injection H as <-. destruct (IH _ Hs) as (pre & rest & -> & Hp & Hk).
        exists (String c pre), rest. str. rewrite Hc, Hp.
        replace (pos + S (String.length pre))%nat with (S pos + String.length pre)%nat by lia.
        auto.
      * exists ""%string, (String c s). str. rewrite Nat.add_0_r. auto.
    + exists ""%string, (String c s). str. rewrite Nat.add_0_r. auto.
Qed.

(* if k accepts after some prefix of the class, star succeeds *)
Lemma star_complete p pre rest pos caps k r :
  allb p pre = true ->
  k (pos + String.length pre)%nat rest caps = Some r ->
  exists r', regexp.star p (pre +:+ rest) pos caps k = Some r'.
Proof.
  revert pos. induction pre as [|c pre IH]; intros pos Hp Hk; str.
  - rewrite Nat.add_0_r in Hk. destruct rest as [|c rest]; simpl; [eauto|].
    destruct (p c); [|eauto].
    destruct (regexp.star p rest (S pos) caps k); eauto.
  - apply andb_true_iff in Hp as [Hc Hp]. rewrite Hc.
    replace (pos + S (String.length pre))%nat with (S pos + String.length pre)%nat in Hk by lia.
    destruct (IH _ Hp Hk) as [r' ->]. eauto.
Qed.

(* when k cannot start on a byte of the class, star takes all of them *)
Lemma star_forced p pre rest pos caps k :
  allb p pre = true ->
  (forall c rest' pos', p c = true -> k pos' (String c rest') caps = None) ->
  match rest with String c _ => p c = false | EmptyString => True end ->
  regexp.star p (pre +:+ rest) pos caps k = k (pos + String.length pre)%nat rest caps.
Proof.
  intros Hp Hk Hrest. revert pos. induction pre as [|c pre IH]; intros pos; str.
  - rewrite Nat.add_0_r. destruct rest as [|c rest]; simpl; [reflexivity|].
    rewrite Hrest. reflexivity.
  - apply andb_true_iff in Hp as [Hc Hp]. rewrite Hc, (IH Hp).
    replace (pos + S (String.length pre))%nat with (S pos + String.length pre)%nat by lia.
    destruct (k _ rest caps) eqn:E; [reflexivity|].
    apply Hk, Hc.
Qed.
End StarFacts.

(** ** The key pattern *)
Lemma digit_noDash c : isDigit c = true -> noDash c = true.
Proof.
  unfold isDigit, inRange, noDash. intros H.
  destruct (Ascii.eqb_spec c "-") as [->|]; [discriminate H|reflexivity].
Qed.

Lemma unit_noDash c : unitClass c = true -> noDash c = true.
Proof.
  unfold unitClass, noDash. intros H.
  destruct (Ascii.eqb_spec c "-") as [->|]; [discriminate H|reflexivity].
Qed.

Lemma digit_not_unit c : isDigit c = true -> unitClass c = false.
Proof.
  unfold unitClass. intros H.
  destruct (Ascii.eqb_spec c "h") as [->|]; [discriminate H|].
  destruct (Ascii.eqb_spec c "m") as [->|]; [discriminate H|].
  destruct (Ascii.eqb_spec c "s") as [->|]; [discriminate H|reflexivity].
Qed.

Lemma unit_not_digit c : unitClass c = true -> isDigit c = false.
Proof.
  intros H. destruct (isDigit c) eqn:E; [|reflexivity].
  apply digit_not_unit in E. congruence.
Qed.

Lemma digit_labelClass c : isDigit c = true -> labelClass c = true.
Proof. unfold isDigit, labelClass. intros ->. rewrite !orb_true_r. reflexivity. Qed.

Lemma allb_impl (p q : ascii -> bool) s :
  (forall c, p c = true -> q c = true) -> allb p s = true -> allb q s = true.
Proof.
  intros Hpq. induction s as [|c s IH]; simpl; [reflexivity|].
  intros [Hc Hs]%andb_true_iff. rewrite (Hpq _ Hc), (IH Hs). reflexivity.
Qed.

(* the text after the last dash is determined by the whole *)
Lemma split_last_dash l l' t t' :
  allb noDash t = true -> allb noDash t' = true ->
  l +:+ "-" +:+ t = l' +:+ "-" +:+ t' -> l = l' /\ t = t'.
Proof.
  intros Ht Ht'. revert l'. induction l as [|c l IH]; intros [|c' l'] H; str.
  - injection H as ->. auto.
  - injection H as <- ->. rewrite allb_app in Ht. simpl in Ht.
    rewrite andb_false_r in Ht. discriminate.
  - injection H as -> <-. rewrite allb_app in Ht'. simpl in Ht'.
    rewrite andb_false_r in Ht'. discriminate.
  - injection H as -> H. destruct (IH _ H) as [-> ->]. auto.
Qed.

Lemma app_last_inj d d' (u u' : ascii) :
  d +:+ String u "" = d' +:+ String u' "" -> d = d' /\ u = u'.
Proof.
  revert d'. induction d as [|c d IH]; intros [|c' d'] H; str.
  - injection H as ->. auto.
  - injection H as _ H. destruct d'; discriminate H.
  - injection H as _ H. destruct d; discriminate H.
  - injection H as -> H. destruct (IH _ H) as [-> ->]. auto.
Qed.

Lemma KeyShape_unique l d u l' d' u' s :
  KeyShape l d u s -> KeyShape l' d' u' s -> l = l' /\ d = d' /\ u = u'.
Proof.
  intros (-> & _ & _ & _ & Hd & Hu) (E & _ & _ & _ & Hd' & Hu').
  apply split_last_dash in E as [-> E].
  - apply app_last_inj in E as [-> ->]. auto.
  - rewrite allb_app. simpl. rewrite (allb_impl _ _ _ digit_noDash Hd), (unit_noDash _ Hu). reflexivity.
  - rewrite allb_app. simpl. rewrite (allb_impl _ _ _ digit_noDash Hd'), (unit_noDash _ Hu'). reflexivity.
Qed.

Lemma keyTail_sound rest pos caps r :
  regexp.run keyTail rest pos caps found = Some r ->
  exists digits u, rest = "-" +:+ digits +:+ String u "" /\
    digits <> "" /\ allb isDigit digits = true /\ unitClass u = true /\
    r = regexp.indexes 0 (pos + String.length rest)
          (caps ++ [(S pos, pos + String.length rest)%nat]).
Proof.
  unfold keyTail. cbn [regexp.run].
  destruct rest as [|c0 rest]; [discriminate|].
  destruct (Ascii.eqb_spec "-" c0) as [<-|]; [|discriminate].
  destruct rest as [|c1 rest]; [discriminate|].
  destruct (isDigit c1) eqn:Hc1; [|discriminate].
  intros H. apply star_sound in H as (pre & rest' & -> & Hpre & H).
  cbn [regexp.run] in H.
  destruct rest' as [|u rest']; [discriminate|].
  destruct (unitClass u) eqn:Hu; [|discriminate].
  destruct rest'; [|discriminate].
  unfold found in H. injection H as <-.
  exists (String c1 pre), u. rewrite !str_app_cons, str_app_nil_l.
  cbn [allb String.length]. rewrite Hc1, Hpre, str_length_app. cbn [String.length].
  repeat split; try congruence.
  do 2 f_equal; [lia|]. do 3 f_equal; lia.
Qed.

Lemma keyTail_complete digits u pos caps :
  digits <> "" -> allb isDigit digits = true -> unitClass u = true ->
  regexp.run keyTail ("-" +:+ digits +:+ String u "") pos caps found =
  Some (regexp.indexes 0 (pos + S (String.length digits + 1))
          (caps ++ [(S pos, pos + S (String.length digits + 1))%nat])).
Proof.
  intros Hne Hd Hu. destruct digits as [|c1 pre]; [congruence|].
  rewrite !str_app_cons, str_app_nil_l. unfold keyTail. cbn [regexp.run allb String.length] in *.
  rewrite Ascii.eqb_refl.
  apply andb_true_iff in Hd as [Hc1 Hpre]. rewrite Hc1.
  rewrite star_forced; auto.
  - cbn [regexp.run]. rewrite Hu. unfold found. do 3 f_equal; [lia|]. do 3 f_equal; lia.
  - intros c rest' pos' Hc. cbn [regexp.run]. rewrite (digit_not_unit _ Hc). reflexivity.
  - apply unit_not_digit, Hu.
Qed.

Lemma findFrom_keyRe_later s pos : regexp.findFrom keyRe s (S pos) = None.
Proof. revert pos. induction s as [|c s IH]; intros pos; simpl; auto. Qed.

Lemma find_keyRe_unfold s :
  regexp.FindStringSubmatchIndex keyRe s =
  regexp.run (regexp.Plus labelClass) s 0 []
    (fun pos' s' caps' => regexp.run keyTail s' pos' caps' found).
Proof.
  unfold regexp.FindStringSubmatchIndex.
  destruct s as [|c s]; cbn [regexp.findFrom].
  - reflexivity.
  - rewrite findFrom_keyRe_later.
    unfold keyRe at 1. cbn [regexp.run Nat.eqb]. fold keyTail.
    match goal with |- match ?x with _ => _ end = ?y => change x with y; destruct y; reflexivity end.
Qed.

(** The match of [keyRe], if any, is the split at the last dash. *)
Lemma find_keyRe_sound s m :
  regexp.FindStringSubmatchIndex keyRe s = Some m ->
  exists label digits u, KeyShape label digits u s /\
    m = [0; String.length s; S (String.length label); String.length s]%nat.
Proof.
  rewrite find_keyRe_unfold. cbn [regexp.run].
  destruct s as [|c s]; [discriminate|].
  destruct (labelClass c) eqn:Hc; [|discriminate].
  intros H. apply star_sound in H as (pre & rest & -> & Hpre & H).
  apply keyTail_sound in H as (digits & u & -> & Hne & Hd & Hu & ->).
  exists (String c pre), digits, u. split.
  - unfold KeyShape. rewrite str_app_cons. cbn [allb]. rewrite Hc, Hpre.
    repeat split; auto; congruence.
  - cbn [app String.length regexp.indexes flat_map fst snd].
    rewrite !str_length_app. cbn [String.length]. repeat f_equal; lia.
Qed.

Lemma find_keyRe_complete label digits u s :
  KeyShape label digits u s ->
  regexp.FindStringSubmatchIndex keyRe s =
  Some [0; String.length s; S (String.length label); String.length s]%nat.
Proof.
  intros HK. pose proof HK as (-> & Hne & Hl & Hdne & Hd & Hu).
  destruct (regexp.FindStringSubmatchIndex keyRe (label +:+ "-" +:+ digits +:+ String u ""))
    as [m|] eqn:E.
  - apply find_keyRe_sound in E as (l' & d' & u' & HK' & ->).
    destruct (KeyShape_unique _ _ _ _ _ _ _ HK HK') as (-> & _). reflexivity.
  - exfalso. rewrite find_keyRe_unfold in E. cbn [regexp.run] in E.
    destruct label as [|c pre]; [congruence|]. rewrite str_app_cons in E.
    cbn [allb] in Hl. apply andb_true_iff in Hl as [Hc Hpre]. rewrite Hc in E.
    pose proof (keyTail_complete digits u (1 + String.length pre) [] Hdne Hd Hu) as Hk.
    destruct (star_complete labelClass pre ("-" +:+ digits +:+ String u "") 1%nat []
                (fun pos' s' caps' => regexp.run keyTail s' pos' caps' found) _ Hpre Hk)
      as [r' Hr'].
    congruence.
Qed.

(** ** [time.ParseDuration] on the captured group *)
Lemma isDigit_val c : isDigit c = true -> 0 <= digitVal c <= 9.
Proof.
  unfold isDigit, inRange, digitVal. change (code "0") with 48. change (code "9") with 57.
  intros [H1 H2]%andb_true_iff. lia.
Qed.

Lemma decimal_mono ds x :
  allb isDigit ds = true -> 0 <= x -> x <= decimal ds x.
Proof.
  revert x. induction ds as [|c ds IH]; intros x Hd Hx; simpl in *; [lia|].
  apply andb_true_iff in Hd as [Hc Hd]. apply isDigit_val in Hc.
  specialize (IH (x * 10 + digitVal c) Hd). lia.
Qed.

Lemma leadingInt_digits ds rest x :
  allb isDigit ds = true -> startsNonDigit rest -> 0 <= x <= 2 ^ 63 ->
  time.leadingInt (ds +:+ rest) x =
  if decimal ds x <=? 2 ^ 63 then Some (decimal ds x, rest) else None.
Proof.
  intros Hd Hrest. revert x Hd.
  induction ds as [|c ds IH]; intros x Hd Hx; str.
  - destruct (Z.leb_spec x (2 ^ 63)); [|lia].
    destruct rest as [|c rest]; simpl in *; [reflexivity|]. rewrite Hrest. reflexivity.
  - apply andb_true_iff in Hd as [Hc Hd]. rewrite Hc.
    pose proof (isDigit_val _ Hc) as Hv. unfold digitVal in *.
    pose proof (decimal_mono ds (x * 10 + (code c - 48)) Hd ltac:(lia)) as Hm.
    unfold digitVal.
    change (2 ^ 63 / 10) with 922337203685477580.
    change (2 ^ 63) with 9223372036854775808 in *.
    destruct (Z.gtb_spec x 922337203685477580).
    { destruct (Z.leb_spec (decimal ds (x * 10 + (code c - 48))) 9223372036854775808); [lia|reflexivity]. }
    unfold time.u64. change (2 ^ 64) with 18446744073709551616.
    rewrite Z.mod_small by lia.
    replace (x * 10 + code c - 48) with (x * 10 + (code c - 48)) by lia.
    destruct (Z.gtb_spec (x * 10 + (code c - 48)) 9223372036854775808).
    { destruct (Z.leb_spec (decimal ds (x * 10 + (code c - 48))) 9223372036854775808); [lia|reflexivity]. }
    apply IH; [assumption|lia].
Qed.

Lemma unitClass_cases u :
  unitClass u = true -> u = "h"%char \/ u = "m"%char \/ u = "s"%char.
Proof.
  unfold unitClass.
  destruct (Ascii.eqb_spec u "h"); [auto|].
  destruct (Ascii.eqb_spec u "m"); [auto|].
  destruct (Ascii.eqb_spec u "s"); [auto|discriminate].
Qed.

Lemma unitMap_unit u :
  unitClass u = true -> time.unitMap (String u "") = Some (unitNanos u).
Proof. intros [->| [->| ->]]%unitClass_cases; reflexivity. Qed.

Lemma unitNanos_cases u :
  unitNanos u = 3600000000000 \/ unitNanos u = 60000000000 \/ unitNanos u = 1000000000.
Proof.
  unfold unitNanos. destruct (Ascii.eqb u "h"); [auto|]. destruct (Ascii.eqb u "m"); auto.
Qed.

Lemma spanUnit_unit u :
  unitClass u = true -> time.spanUnit (String u "") = (String u "", ""%string).
Proof. intros [->| [->| ->]]%unitClass_cases; reflexivity. Qed.

Lemma String_eqb_long c c' s (a : ascii) :
  String.eqb (String c (String c' s)) (String a "") = false.
Proof. simpl. destruct (Ascii.eqb c a); reflexivity. Qed.

Ltac eval_div :=
  match goal with
  | H : context [Z.div (Zpos ?a) (Zpos ?b)] |- _ =>
      let q := eval vm_compute in (Z.div (Zpos a) (Zpos b)) in
      change (Z.div (Zpos a) (Zpos b)) with q in H
  end.

Lemma parseLoop_group fuel orig digits u :
  digits <> "" -> allb isDigit digits = true -> unitClass u = true ->
  time.parseLoop (S fuel) orig (digits +:+ String u "") 0 =
  if decimal digits 0 * unitNanos u <=? 2 ^ 63
  then Ok (decimal digits 0 * unitNanos u)
  else Err (errInvalidDuration orig).
Proof.
  intros Hne Hd Hu.
  pose proof (unit_not_digit _ Hu) as Hund.
  pose proof (decimal_mono digits 0 Hd ltac:(lia)) as Hn.
  pose proof (unitNanos_cases u) as Hcases.
  assert (Hudot : Ascii.eqb u "." = false).
  { destruct (Ascii.eqb_spec u ".") as [->|]; [discriminate Hu|]. reflexivity. }
  assert (Hlen : Nat.eqb (String.length (digits +:+ String u "")) (String.length (String u "")) = false).
  { apply Nat.eqb_neq. rewrite str_length_app. destruct digits; [congruence|]. simpl. lia. }
  assert (Hhead : exists c s', digits +:+ String u "" = String c s' /\ isDigit c = true).
  { destruct digits as [|c ds]; [congruence|]. exists c, (ds +:+ String u "").
    split; [reflexivity|]. simpl in Hd. apply andb_true_iff in Hd. tauto. }
  destruct Hhead as (c & s' & Hs & Hc).
  cbn [time.parseLoop]. rewrite Hs at 1. rewrite Hc, orb_true_r. cbn [negb].
  rewrite leadingInt_digits; [|assumption|exact Hund|].
  2:{ change (2 ^ 63) with 9223372036854775808. lia. }
  set (n := decimal digits 0) in *.
  change (2 ^ 63) with 9223372036854775808.
  destruct (Z.leb_spec n 9223372036854775808) as [Hfit|Hbig].
  2:{ destruct (Z.leb_spec (n * unitNanos u) 9223372036854775808); [nia|reflexivity]. }
  rewrite Hudot, Hlen. cbn [negb andb].
  rewrite (spanUnit_unit _ Hu), (unitMap_unit _ Hu).
  destruct (Z.gtb_spec n (9223372036854775808 / unitNanos u)) as [Hov|Hok].
  { destruct (Z.leb_spec (n * unitNanos u) 9223372036854775808); [|reflexivity].
    exfalso. destruct Hcases as [E|[E|E]]; rewrite E in *; clear E;
      eval_div; lia. }
  assert (Hprod : 0 <= n * unitNanos u <= 9223372036854775808).
  { destruct Hcases as [E|[E|E]]; rewrite E in *; clear E; eval_div; lia. }
  change (0 >? 0) with false. cbn [andb].
  unfold time.u64. change (2 ^ 64) with 18446744073709551616.
  rewrite (Z.mod_small (n * unitNanos u)) by lia.
  rewrite Z.add_0_l, (Z.mod_small (n * unitNanos u)) by lia.
  destruct (Z.gtb_spec (n * unitNanos u) 9223372036854775808); [lia|].
  destruct (Z.leb_spec (n * unitNanos u) 9223372036854775808); [|lia].
  destruct fuel; reflexivity.
Qed.

(** What [time.ParseDuration] makes of a group of digits and a unit: the
    number scaled by the unit when that fits a [Duration], an error
    otherwise. *)
Lemma ParseDuration_group digits u :
  digits <> "" -> allb isDigit digits = true -> unitClass u = true ->
  time.ParseDuration (digits +:+ String u "") =
  if decimal digits 0 * unitNanos u <=? time.maxDuration
  then Ok (decimal digits 0 * unitNanos u)
  else Err (errInvalidDuration (digits +:+ String u "")).
Proof.
  intros Hne Hd Hu.
  pose proof (unitNanos_cases u) as Hcases.
  pose proof (decimal_mono digits 0 Hd ltac:(lia)) as Hn.
  pose proof (parseLoop_group (String.length digits + 0) (digits +:+ String u "") digits u Hne Hd Hu) as HL.
  destruct digits as [|c ds]; [congruence|].
  set (n := decimal (String c ds) 0) in *.
  pose proof Hd as Hd'. cbn [allb] in Hd'. apply andb_true_iff in Hd' as [Hc Hds].
  assert (Hsign : Ascii.eqb c "-" || Ascii.eqb c "+" = false).
  { destruct (Ascii.eqb_spec c "-") as [->|]; [discriminate Hc|].
    destruct (Ascii.eqb_spec c "+") as [->|]; [discriminate Hc|]. reflexivity. }
  unfold time.ParseDuration. rewrite str_app_cons in *. rewrite Hsign.
  replace (String.eqb (String c (ds +:+ String u "")) "0") with false
    by (symmetry; destruct ds; apply String_eqb_long).
  cbn [String.eqb].
  replace (String.length (String c (ds +:+ String u "")))
    with (S (String.length (String c ds) + 0)).
  2:{ cbn [String.length]. rewrite str_length_app. simpl. lia. }
  rewrite HL.
  change time.maxDuration with 9223372036854775807.
  change (2 ^ 63) with 9223372036854775808.
  destruct (Z.leb_spec (n * unitNanos u) 9223372036854775808);
    destruct (Z.leb_spec (n * unitNanos u) 9223372036854775807); try lia; try reflexivity;
    destruct (Z.gtb_spec (n * unitNanos u) (9223372036854775808 - 1)); try lia; reflexivity.
Qed.

(** [parse] on a string of the pattern's shape. *)
Lemma parse_shape label digits u s :
  KeyShape label digits u s ->
  parse s =
  if decimal digits 0 * unitNanos u <=? time.maxDuration
  then Ret (decimal digits 0 * unitNanos u, true)
  else Panic (errInvalidDuration (digits +:+ String u "")).
Proof.
  intros HK. unfold parse. rewrite (find_keyRe_complete _ _ _ _ HK).
  destruct HK as (-> & Hne & Hl & Hdne & Hd & Hu).
  cbn [nth].
  replace (slice _ _ _) with (digits +:+ String u "").
  - rewrite (ParseDuration_group _ _ Hdne Hd Hu).
    destruct (_ <=? _); reflexivity.
  - rewrite <- (slice_suffix (label +:+ "-") (digits +:+ String u "")) at 1.
    rewrite !str_app_assoc, !str_length_app. cbn [String.length].
    replace (String.length label + 1)%nat with (S (String.length label)) by lia.
    reflexivity.
Qed.

Lemma parse_no_match s :
  regexp.FindStringSubmatchIndex keyRe s = None -> parse s = Ret (0, false).
Proof. unfold parse. intros ->. reflexivity. Qed.

Lemma find_keyRe_iff s :
  regexp.FindStringSubmatchIndex keyRe s <> None <->
  exists label digits u, KeyShape label digits u s.
Proof.
  split.
  - destruct (regexp.FindStringSubmatchIndex keyRe s) as [m|] eqn:E; [|congruence].
    intros _. apply find_keyRe_sound in E as (l & d & u & HK & _). eauto.
  - intros (l & d & u & HK). rewrite (find_keyRe_complete _ _ _ _ HK). discriminate.
Qed.

(** ** The key codec *)

Lemma parse_accepts s d :
  parse s = Ret (d, true) -> exists label digits u, KeyShape label digits u s.
Proof.
  intros H. apply find_keyRe_iff. unfold parse in H.
  destruct (regexp.FindStringSubmatchIndex keyRe s); [discriminate|discriminate H].
Qed.

Lemma KeyShape_a0h : KeyShape "a" "0" "h" "a-0h".
Proof. unfold KeyShape. repeat split; discriminate. Qed.

(** C2, as the specification words it, fails: [a-0h] is accepted, with a
    window of zero, though zero is not a positive integer. *)
Lemma key_codec_accepts_zero : ~ KeyCodecAsSpecified "a-0h".
Proof.
  intros [[Hacc _] _].
  destruct Hacc as (n & u & label & digits & HK & Hn & Hpos).
  - exists 0. reflexivity.
  - destruct (KeyShape_unique _ _ _ _ _ _ _ KeyShape_a0h HK) as (_ & <- & _).
    vm_compute in Hn. subst n. lia.
Qed.

(** C2, amended: [keyRe] matches exactly the strings made of a non-empty
    label over letters, digits, ['.'], ['_'] and ['-'], a dash, one or
    more decimal digits (zero and leading zeros included) and a unit in
    h, m, s, with nothing after the unit; on such a key whose number
    scaled by the unit fits a [Duration], [parse] returns that duration
    and true; on every string the pattern refuses, [parse] returns zero
    and false. *)
Theorem parse_key_codec (s : string) :
  (regexp.FindStringSubmatchIndex keyRe s <> None <->
   exists label digits u, KeyShape label digits u s) /\
  (forall label digits u,
      KeyShape label digits u s ->
      decimal digits 0 * unitNanos u <= time.maxDuration ->
      parse s = Ret (decimal digits 0 * unitNanos u, true)) /\
  ((~ exists label digits u, KeyShape label digits u s) -> parse s = Ret (0, false)).
Proof.
  split; [apply find_keyRe_iff|]. split.
  - intros label digits u HK Hfit. rewrite (parse_shape _ _ _ _ HK).
    destruct (Z.leb_spec (decimal digits 0 * unitNanos u) time.maxDuration); [reflexivity|lia].
  - intros Hno. apply parse_no_match.
    destruct (regexp.FindStringSubmatchIndex keyRe s) eqn:E; [|reflexivity].
    exfalso. apply Hno, find_keyRe_iff. congruence.
Qed.

(** C9: the pattern accepts [a-2562048h], and [parse] panics on it: the
    2562048 hours do not fit a [Duration], [time.ParseDuration] returns an
    error and [must] panics. *)
Theorem parse_panics_on_wide_window :
  regexp.FindStringSubmatchIndex keyRe "a-2562048h" = Some [0; 10; 2; 10]%nat /\
  parse "a-2562048h" = Panic (errInvalidDuration "2562048h") /\
  parse "a-2562047h" = Ret (2562047 * time.Hour, true).
Proof. repeat split; vm_compute; reflexivity. Qed.

(** More generally, [parse] panics on every key of the pattern whose
    window is too wide, and on no other string. *)
Lemma parse_panics_iff s :
  (exists e, parse s = Panic e) <->
  exists label digits u, KeyShape label digits u s /\
    time.maxDuration < decimal digits 0 * unitNanos u.
Proof.
  split.
  - intros [e H].
    destruct (regexp.FindStringSubmatchIndex keyRe s) as [m|] eqn:E.
    + apply find_keyRe_sound in E as (l & d & u & HK & _).
      exists l, d, u. split; [exact HK|].
      rewrite (parse_shape _ _ _ _ HK) in H.
      destruct (Z.leb_spec (decimal d 0 * unitNanos u) time.maxDuration); [discriminate|lia].
    + rewrite (parse_no_match _ E) in H. discriminate.
  - intros (l & d & u & HK & Hbig). rewrite (parse_shape _ _ _ _ HK).
    destruct (Z.leb_spec (decimal d 0 * unitNanos u) time.maxDuration); [lia|eauto].
Qed.

(** [parse] is a function: asked again, it answers the same. *)
Lemma parse_total s :
  (exists d ok, parse s = Ret (d, ok)) \/ (exists e, parse s = Panic e).
Proof. destruct (parse s) as [[d ok]|e]; eauto. Qed.

(** ** Check-in *)



(** ** The keys of the registry *)

Lemma keysParse_empty : keysParse emptyMap.
Proof. intros k t H. simpl in H. rewrite lookup_empty in H. discriminate. Qed.

Lemma checkinHandler_keysParse c now r :
  keysParse c -> keysParse (after (checkinHandler c now r)).
Proof.
  intros Hc. unfold checkinHandler.
  destruct (parse (pathKey r)) as [[d [|]]|e] eqn:Hp; simpl; try exact Hc.
  destruct c as [|m]; simpl; [exact Hc|].
  intros k t. simpl. rewrite lookup_insert.
  destruct (decide (pathKey r = k)) as [<-|]; [eauto|]. apply Hc.
Qed.

Lemma serve_keysParse authToken route c now :
  keysParse c -> keysParse (after (serve authToken route c now)).
Proof.
  intros Hc. destruct route as [r|r|visit r]; simpl.
  - unfold authMiddleware.
    destruct (if String.eqb (authorization r) "" then _ else _) as [token ok].
    destruct (negb ok); [exact Hc|]. destruct (negb _); [exact Hc|].
    apply checkinHandler_keysParse, Hc.
  - unfold statusHandler. destruct (parse (pathKey r)) as [[d [|]]|e]; exact Hc.
  - unfold listHandler. destruct (listLines _ _ _); exact Hc.
Qed.

Lemma run_keysParse authToken trace c :
  keysParse c -> keysParse (run authToken trace c).
Proof.
  revert c. induction trace as [|[route now] trace IH]; intros c Hc; simpl; [exact Hc|].
  apply IH, serve_keysParse, Hc.
Qed.

Lemma listLines_keysParse c visit now w :
  keysParse c ->
  (forall k t, (k, t) ∈ visit -> entries c !! k = Some t) ->
  exists w', listLines visit now w = Ret w'.
Proof.
  intros Hc. revert w. induction visit as [|[k t] visit IH]; intros w Hv; simpl; [eauto|].
  destruct (Hc k t) as [d Hd]; [apply Hv; left|]. rewrite Hd.
  apply IH. intros k' t' Hin. apply Hv. right. exact Hin.
Qed.

(** C10: from the empty registry, whatever requests are served, every key
    in the registry is one the pattern matches and [parse] accepts; so
    when [listHandler] ranges over the registry, each [parse] returns
    with true, and the listing is written to its end. *)
Theorem registry_keys_parse (authToken : string) (trace : list (Route * time.Time)) :
  let c := run authToken trace emptyMap in
  (forall k t, entries c !! k = Some t ->
     regexp.FindStringSubmatchIndex keyRe k <> None /\
     exists d, parse k = Ret (d, true)) /\
  (forall visit now r,
     visit ≡ₚ map_to_list (entries c) ->
     exists w, reply (listHandler visit c now r) = Ret (mkResponse StatusOK "text/plain" w)).
Proof.
  intros c.
  assert (Hc : keysParse c) by apply run_keysParse, keysParse_empty.
  split.
  - intros k t Hk. destruct (Hc k t Hk) as [d Hd]. split; [|eauto].
    apply find_keyRe_iff. eapply parse_accepts, Hd.
  - intros visit now r Hperm. unfold listHandler.
    destruct (listLines_keysParse c visit now
                ("watchdogd has " +:+ fmt.d (len c) +:+ " keys" +:+ fmt.newline) Hc)
      as [w ->]; [|eauto].
    intros k t Hin. rewrite Hperm in Hin. apply elem_of_map_to_list in Hin. exact Hin.
Qed.

(** ** The constant-time comparison *)

Lemma code_range c : 0 <= code c < 256.
Proof.
  unfold code. pose proof (N_ascii_bounded c). lia.
Qed.

Lemma code_inj a b : code a = code b -> a = b.
Proof.
  unfold code. intros H. apply N2Z.inj in H.
  rewrite <- (ascii_N_embedding a), <- (ascii_N_embedding b), H. reflexivity.
Qed.

Lemma byte_log2 a : 0 <= a -> (a < 256 <-> Z.log2 a < 8).
Proof.
  intros Ha. destruct (Z.eq_dec a 0) as [->|Hne]; [simpl; lia|].
  change 256 with (2 ^ 8). apply Z.log2_lt_pow2. lia.
Qed.

Lemma lor_lxor_byte v a b :
  0 <= v < 256 -> 0 <= a < 256 -> 0 <= b < 256 ->
  0 <= Z.lor v (Z.lxor a b) < 256.
Proof.
  intros Hv Ha Hb.
  assert (Hx : 0 <= Z.lxor a b) by (apply Z.lxor_nonneg; lia).
  split; [apply Z.lor_nonneg; lia|].
  apply byte_log2; [apply Z.lor_nonneg; lia|].
  rewrite Z.log2_lor by lia.
  pose proof (Z.log2_lxor a b ltac:(lia) ltac:(lia)).
  pose proof (proj1 (byte_log2 v ltac:(lia)) ltac:(lia)).
  pose proof (proj1 (byte_log2 a ltac:(lia)) ltac:(lia)).
  pose proof (proj1 (byte_log2 b ltac:(lia)) ltac:(lia)).
  lia.
Qed.

Lemma fold_spec x : forall y v,
  String.length x = String.length y -> 0 <= v < 256 ->
  0 <= subtle.fold x y v < 256 /\ (subtle.fold x y v = 0 <-> v = 0 /\ x = y).
Proof.
  induction x as [|a x IH]; intros [|b y] v Hlen Hv; simpl in *; try discriminate.
  - split; [exact Hv|]. split; [auto|tauto].
  - injection Hlen as Hlen.
    pose proof (lor_lxor_byte v (code a) (code b) Hv (code_range a) (code_range b)) as Hb.
    destruct (IH y _ Hlen Hb) as [Hr Hz]. split; [exact Hr|].
    rewrite Hz. split.
    + intros [Hor ->]. pose proof (Z.lor_eq_0_l _ _ Hor) as ->.
      rewrite Z.lor_0_l in Hor. apply Z.lxor_eq, code_inj in Hor as ->. auto.
    + intros [-> E]. injection E as -> ->.
      rewrite Z.lxor_nilpotent. auto.
Qed.

Lemma ConstantTimeByteEq_zero v :
  0 <= v < 256 ->
  subtle.ConstantTimeByteEq v 0 = if v =? 0 then 1 else 0.
Proof.
  intros Hv. unfold subtle.ConstantTimeByteEq, subtle.u32.
  rewrite Z.lxor_0_r, Z.shiftr_div_pow2 by lia.
  destruct (Z.eqb_spec v 0) as [->|Hne]; [reflexivity|].
  rewrite Z.mod_small by lia. apply Z.div_small. lia.
Qed.

(** [subtle.ConstantTimeCompare] answers 1 on equal texts and 0 on any
    two others. *)
Lemma ConstantTimeCompare_spec x y :
  subtle.ConstantTimeCompare x y = if decide (x = y) then 1 else 0.
Proof.
  unfold subtle.ConstantTimeCompare.
  destruct (Nat.eqb_spec (String.length x) (String.length y)) as [Hlen|Hlen]; simpl.
  - destruct (fold_spec x y 0 Hlen ltac:(lia)) as [Hr Hz].
    rewrite (ConstantTimeByteEq_zero _ Hr).
    destruct (Z.eqb_spec (subtle.fold x y 0) 0) as [E|E]; destruct (decide (x = y)); tauto.
  - destruct (decide (x = y)) as [->|]; [contradiction|reflexivity].
Qed.

Lemma CutPrefix_spec prefix : forall s,
  (forall t, s = prefix +:+ t -> CutPrefix s prefix = (t, true)) /\
  ((forall t, s <> prefix +:+ t) -> CutPrefix s prefix = (s, false)).
Proof.
  induction prefix as [|p prefix IH]; intros s; simpl.
  - split; [intros t ->; reflexivity|]. intros H. destruct (H s). reflexivity.
  - destruct s as [|c s]; [split; [discriminate|reflexivity]|].
    destruct (Ascii.eqb_spec c p) as [->|Hne].
    + destruct (IH s) as [Hyes Hno]. split.
      * intros t E. rewrite str_app_cons in E. injection E as ->.
        rewrite (Hyes t eq_refl). reflexivity.
      * intros H. rewrite Hno; [reflexivity|].
        intros t ->. apply (H t). reflexivity.
    + split; [|reflexivity]. intros t E. rewrite str_app_cons in E. congruence.
Qed.

(** ** Authentication *)

(** [authMiddleware] by the value [Header.Get] returns. *)
Lemma authMiddleware_by_value (authToken : string) (handler : HandlerFunc)
      (checkins : GoMap) (now : time.Time) (r : Request) :
  authToken <> "" ->
  let out := authMiddleware authToken handler checkins now r in
  (authorization r = "" ->
     out = if decide (queryToken r = authToken) then handler checkins now r
           else unauthorized checkins) /\
  (forall t, authorization r = "Bearer " +:+ t ->
     out = if decide (t = authToken) then handler checkins now r
           else unauthorized checkins) /\
  (authorization r <> "" -> (forall t, authorization r <> "Bearer " +:+ t) ->
     out = badHeader checkins) /\
  (authorization r = "" -> queryToken r = "" -> out = unauthorized checkins) /\
  (authorization r = "Bearer " -> out = unauthorized checkins) /\
  badHeader checkins <> unauthorized checkins.
Proof.
  intros Hsecret out. subst out. unfold authMiddleware.
  assert (Hq : authorization r = "" ->
     (let '(token, ok) :=
        if String.eqb (authorization r) "" then (queryToken r, true)
        else CutPrefix (authorization r) "Bearer " in
      if negb ok then badHeader checkins
      else if negb (subtle.ConstantTimeCompare authToken token =? 1)
           then unauthorized checkins else handler checkins now r) =
     if decide (queryToken r = authToken) then handler checkins now r
     else unauthorized checkins).
  { intros ->. simpl. rewrite ConstantTimeCompare_spec.
    destruct (decide (authToken = queryToken r)), (decide (queryToken r = authToken));
      try congruence; reflexivity. }
  assert (Hb : forall t, authorization r = "Bearer " +:+ t ->
     (let '(token, ok) :=
        if String.eqb (authorization r) "" then (queryToken r, true)
        else CutPrefix (authorization r) "Bearer " in
      if negb ok then badHeader checkins
      else if negb (subtle.ConstantTimeCompare authToken token =? 1)
           then unauthorized checkins else handler checkins now r) =
     if decide (t = authToken) then handler checkins now r
     else unauthorized checkins).
  { intros t E. rewrite E.
    rewrite (proj1 (CutPrefix_spec "Bearer " ("Bearer " +:+ t)) t eq_refl).
    change (String.eqb ("Bearer " +:+ t) "") with false. cbn iota.
    simpl negb. cbn iota. rewrite ConstantTimeCompare_spec.
    destruct (decide (authToken = t)), (decide (t = authToken));
      try congruence; reflexivity. }
  split; [exact Hq|]. split; [exact Hb|]. split; [|split; [|split]].
  - intros Hne Hnp. destruct (String.eqb_spec (authorization r) "") as [E|_]; [contradiction|].
    rewrite (proj2 (CutPrefix_spec "Bearer " (authorization r)) Hnp). reflexivity.
  - intros Ha Hempty. fold (unauthorized checkins) (badHeader checkins). rewrite (Hq Ha), Hempty.
    destruct (decide ("" = authToken)); [congruence|reflexivity].
  - intros Ha. fold (unauthorized checkins) (badHeader checkins).
    rewrite (Hb "" Ha). destruct (decide ("" = authToken)); [congruence|reflexivity].
  - discriminate.
Qed.

(** C6, as the specification words it, fails: a request whose
    Authorization header is there with an empty value is not answered
    400; [Header.Get] returns [""] for it as for no header, the query
    parameter is looked at, and with the secret in it the check-in is
    accepted. *)
Lemma empty_header_falls_back_to_query :
  ~ AuthAsSpecified "SECRET" checkinHandler emptyMap (unix 1700000000) "a-1h"
      (Some "") "SECRET".
Proof.
  intros [_ H].
  assert (Hout : authMiddleware "SECRET" checkinHandler emptyMap (unix 1700000000)
                   (received "a-1h" (Some "") "SECRET") = badHeader emptyMap).
  { apply H. intros t E. rewrite str_app_cons in E. discriminate E. }
  apply (f_equal saving) in Hout. vm_compute in Hout. discriminate Hout.
Qed.

(** C6, amended: with a configured secret (never empty: [main] generates
    one when none is given), a request passes [authMiddleware] exactly
    when its credential equals the secret.  The credential is what
    follows [Bearer ] in the Authorization header when the header has a
    value that is not empty, and the [token] query parameter when there
    is no header or its value is empty.  A header whose value is not
    empty and lacks the prefix is answered 400 "Invalid Authorization
    format", which is not the 401 of a wrong credential; a header that
    has the prefix decides alone, the query parameter is not looked at;
    an empty or missing credential is answered 401. *)
Theorem authMiddleware_accepts (authToken : string) (handler : HandlerFunc)
        (checkins : GoMap) (now : time.Time) (key : string) (header : http.Header)
        (token : string) :
  authToken <> "" ->
  let r := received key header token in
  let out := authMiddleware authToken handler checkins now r in
  ((header = None \/ header = Some "") ->
     out = if decide (token = authToken) then handler checkins now r
           else unauthorized checkins) /\
  (forall t, header = Some ("Bearer " +:+ t) ->
     out = if decide (t = authToken) then handler checkins now r
           else unauthorized checkins) /\
  (forall value, header = Some value -> value <> "" ->
     (forall t, value <> "Bearer " +:+ t) ->
     out = badHeader checkins) /\
  ((header = None \/ header = Some "") -> token = "" -> out = unauthorized checkins) /\
  (header = Some "Bearer " -> out = unauthorized checkins) /\
  badHeader checkins <> unauthorized checkins.
Proof.
  intros Hsecret r out.
  destruct (authMiddleware_by_value authToken handler checkins now r Hsecret)
    as (Hq & Hb & Hbad & Hnone & Hempty & Hdiff).
  fold out in Hq, Hb, Hbad, Hnone, Hempty.
  assert (Habsent : header = None \/ header = Some "" -> authorization r = "").
  { intros [->| ->]; reflexivity. }
  split; [|split; [|split; [|split; [|split]]]].
  - intros Hh. apply (Hq (Habsent Hh)).
  - intros t ->. apply (Hb t). reflexivity.
  - intros value -> Hne Hnp. apply Hbad; assumption.
  - intros Hh Ht. apply (Hnone (Habsent Hh)). exact Ht.
  - intros ->. apply Hempty. reflexivity.
  - exact Hdiff.
Qed.

Lemma authMiddleware_accepts_witness :
  authMiddleware "SECRET" checkinHandler emptyMap (unix 0)
    (received "a-1h" (Some "") "SECRET") =
  checkinHandler emptyMap (unix 0) (received "a-1h" (Some "") "SECRET").
Proof.
  pose proof (authMiddleware_accepts "SECRET" checkinHandler emptyMap (unix 0)
                "a-1h" (Some "") "SECRET" ltac:(discriminate)) as H.
  destruct H as (H & _). exact (H (or_intror eq_refl)).
Defined.

(** ** Elapsed time *)

Lemma Add_exact u d :
  wfNsec u ->
  wfNsec (time.Add u d) /\
  time.sec (time.Add u d) * 1000000000 + time.nsec (time.Add u d) =
  time.sec u * 1000000000 + time.nsec u + d.
Proof.
  unfold wfNsec, time.Add. intros Hu.
  pose proof (Z.quot_rem' d 1000000000) as Hqr.
  pose proof (Z.rem_bound_abs d 1000000000 ltac:(lia)) as Hr.
  change (Z.abs 1000000000) with 1000000000 in Hr.
  set (q := Z.quot d 1000000000) in *. set (r := Z.rem d 1000000000) in *.
  clearbody q r.
  destruct (Z.geb_spec (time.nsec u + r) 1000000000);
    [|destruct (Z.ltb_spec (time.nsec u + r) 0)]; simpl; lia.
Qed.

(** [Sub] is the exact difference, cut to the range of a [Duration]. *)
Lemma Sub_clamp t u :
  wfNsec t -> wfNsec u -> time.Sub t u = clamp (nanosBetween t u).
Proof.
  intros Ht Hu. unfold time.Sub. fold (nanosBetween t u).
  set (D := nanosBetween t u).
  destruct (Add_exact u (time.i64 D) Hu) as [Hw Hsum].
  assert (HD : D = time.sec t * 1000000000 + time.nsec t
                   - (time.sec u * 1000000000 + time.nsec u)).
  { unfold D, nanosBetween. change time.Second with 1000000000. lia. }
  unfold wfNsec in *. unfold time.Equal, time.Before, clamp.
  change time.minDuration with (-9223372036854775808).
  change time.maxDuration with 9223372036854775807.
  assert (Hi : -9223372036854775808 <= time.i64 D <= 9223372036854775807).
  { unfold time.i64. change (2 ^ 63) with 9223372036854775808.
    change (2 ^ 64) with 18446744073709551616.
    pose proof (Z.mod_pos_bound (D + 9223372036854775808) 18446744073709551616 ltac:(lia)). lia. }
  assert (Hid : -9223372036854775808 <= D <= 9223372036854775807 -> time.i64 D = D).
  { intros HR. unfold time.i64. change (2 ^ 63) with 9223372036854775808.
    change (2 ^ 64) with 18446744073709551616. rewrite Z.mod_small; lia. }
  destruct (Z.ltb_spec D (-9223372036854775808));
    [|destruct (Z.ltb_spec 9223372036854775807 D)].
  - destruct (Z.eqb_spec (time.sec (time.Add u (time.i64 D))) (time.sec t));
      destruct (Z.eqb_spec (time.nsec (time.Add u (time.i64 D))) (time.nsec t));
      simpl; try lia.
    all: destruct (Z.ltb_spec (time.sec t) (time.sec u)); simpl; try reflexivity.
    all: destruct (Z.eqb_spec (time.sec t) (time.sec u)); simpl; try lia.
    all: destruct (Z.ltb_spec (time.nsec t) (time.nsec u)); simpl; try reflexivity; lia.
  - destruct (Z.eqb_spec (time.sec (time.Add u (time.i64 D))) (time.sec t));
      destruct (Z.eqb_spec (time.nsec (time.Add u (time.i64 D))) (time.nsec t));
      simpl; try lia.
    all: destruct (Z.ltb_spec (time.sec t) (time.sec u)); simpl; try lia.
    all: destruct (Z.eqb_spec (time.sec t) (time.sec u)); simpl; try reflexivity.
    all: destruct (Z.ltb_spec (time.nsec t) (time.nsec u)); simpl; try reflexivity; lia.
  - rewrite Hid in * by lia.
    destruct (Z.eqb_spec (time.sec (time.Add u D)) (time.sec t));
      destruct (Z.eqb_spec (time.nsec (time.Add u D)) (time.nsec t));
      simpl; try reflexivity; lia.
Qed.

(** Against a window below the largest [Duration], as every window of a
    key is, the comparison of [printStatus] is the comparison of the
    exact difference. *)
Lemma Sub_gt_window t u window :
  wfNsec t -> wfNsec u -> time.minDuration <= window < time.maxDuration ->
  (time.Sub t u > window <-> nanosBetween t u > window).
Proof.
  intros Ht Hu Hw. rewrite (Sub_clamp t u Ht Hu). unfold clamp.
  change time.minDuration with (-9223372036854775808) in *.
  change time.maxDuration with 9223372036854775807 in *.
  destruct (Z.ltb_spec (nanosBetween t u) (-9223372036854775808));
    [|destruct (Z.ltb_spec 9223372036854775807 (nanosBetween t u))]; lia.
Qed.

(** The window of a key is at least zero and below the largest
    [Duration]. *)
Lemma parse_window_range key d ok :
  parse key = Ret (d, ok) -> 0 <= d < time.maxDuration.
Proof.
  intros H. change time.maxDuration with 9223372036854775807.
  destruct (regexp.FindStringSubmatchIndex keyRe key) as [m|] eqn:E.
  - apply find_keyRe_sound in E as (l & ds & u & HK & _).
    rewrite (parse_shape _ _ _ _ HK) in H.
    pose proof HK as (_ & _ & _ & _ & Hd & _).
    pose proof (decimal_mono ds 0 Hd ltac:(lia)).
    change time.maxDuration with 9223372036854775807 in H.
    destruct (Z.leb_spec (decimal ds 0 * unitNanos u) 9223372036854775807); [|discriminate].
    injection H as <- _.
    destruct (unitNanos_cases u) as [E|[E|E]]; rewrite E in *; lia.
  - rewrite (parse_no_match _ E) in H. injection H as <- _. lia.
Qed.

(** ** The status verdict *)

Lemma printStatus_evaluate key window lastSeen now :
  printStatus key window lastSeen now =
  statusLine key lastSeen (time.Sub now lastSeen) (evaluate window lastSeen now).
Proof.
  unfold printStatus, evaluate, statusLine.
  destruct (time.IsZero lastSeen); [reflexivity|].
  destruct (time.Sub now lastSeen >? window); reflexivity.
Qed.



(** ** The calendar *)

Lemma isLeap_shift y e : time.isLeap (y + e * 400) = time.isLeap y.
Proof.
  unfold time.isLeap.
  replace ((y + e * 400) mod 4) with (y mod 4) by (Z.div_mod_to_equations; lia).
  replace ((y + e * 400) mod 100) with (y mod 100) by (Z.div_mod_to_equations; lia).
  replace ((y + e * 400) mod 400) with (y mod 400) by (Z.div_mod_to_equations; lia).
  reflexivity.
Qed.

Lemma daysIn_shift month y e : time.daysIn month (y + e * 400) = time.daysIn month y.
Proof. unfold time.daysIn. rewrite isLeap_shift. reflexivity. Qed.

(** Within an era: the year of a day, and its day of the year, which is
    the 366th only in a leap year. *)
Lemma yearOfEra_range doe :
  0 <= doe < 146097 ->
  let yoe := (doe - doe / 1460 + doe / 36524 - doe / 146096) / 365 in
  let doy := doe - (365 * yoe + yoe / 4 - yoe / 100) in
  0 <= yoe < 400 /\ 0 <= doy /\
  (doy <= 364 \/
   (doy = 365 /\ (yoe + 1) mod 4 = 0 /\
    ((yoe + 1) mod 100 <> 0 \/ (yoe + 1) mod 400 = 0))).
Proof. intros Hd yoe doy. subst yoe doy. Z.div_mod_to_equations; lia. Qed.

(** The month, counted from March, of a day of the year. *)
Lemma monthOfYear_range doy :
  0 <= doy < 366 ->
  let mp := (5 * doy + 2) / 153 in
  0 <= mp < 12 /\ (153 * mp + 2) / 5 <= doy < (153 * (mp + 1) + 2) / 5.
Proof. intros Hd mp. subst mp. Z.div_mod_to_equations; lia. Qed.

(** The months from March to January have the length the month
    boundaries give them. *)
Lemma monthLength mp y :
  0 <= mp < 11 ->
  (153 * (mp + 1) + 2) / 5 - (153 * mp + 2) / 5 =
  time.daysIn (if mp <? 10 then mp + 3 else mp - 9) y.
Proof.
  intros Hmp.
  assert (Hcases : mp = 0 \/ mp = 1 \/ mp = 2 \/ mp = 3 \/ mp = 4 \/ mp = 5 \/
                   mp = 6 \/ mp = 7 \/ mp = 8 \/ mp = 9 \/ mp = 10) by lia.
  destruct Hcases as [E|[E|[E|[E|[E|[E|[E|[E|[E|[E|E]]]]]]]]]]; subst mp; reflexivity.
Qed.

(** The date of a day of the era is a date of the calendar, and
    [dayOfEra] leads back from it. *)
Lemma dateOfEra_valid doe :
  0 <= doe < 146097 ->
  let '(yoe, mp, day) := time.dateOfEra doe in
  let month := if mp <? 10 then mp + 3 else mp - 9 in
  0 <= yoe < 400 /\ 0 <= mp < 12 /\
  1 <= day <= time.daysIn month (if month <=? 2 then yoe + 1 else yoe) /\
  time.dayOfEra yoe mp day = doe.
Proof.
  intros Hd. unfold time.dateOfEra.
  pose proof (yearOfEra_range doe Hd) as Hy. cbv zeta in Hy.
  set (yoe := (doe - doe / 1460 + doe / 36524 - doe / 146096) / 365) in *.
  set (doy := doe - (365 * yoe + yoe / 4 - yoe / 100)) in *.
  destruct Hy as (Hyoe & Hdoy0 & Hdoy).
  assert (HL : doy <= 364 \/ (doy = 365 /\ time.isLeap (yoe + 1) = true)).
  { destruct Hdoy as [Hdoy|(Hdoy & H4 & H100)]; [auto|]. right. split; [exact Hdoy|].
    unfold time.isLeap. rewrite H4. simpl.
    destruct H100 as [H100|H400].
    - destruct (Z.eqb_spec ((yoe + 1) mod 100) 0); [contradiction|reflexivity].
    - rewrite H400. apply orb_true_r. }
  pose proof (monthOfYear_range doy ltac:(lia)) as Hm. cbv zeta in Hm.
  set (mp := (5 * doy + 2) / 153) in *.
  destruct Hm as (Hmp & Hstart).
  split; [exact Hyoe|]. split; [exact Hmp|]. split.
  - clearbody mp doy. destruct (Z.eq_dec mp 11) as [->|Hne].
    + change (11 <? 10) with false. cbv iota. change (11 - 9) with 2.
      change (2 <=? 2) with true. cbv iota.
      change ((153 * 11 + 2) / 5) with 337 in *.
      unfold time.daysIn. change (2 =? 2) with true. cbv iota.
      destruct HL as [HL|[HL ->]]; [destruct (time.isLeap (yoe + 1))|]; lia.
    + pose proof (monthLength mp (if (if mp <? 10 then mp + 3 else mp - 9) <=? 2
                                  then yoe + 1 else yoe) ltac:(lia)) as Hlen.
      rewrite <- Hlen. lia.
  - unfold time.dayOfEra. fold doy. subst doy. lia.
Qed.

(** The date of a day count is a date of the calendar, and [daysOfDate]
    leads back from it. *)
Lemma dateOfDays_valid days :
  let '(year, month, day) := time.dateOfDays days in
  1 <= month <= 12 /\ 1 <= day <= time.daysIn month year /\
  time.daysOfDate year month day = days.
Proof.
  unfold time.dateOfDays.
  set (z := days + 306). set (era := z / 146097).
  assert (Hdoe : 0 <= z - era * 146097 < 146097).
  { subst era. pose proof (Z.mod_pos_bound z 146097 ltac:(lia)).
    rewrite Z.mod_eq in H by lia. lia. }
  pose proof (dateOfEra_valid _ Hdoe) as Hv.
  destruct (time.dateOfEra (z - era * 146097)) as [[yoe mp] day].
  cbv zeta in Hv. destruct Hv as (Hyoe & Hmp & Hday & Hback).
  set (month := if mp <? 10 then mp + 3 else mp - 9) in *.
  assert (Hmonth : 1 <= month <= 12 /\
                   (if month <=? 2 then month + 9 else month - 3) = mp).
  { subst month. destruct (Z.ltb_spec mp 10).
    - destruct (Z.leb_spec (mp + 3) 2); lia.
    - destruct (Z.leb_spec (mp - 9) 2); lia. }
  destruct Hmonth as [Hmonth Hmp'].
  split; [exact Hmonth|]. split.
  - destruct (month <=? 2).
    + replace (yoe + era * 400 + 1) with (yoe + 1 + era * 400) by lia.
      rewrite daysIn_shift. exact Hday.
    + rewrite daysIn_shift. exact Hday.
  - unfold time.daysOfDate. rewrite Hmp'.
    replace (if month <=? 2
             then (if month <=? 2 then yoe + era * 400 + 1 else yoe + era * 400) - 1
             else (if month <=? 2 then yoe + era * 400 + 1 else yoe + era * 400))
      with (yoe + era * 400) by (destruct (month <=? 2); lia).
    replace ((yoe + era * 400) / 400) with era by (Z.div_mod_to_equations; lia).
    replace (yoe + era * 400 - era * 400) with yoe by lia.
    rewrite Hback. subst z. lia.
Qed.

(** ** Decimal digits *)

Lemma digitsN_S n u :
  digitsN (S n) u = digitsN n (u / 10) +:+ String (time.digitChar (u mod 10)) "".
Proof. reflexivity. Qed.

Lemma digitChar_digit d :
  0 <= d <= 9 -> isDigit (time.digitChar d) = true /\ digitVal (time.digitChar d) = d.
Proof.
  intros Hd.
  assert (Hcases : d = 0 \/ d = 1 \/ d = 2 \/ d = 3 \/ d = 4 \/ d = 5 \/
                   d = 6 \/ d = 7 \/ d = 8 \/ d = 9) by lia.
  destruct Hcases as [E|[E|[E|[E|[E|[E|[E|[E|[E|E]]]]]]]]]; subst d; split; reflexivity.
Qed.

Lemma digitChar_zero_iff d : 0 <= d <= 9 -> (Ascii.eqb (time.digitChar d) "0" = true <-> d = 0).
Proof.
  intros Hd.
  assert (Hcases : d = 0 \/ d = 1 \/ d = 2 \/ d = 3 \/ d = 4 \/ d = 5 \/
                   d = 6 \/ d = 7 \/ d = 8 \/ d = 9) by lia.
  destruct Hcases as [E|[E|[E|[E|[E|[E|[E|[E|[E|E]]]]]]]]]; subst d;
    (split; [intros H; try reflexivity; discriminate H | intros H; try reflexivity; discriminate H]).
Qed.

Lemma mod10_range u : 0 <= u mod 10 <= 9.
Proof. pose proof (Z.mod_pos_bound u 10 ltac:(lia)). lia. Qed.

Lemma uintOf_app a b x :
  time.uintOf (a +:+ b) x =
  match time.uintOf a x with Some y => time.uintOf b y | None => None end.
Proof.
  revert x. induction a as [|c a IH]; intros x; str; [reflexivity|].
  destruct (isDigit c); [apply IH|reflexivity].
Qed.

Lemma uintOf_digitsN n u x :
  0 <= u < 10 ^ Z.of_nat n ->
  time.uintOf (digitsN n u) x = Some (x * 10 ^ Z.of_nat n + u).
Proof.
  revert u x. induction n as [|n IH]; intros u x Hu.
  - simpl in *. f_equal. lia.
  - rewrite Nat2Z.inj_succ, Z.pow_succ_r in * by lia.
    cbn [digitsN]. rewrite uintOf_app, IH by (Z.div_mod_to_equations; nia).
    cbn [time.uintOf].
    destruct (digitChar_digit (u mod 10) (mod10_range u)) as [-> ->].
    f_equal. Z.div_mod_to_equations; nia.
Qed.

Lemma allb_digitsN n u : allb isDigit (digitsN n u) = true.
Proof.
  revert u. induction n as [|n IH]; intros u; [reflexivity|].
  cbn [digitsN]. rewrite allb_app, IH. cbn [allb].
  destruct (digitChar_digit (u mod 10) (mod10_range u)) as [-> _]. reflexivity.
Qed.

Lemma length_digitsN n u : String.length (digitsN n u) = n.
Proof.
  revert u. induction n as [|n IH]; intros u; [reflexivity|].
  cbn [digitsN]. rewrite str_length_app, IH. simpl. lia.
Qed.

Lemma digitsN_zero n : digitsN n 0 = time.zeros n.
Proof.
  induction n as [|n IH]; [reflexivity|].
  cbn [digitsN time.zeros]. change (0 / 10) with 0. rewrite IH.
  change (time.digitChar (0 mod 10)) with "0"%char.
  clear IH. induction n as [|n IH]; [reflexivity|].
  cbn [time.zeros]. rewrite str_app_cons, IH. reflexivity.
Qed.

Lemma zeros_app a b : time.zeros (a + b) = time.zeros a +:+ time.zeros b.
Proof. induction a as [|a IH]; [reflexivity|]. simpl. rewrite str_app_cons, IH. reflexivity. Qed.

(** [utoa] writes in front of what it is given. *)
Lemma utoa_acc fuel u acc : time.utoa fuel u acc = time.utoa fuel u "" +:+ acc.
Proof.
  revert u acc. induction fuel as [|fuel IH]; intros u acc; cbn [time.utoa].
  - reflexivity.
  - destruct (u <? 10); [reflexivity|].
    rewrite IH, (IH _ (String _ "")), str_app_assoc. reflexivity.
Qed.

Lemma log2_div10 u : 10 <= u -> Z.log2 (u / 10) < Z.log2 u.
Proof.
  intros Hu.
  assert (Hle : Z.log2 (u / 10) <= Z.log2 (u / 2)).
  { apply Z.log2_le_mono. Z.div_mod_to_equations; lia. }
  rewrite <- Z.div2_div, Z.div2_spec, Z.log2_shiftr in Hle by lia.
  assert (1 <= Z.log2 u) by (apply Z.log2_le_pow2; simpl; lia). lia.
Qed.

(** [utoa] with enough fuel, padded with zeros, is the digits of the
    number. *)
Lemma utoa_digitsN n : forall u fuel,
  0 <= u < 10 ^ Z.of_nat (S n) -> Z.log2 u <= Z.of_nat fuel ->
  (String.length (time.utoa fuel u "") <= S n)%nat /\
  time.zeros (S n - String.length (time.utoa fuel u "")) +:+ time.utoa fuel u "" =
  digitsN (S n) u.
Proof.
  induction n as [|n IH]; intros u fuel Hu Hfuel.
  - change (10 ^ Z.of_nat 1) with 10 in Hu.
    assert (E : time.utoa fuel u "" = String (time.digitChar (u mod 10)) "").
    { destruct fuel; cbn [time.utoa]; [reflexivity|].
      destruct (Z.ltb_spec u 10); [reflexivity|lia]. }
    rewrite E. split; [simpl; lia|]. reflexivity.
  - destruct (Z.ltb_spec u 10) as [Hsmall|Hbig].
    + assert (E : time.utoa fuel u "" = String (time.digitChar (u mod 10)) "").
      { destruct fuel; cbn [time.utoa]; [reflexivity|].
        destruct (Z.ltb_spec u 10); [reflexivity|lia]. }
      rewrite E. split; [simpl; lia|].
      cbn [String.length]. replace (S (S n) - 1)%nat with (S n) by lia.
      rewrite (digitsN_S (S n)), (Z.div_small u 10) by lia.
      rewrite digitsN_zero. reflexivity.
    + destruct fuel as [|fuel].
      { exfalso. assert (1 <= Z.log2 u) by (apply Z.log2_le_pow2; simpl; lia). lia. }
      cbn [time.utoa]. destruct (Z.ltb_spec u 10); [lia|].
      rewrite utoa_acc.
      pose proof (log2_div10 u Hbig) as Hlog.
      destruct (IH (u / 10) fuel) as [Hlen Hpad].
      { rewrite Nat2Z.inj_succ, Z.pow_succ_r in Hu by lia. Z.div_mod_to_equations; lia. }
      { lia. }
      rewrite str_length_app. cbn [String.length]. split; [lia|].
      replace (S (S n) - (String.length (time.utoa fuel (u / 10) "") + 1))%nat
        with (S n - String.length (time.utoa fuel (u / 10) ""))%nat by lia.
      rewrite <- str_app_assoc, Hpad. rewrite (digitsN_S (S n)). reflexivity.
Qed.

(** [appendInt] of a number that has at most [width] digits. *)
Lemma appendInt_digitsN u width :
  (3 <= width)%nat -> width <> 4%nat -> 0 <= u < 10 ^ Z.of_nat width ->
  time.appendInt u width = digitsN width u.
Proof.
  intros Hw Hw4 Hu. unfold time.appendInt.
  destruct (Z.ltb_spec u 0); [lia|]. rewrite str_app_nil_l, Z.abs_eq by lia.
  destruct width as [|[|[|width]]]; try lia.
  replace (Nat.eqb (S (S (S width))) 2) with false by reflexivity.
  replace (Nat.eqb (S (S (S width))) 4) with false
    by (symmetry; apply Nat.eqb_neq; lia).
  cbn [andb]. unfold time.itoa.
  apply (utoa_digitsN (S (S width)) u (Z.to_nat (Z.log2 u))); [exact Hu|].
  rewrite Z2Nat.id; [lia|apply Z.log2_nonneg].
Qed.

Lemma appendInt_two n : 0 <= n < 100 -> time.appendInt n 2 = two n.
Proof.
  intros Hn. unfold time.appendInt.
  destruct (Z.ltb_spec n 0); [lia|]. rewrite Z.abs_eq by lia.
  destruct (Z.ltb_spec n 100); [|lia]. reflexivity.
Qed.

Lemma appendInt_four n : 0 <= n < 10000 -> time.appendInt n 4 = four n.
Proof.
  intros Hn. unfold time.appendInt.
  destruct (Z.ltb_spec n 0); [lia|]. rewrite Z.abs_eq by lia.
  destruct (Z.ltb_spec n 10000); [|lia]. reflexivity.
Qed.

Lemma parseUint_two n lo hi :
  0 <= n < 100 -> lo <= n <= hi -> time.parseUint (two n) lo hi = Some n.
Proof.
  intros Hn Hr. unfold time.parseUint, two. cbn [time.uintOf].
  destruct (digitChar_digit (n / 10) ltac:(Z.div_mod_to_equations; lia)) as [-> ->].
  destruct (digitChar_digit (n mod 10) (mod10_range n)) as [-> ->].
  replace (0 * 10 + n / 10) with (n / 10) by lia.
  replace (n / 10 * 10 + n mod 10) with n by (Z.div_mod_to_equations; lia).
  destruct (Z.ltb_spec n lo); [lia|]. destruct (Z.ltb_spec hi n); [lia|]. reflexivity.
Qed.

Lemma parseUint_four n lo hi :
  0 <= n < 10000 -> lo <= n <= hi -> time.parseUint (four n) lo hi = Some n.
Proof.
  intros Hn Hr. unfold time.parseUint, four. cbn [time.uintOf].
  destruct (digitChar_digit (n / 1000) ltac:(Z.div_mod_to_equations; lia)) as [-> ->].
  destruct (digitChar_digit (n / 100 mod 10) (mod10_range _)) as [-> ->].
  destruct (digitChar_digit (n / 10 mod 10) (mod10_range _)) as [-> ->].
  destruct (digitChar_digit (n mod 10) (mod10_range n)) as [-> ->].
  replace (((0 * 10 + n / 1000) * 10 + n / 100 mod 10) * 10 + n / 10 mod 10) with (n / 10)
    by (Z.div_mod_to_equations; lia).
  replace (n / 10 * 10 + n mod 10) with n by (Z.div_mod_to_equations; lia).
  destruct (Z.ltb_spec n lo); [lia|]. destruct (Z.ltb_spec hi n); [lia|]. reflexivity.
Qed.

(** ** The fraction of a second *)

Lemma trimZeros_zeros s : exists k, s = time.trimZeros s +:+ time.zeros k.
Proof.
  induction s as [|c s [k IH]]; [exists 0%nat; reflexivity|].
  cbn [time.trimZeros]. destruct (time.trimZeros s) as [|c' rest] eqn:E.
  - rewrite str_app_nil_l in IH. destruct (Ascii.eqb_spec c "0") as [->|Hne].
    + exists (S k). rewrite IH. reflexivity.
    + exists k. rewrite IH. reflexivity.
  - exists k. rewrite IH at 1. reflexivity.
Qed.

Lemma uintOf_zeros k x : time.uintOf (time.zeros k) x = Some (x * 10 ^ Z.of_nat k).
Proof.
  revert x. induction k as [|k IH]; intros x.
  - simpl. f_equal. lia.
  - cbn [time.zeros time.uintOf]. change (isDigit "0") with true. cbv iota.
    rewrite IH. change (digitVal "0") with 0.
    rewrite Nat2Z.inj_succ, Z.pow_succ_r by lia. f_equal. lia.
Qed.

Lemma length_zeros k : String.length (time.zeros k) = k.
Proof. induction k; simpl; congruence. Qed.

Lemma substring_short s n : (String.length s <= n)%nat -> substring 0 n s = s.
Proof.
  revert n. induction s as [|c s IH]; intros n Hn.
  - destruct n; reflexivity.
  - destruct n; simpl in *; [lia|]. rewrite IH by lia. reflexivity.
Qed.

Lemma spanDigits_app a rest :
  allb isDigit a = true -> startsNonDigit rest -> time.spanDigits (a +:+ rest) = (a, rest).
Proof.
  intros Ha Hrest. induction a as [|c a IH]; str.
  - destruct rest as [|c rest]; [reflexivity|]. simpl in *. rewrite Hrest. reflexivity.
  - apply andb_true_iff in Ha as [Hc Ha]. rewrite Hc, (IH Ha). reflexivity.
Qed.

(** The fraction [appendNano] writes is read back as the nanoseconds. *)
Lemma parseFraction_appendNano ns zone :
  0 <= ns < 1000000000 ->
  startsNonDigit zone ->
  match zone with String c _ => Ascii.eqb c "." = false | EmptyString => True end ->
  time.parseFraction (time.appendNano ns +:+ zone) = (ns, zone).
Proof.
  intros Hns Hzone Hdot. unfold time.appendNano.
  destruct (Z.eqb_spec ns 0) as [->|Hne].
  - rewrite str_app_nil_l. unfold time.parseFraction.
    destruct zone as [|p [|f1 frac]]; try reflexivity.
    rewrite Hdot. reflexivity.
  - rewrite (appendInt_digitsN ns 9) by (try lia; change (10 ^ Z.of_nat 9) with 1000000000; lia).
    destruct (trimZeros_zeros (digitsN 9 ns)) as [k Hk].
    pose proof (uintOf_digitsN 9 ns 0 ltac:(change (10 ^ Z.of_nat 9) with 1000000000; lia)) as Hval.
    pose proof (allb_digitsN 9 ns) as Hall.
    pose proof (length_digitsN 9 ns) as Hlen.
    set (trim := time.trimZeros (digitsN 9 ns)) in *.
    rewrite Hk in Hval, Hall, Hlen.
    rewrite uintOf_app in Hval. rewrite allb_app in Hall.
    apply andb_true_iff in Hall as [Hall _].
    rewrite str_length_app, length_zeros in Hlen.
    destruct (time.uintOf trim 0) as [x|] eqn:Hx; [|discriminate].
    rewrite uintOf_zeros in Hval. injection Hval as Hval.
    destruct trim as [|f1 frac] eqn:Etrim.
    { simpl in Hx. injection Hx as <-. lia. }
    rewrite <- Etrim in *.
    unfold time.parseFraction. rewrite str_app_cons. rewrite Etrim at 1. rewrite str_app_cons.
    change (Ascii.eqb "." ".") with true.
    assert (Hf1 : isDigit f1 = true).
    { rewrite Etrim in Hall. simpl in Hall. apply andb_true_iff in Hall. tauto. }
    rewrite Hf1. cbn [andb].
    change (String f1 (frac +:+ zone)) with (String f1 frac +:+ zone).
    rewrite <- Etrim. rewrite (spanDigits_app trim zone Hall Hzone).
    unfold time.parseNanoseconds.
    rewrite (substring_short trim 9) by lia. rewrite Hx.
    replace (9 - String.length trim)%nat with k by lia.
    rewrite Z.add_0_l in Hval. rewrite Hval. reflexivity.
Qed.

(** ** The zone *)

Lemma parseZone_formatZone offset :
  offset mod 60 = 0 -> - 86400 < offset < 86400 ->
  time.parseZone (time.formatZone offset) = Some offset /\
  startsNonDigit (time.formatZone offset) /\
  match time.formatZone offset with String c _ => Ascii.eqb c "." = false | EmptyString => True end.
Proof.
  intros Hmod Hr. unfold time.formatZone.
  destruct (Z.eqb_spec offset 0) as [->|Hne]; [repeat split|].
  assert (Hq : offset = 60 * Z.quot offset 60).
  { pose proof (Z.quot_rem' offset 60) as H.
    assert (Hrem : Z.rem offset 60 = 0) by (apply Z.rem_mod_eq_0; [lia|exact Hmod]).
    rewrite Hrem in H. lia. }
  set (zone := Z.quot offset 60) in *.
  assert (Hz : 0 < Z.abs zone < 1440) by lia.
  rewrite !appendInt_two by (Z.div_mod_to_equations; lia).
  assert (Hh := parseUint_two (Z.abs zone / 60) 0 23
                  ltac:(Z.div_mod_to_equations; lia) ltac:(Z.div_mod_to_equations; lia)).
  assert (Hm := parseUint_two (Z.abs zone mod 60) 0 59
                  ltac:(Z.div_mod_to_equations; lia) ltac:(Z.div_mod_to_equations; lia)).
  unfold two in *.
  destruct (Z.ltb_spec zone 0); rewrite !str_app_cons, !str_app_nil_l; cbn [time.parseZone];
    rewrite Hh, Hm; cbn; (split; [|split; reflexivity]); f_equal;
    Z.div_mod_to_equations; lia.
Qed.

(** ** Times in RFC 3339 *)

Lemma parseRFC3339_fields year month day hour min s ns zoff tail :
  0 <= year <= 9999 -> 1 <= month <= 12 -> 1 <= day <= time.daysIn month year ->
  0 <= hour <= 23 -> 0 <= min <= 59 -> 0 <= s <= 59 ->
  (exists zone, time.parseFraction tail = (ns, zone) /\ time.parseZone zone = Some zoff) ->
  time.parseRFC3339
    (four year +:+ "-" +:+ two month +:+ "-" +:+ two day +:+ "T" +:+
     two hour +:+ ":" +:+ two min +:+ ":" +:+ two s +:+ tail) =
  Some (time.mkTime (time.daysOfDate year month day * 86400
                     + hour * 3600 + min * 60 + s - zoff) ns zoff).
Proof.
  intros Hy Hmo Hd Hh Hmi Hs (zone & Hfrac & Hzone).
  assert (Hd31 : day <= 31).
  { unfold time.daysIn in Hd.
    destruct (month =? 2); [destruct (time.isLeap year)|destruct (_ || _)]; lia. }
  pose proof (parseUint_four year 0 9999 ltac:(lia) ltac:(lia)) as Py.
  pose proof (parseUint_two month 1 12 ltac:(lia) ltac:(lia)) as Pmo.
  pose proof (parseUint_two day 1 (time.daysIn month year) ltac:(lia) ltac:(lia)) as Pd.
  pose proof (parseUint_two hour 0 23 ltac:(lia) ltac:(lia)) as Ph.
  pose proof (parseUint_two min 0 59 ltac:(lia) ltac:(lia)) as Pmi.
  pose proof (parseUint_two s 0 59 ltac:(lia) ltac:(lia)) as Ps.
  unfold four, two in *. rewrite !str_app_cons, !str_app_nil_l.
  unfold time.parseRFC3339.
  rewrite Py, Pmo, Pd, Ph, Pmi, Ps.
  change (Ascii.eqb "-" "-") with true. change (Ascii.eqb "T" "T") with true.
  change (Ascii.eqb ":" ":") with true. cbn [andb].
  rewrite Hfrac, Hzone. reflexivity.
Qed.

Lemma Clock_range t :
  let '(hour, min, s) := time.Clock t in
  0 <= hour <= 23 /\ 0 <= min <= 59 /\ 0 <= s <= 59 /\
  hour * 3600 + min * 60 + s = time.abs t mod 86400.
Proof. unfold time.Clock. Z.div_mod_to_equations; lia. Qed.

(** A canonical time written by [appendFormatRFC3339] with its
    nanoseconds is read back by [parseRFC3339] as it was. *)
Lemma parseRFC3339_format t :
  canonical t -> time.parseRFC3339 (time.appendFormatRFC3339 t true) = Some t.
Proof.
  intros (Hns & Hyear & Hzmod & Hzr).
  unfold time.appendFormatRFC3339, time.Year, time.Date in *.
  pose proof (dateOfDays_valid (time.abs t / 86400)) as Hdate.
  destruct (time.dateOfDays (time.abs t / 86400)) as [[year month] day].
  simpl in Hyear. destruct Hdate as (Hmonth & Hday & Hback).
  pose proof (Clock_range t) as Hclock.
  destruct (time.Clock t) as [[hour min] s].
  destruct Hclock as (Hh & Hmi & Hs & Hsum).
  assert (Hd31 : day <= 31).
  { unfold time.daysIn in Hday.
    destruct (month =? 2); [destruct (time.isLeap year)|destruct (_ || _)]; lia. }
  rewrite appendInt_four by lia. rewrite !appendInt_two by lia.
  destruct (parseZone_formatZone (time.offset t) Hzmod Hzr) as (Hz & Hnd & Hdot).
  assert (Htail : exists zone,
             time.parseFraction (time.appendNano (time.nsec t)
                                 +:+ time.formatZone (time.offset t)) =
               (time.nsec t, zone) /\
             time.parseZone zone = Some (time.offset t)).
  { exists (time.formatZone (time.offset t)). split;
      [apply parseFraction_appendNano; assumption|exact Hz]. }
  rewrite (parseRFC3339_fields year month day hour min s (time.nsec t) (time.offset t) _
             ltac:(lia) ltac:(lia) ltac:(lia) ltac:(lia) ltac:(lia) ltac:(lia) Htail).
  destruct t as [sec nsec offset]. unfold time.abs in *. simpl in *.
  f_equal. f_equal. rewrite Hback. Z.div_mod_to_equations; lia.
Qed.

(** The strict form of [appendFormatRFC3339] accepts canonical times. *)
Lemma appendStrictRFC3339_canonical t :
  canonical t -> time.appendStrictRFC3339 t = Ok (time.appendFormatRFC3339 t true).
Proof.
  intros (Hns & Hyear & Hzmod & Hzr). unfold time.appendStrictRFC3339.
  destruct (Z.ltb_spec (time.Year t) 0); [lia|].
  destruct (Z.ltb_spec 9999 (time.Year t)); [lia|]. cbn [orb].
  destruct (Z.leb_spec 24 (Z.abs (Z.quot (time.offset t) 60) / 60)) as [Hbig|_].
  - exfalso. pose proof (Z.quot_rem' (time.offset t) 60) as Hqr.
    assert (Hrem : Z.rem (time.offset t) 60 = 0) by (apply Z.rem_mod_eq_0; [lia|exact Hzmod]).
    rewrite Hrem in Hqr.
    set (q := Z.quot (time.offset t) 60) in *. clearbody q.
    Z.div_mod_to_equations; lia.
  - rewrite andb_false_r. reflexivity.
Qed.

(** ** One line *)

Lemma plain_digitChar d : 0 <= d <= 9 -> plain (time.digitChar d) = true.
Proof.
  intros Hd.
  assert (Hcases : d = 0 \/ d = 1 \/ d = 2 \/ d = 3 \/ d = 4 \/ d = 5 \/
                   d = 6 \/ d = 7 \/ d = 8 \/ d = 9) by lia.
  destruct Hcases as [E|[E|[E|[E|[E|[E|[E|[E|[E|E]]]]]]]]]; subst d; reflexivity.
Qed.

Lemma plain_labelClass c : labelClass c = true -> plain c = true.
Proof.
  unfold plain. intros H.
  destruct (Ascii.eqb_spec c lineFeed) as [->|]; [discriminate H|reflexivity].
Qed.

Lemma plain_unitClass c : unitClass c = true -> plain c = true.
Proof.
  unfold plain. intros H.
  destruct (Ascii.eqb_spec c lineFeed) as [->|]; [discriminate H|reflexivity].
Qed.

Lemma plain_utoa fuel : forall u acc,
  allb plain acc = true -> allb plain (time.utoa fuel u acc) = true.
Proof.
  induction fuel as [|fuel IH]; intros u acc Hacc; cbn [time.utoa].
  - cbn [allb]. rewrite (plain_digitChar _ (mod10_range u)), Hacc. reflexivity.
  - destruct (u <? 10).
    + cbn [allb]. rewrite (plain_digitChar _ (mod10_range u)), Hacc. reflexivity.
    + apply IH. cbn [allb]. rewrite (plain_digitChar _ (mod10_range u)), Hacc. reflexivity.
Qed.

Lemma plain_itoa u : allb plain (time.itoa u) = true.
Proof. apply plain_utoa. reflexivity. Qed.

Lemma plain_zeros n : allb plain (time.zeros n) = true.
Proof. induction n; [reflexivity|exact IHn]. Qed.

Lemma plain_appendInt x width : allb plain (time.appendInt x width) = true.
Proof.
  unfold time.appendInt. rewrite allb_app.
  assert (Hsign : allb plain (if x <? 0 then "-" else "") = true)
    by (destruct (x <? 0); reflexivity).
  rewrite Hsign. cbn [andb].
  pose proof (Z.abs_nonneg x) as Habs. set (u := Z.abs x) in *. clearbody u.
  destruct (Nat.eqb width 2 && (u <? 100)) eqn:E2.
  - apply andb_true_iff in E2 as [_ Hu]. apply Z.ltb_lt in Hu. cbn [allb].
    rewrite (plain_digitChar (u / 10)) by (Z.div_mod_to_equations; lia).
    rewrite (plain_digitChar _ (mod10_range u)). reflexivity.
  - destruct (Nat.eqb width 4 && (u <? 10000)) eqn:E4.
    + apply andb_true_iff in E4 as [_ Hu]. apply Z.ltb_lt in Hu. cbn [allb].
      rewrite (plain_digitChar (u / 1000)) by (Z.div_mod_to_equations; lia).
      rewrite !(plain_digitChar _ (mod10_range _)). reflexivity.
    + rewrite allb_app, plain_zeros, plain_itoa. reflexivity.
Qed.

Lemma plain_FormatRFC3339 t : allb plain (time.FormatRFC3339 t) = true.
Proof.
  unfold time.FormatRFC3339, time.appendFormatRFC3339, time.formatZone.
  destruct (time.Date t) as [[year month] day]. destruct (time.Clock t) as [[hour min] s].
  rewrite !allb_app, !plain_appendInt. cbn [allb andb].
  destruct (time.offset t =? 0); [reflexivity|].
  rewrite !allb_app, !plain_appendInt.
  destruct (Z.quot (time.offset t) 60 <? 0); reflexivity.
Qed.

Lemma plain_f0 x : allb plain (fmt.f0 x) = true.
Proof.
  unfold fmt.f0. destruct (Prim2SF x) as [s|s| |s m e]; try (destruct s; reflexivity).
  - reflexivity.
  - rewrite allb_app, plain_itoa. destruct s; reflexivity.
Qed.

Lemma plain_key key d : parse key = Ret (d, true) -> allb plain key = true.
Proof.
  intros H. apply parse_accepts in H as (l & ds & u & -> & _ & Hl & _ & Hd & Hu).
  rewrite !allb_app. cbn [allb].
  rewrite (allb_impl _ _ _ plain_labelClass Hl).
  rewrite (allb_impl _ _ _ plain_labelClass (allb_impl _ _ _ digit_labelClass Hd)).
  rewrite (plain_unitClass _ Hu). reflexivity.
Qed.

(** The status of a key that [parse] accepts is written on one line. *)
Lemma printStatus_oneLine key window lastSeen now :
  parse key = Ret (window, true) -> oneLine (printStatus key window lastSeen now).
Proof.
  intros Hp. pose proof (plain_key _ _ Hp) as Hk. unfold printStatus, oneLine.
  destruct (time.IsZero lastSeen).
  - exists (key +:+ " NEVER ALARM"). split; [symmetry; apply str_app_assoc|].
    rewrite allb_app, Hk. reflexivity.
  - eexists. split.
    + rewrite <- !str_app_assoc. reflexivity.
    + rewrite !allb_app, Hk, plain_FormatRFC3339, !plain_f0.
      destruct (time.Sub now lastSeen >? window); reflexivity.
Qed.

(** ** Lookup *)

Lemma zeroRegistry_loaded ParseLayout onRefusal :
  load ParseLayout onRefusal zeroFile emptyMap = Continue (zeroRegistry, []).
Proof. reflexivity. Qed.

(** C5, as the specification words it, fails: the reading of an absent
    key is the zero time, which is a time a key can be recorded at. *)
Lemma lookup_confuses_zero_time : ~ LookupAsSpecified zeroRegistry "a-1h".
Proof.
  intros [_ H]. destruct (H time.zeroTime) as [_ Hne].
  - reflexivity.
  - apply Hne. reflexivity.
Qed.

(** The status of a key recorded at the zero time reads as that of a key
    never seen. *)
Lemma zero_time_reads_never now :
  reply (statusHandler zeroRegistry now (mkRequest "a-1h" "" "")) =
  reply (statusHandler emptyMap now (mkRequest "a-1h" "" "")).
Proof. reflexivity. Qed.

(** C5, amended: lookup returns the time recorded for the key, and Go's
    zero time (January 1 of year 1, 00:00:00 UTC) when the key has never
    checked in.  The reading is taken for "never checked in" exactly when
    the key is absent or recorded at the zero instant; the zero instant
    is one instant only, it is not the Unix epoch, and a check-in made at
    any other instant is never taken for absent. *)
Theorem lookup_zero_time (c : GoMap) (key : string) :
  (entries c !! key = None -> index c key = time.zeroTime) /\
  (forall t, entries c !! key = Some t -> index c key = t) /\
  (time.IsZero (index c key) = true <->
   entries c !! key = None \/
   exists t, entries c !! key = Some t /\ time.IsZero t = true) /\
  (forall t, time.IsZero t = true <-> time.sec t = 0 /\ time.nsec t = 0) /\
  time.IsZero (unix 0) = false /\
  (forall now, time.IsZero (time.UTC now) = time.IsZero now).
Proof.
  unfold index. repeat split.
  - intros ->. reflexivity.
  - intros t ->. reflexivity.
  - destruct (entries c !! key) as [t|]; simpl; [|auto]. intros H. right. eauto.
  - intros [->|(t & -> & H)]; [reflexivity|exact H].
  - unfold time.IsZero in H. apply andb_true_iff in H as [H _]. lia.
  - unfold time.IsZero in H. apply andb_true_iff in H as [_ H]. lia.
  - intros [H1 H2]. unfold time.IsZero. rewrite H1, H2. reflexivity.
Qed.

(** ** The status line *)

(** Ninety seconds after a check-in, the line shows 0h 2m 90s. *)
Lemma status_line_after_90s :
  printStatus "a-2h" (2 * time.Hour) (unix 1700000000) (unix 1700000090) =
  "a-2h 2023-11-14T22:13:20Z 0h 2m 90s OKAY" +:+ fmt.newline /\
  LineAsSpecified "a-2h" (unix 1700000000) (90 * time.Second) "OKAY" =
  "a-2h 2023-11-14T22:13:20Z 0h 1m 30s OKAY" +:+ fmt.newline.
Proof. split; vm_compute; reflexivity. Qed.

(** C3, as the specification words it, fails: the three numbers of the
    line are not the hours, minutes and seconds the time elapsed breaks
    into. *)
Lemma status_line_not_components :
  ~ StatusOutputAsSpecified "a-2h" (2 * time.Hour) (unix 1700000000) (unix 1700000090).
Proof.
  unfold StatusOutputAsSpecified. change (time.IsZero (unix 1700000000)) with false.
  cbv iota. intros (verdict & [-> | ->] & H); vm_compute in H; discriminate H.
Qed.

(** C3, amended: for a key that [parse] accepts, the status query answers
    one line.  When the key has a last check-in, the line is the key, the
    check-in time in RFC 3339, three numbers and the verdict OKAY or
    ALARM; each number is the whole time elapsed, the first in hours,
    the second in minutes, the third in seconds, rounded to an integer
    (they are not components that add up).  When the key has none, the
    line is exactly the key followed by NEVER ALARM. *)
Theorem status_line_format (key : string) (window : time.Duration)
        (checkins : GoMap) (now : time.Time) (header token : string) :
  parse key = Ret (window, true) ->
  let lastSeen := index checkins key in
  let elapsed := time.Sub now lastSeen in
  exists line,
    reply (statusHandler checkins now (mkRequest key header token)) =
      Ret (mkResponse StatusOK "text/plain" line) /\
    oneLine line /\
    (time.IsZero lastSeen = true -> line = key +:+ " NEVER ALARM" +:+ fmt.newline) /\
    (time.IsZero lastSeen = false ->
     exists verdict,
       (verdict = "OKAY" \/ verdict = "ALARM") /\
       (verdict = "ALARM" <-> elapsed > window) /\
       line = key +:+ " " +:+ time.FormatRFC3339 lastSeen +:+ " " +:+
              fmt.f0 (time.Hours elapsed) +:+ "h " +:+
              fmt.f0 (time.Minutes elapsed) +:+ "m " +:+
              fmt.f0 (time.Seconds elapsed) +:+ "s " +:+ verdict +:+ fmt.newline).
Proof.
  intros Hp lastSeen elapsed. unfold statusHandler. simpl pathKey. rewrite Hp.
  eexists. split; [reflexivity|]. fold lastSeen.
  split; [apply printStatus_oneLine, Hp|].
  unfold printStatus. fold elapsed.
  destruct (time.IsZero lastSeen); split; try discriminate; try reflexivity.
  intros _. destruct (Z.gtb_spec elapsed window).
  - exists "ALARM". split; [auto|]. split; [|reflexivity].
    split; [intros _; lia|reflexivity].
  - exists "OKAY". split; [auto|]. split; [|reflexivity].
    split; [discriminate|lia].
Qed.

Lemma status_line_format_witness :
  parse "a-2h" = Ret (2 * time.Hour, true) /\
  exists line,
    reply (statusHandler (goMap {[ "a-2h" := unix 1700000000 ]}) (unix 1700005400)
             (mkRequest "a-2h" "" "")) =
      Ret (mkResponse StatusOK "text/plain" line).
Proof.
  split; [reflexivity|].
  destruct (status_line_format "a-2h" (2 * time.Hour)
              (goMap {[ "a-2h" := unix 1700000000 ]}) (unix 1700005400) "" "" eq_refl)
    as (line & Hr & _).
  exists line. exact Hr.
Defined.

(** ** Loading *)

(** Without a file, [load] leaves the registry as it is, logs that it
    starts empty and goes on. *)
Lemma load_no_file ParseLayout onRefusal write checkins :
  load ParseLayout onRefusal (mkDisk NoFile write) checkins = Continue (checkins, [logNoFile]).
Proof. reflexivity. Qed.

(** Any other failure to read the file ends the process. *)
Lemma load_unreadable ParseLayout onRefusal err write checkins :
  load ParseLayout onRefusal (mkDisk (Unreadable err) write) checkins =
  Fatal ("error loading watchdogd database: " +:+ err).
Proof. reflexivity. Qed.

(** A text that is not JSON, or JSON that is not an object, leaves the
    registry as it is; [load] logs the corruption and goes on. *)
Lemma load_malformed ParseLayout onRefusal write checkins :
  load ParseLayout onRefusal (mkDisk (Data json.Malformed) write) checkins =
  Continue (checkins, [logCorrupted]).
Proof. reflexivity. Qed.

(** C4: on [corruptFile], [load] logs "corrupted watchdogd database file,
    starting with an empty database." and goes on, with the first member
    of the file in the registry.  This holds whatever the decoder does
    with the member it refuses: when it stops there, the registry is the
    first member alone; when it goes on, the refused member is in the
    registry too, at the zero time. *)
Theorem load_keeps_members_of_corrupt_file (ParseLayout : string -> result error time.Time)
        (onRefusal : json.OnRefusal) :
  let c := goMap (match onRefusal with
                  | json.StopAtRefusal => {[ "a-1h" := unix 1700000000 ]}
                  | json.ZeroAndGoOn =>
                      <[ "b-1h" := time.zeroTime ]> {[ "a-1h" := unix 1700000000 ]}
                  end) in
  load ParseLayout onRefusal corruptFile emptyMap = Continue (c, [logCorrupted]) /\
  entries c !! "a-1h" = Some (unix 1700000000) /\
  c <> emptyMap.
Proof.
  destruct onRefusal; cbv zeta; (split; [reflexivity|]); (split; [reflexivity|]);
    intros H; apply (f_equal (fun c => entries c !! "a-1h")) in H; discriminate H.
Qed.

(** The status of [a-1h] is then served from the corrupt file. *)
Lemma corrupt_file_is_served :
  reply (statusHandler (goMap {[ "a-1h" := unix 1700000000 ]}) (unix 1700000060)
           (mkRequest "a-1h" "" "")) =
  Ret (mkResponse StatusOK "text/plain"
         ("a-1h 2023-11-14T22:13:20Z 0h 1m 60s OKAY" +:+ fmt.newline)).
Proof. vm_compute. reflexivity. Qed.

(** ** Saving and loading *)

Lemma marshalMembers_canonical kvs :
  (forall k t, (k, t) ∈ kvs -> canonical t) ->
  json.marshalMembers kvs = Ok (written <$> kvs).
Proof.
  induction kvs as [|[k t] kvs IH]; intros Hc; [reflexivity|].
  cbn [json.marshalMembers]. unfold json.marshalTime.
  rewrite (appendStrictRFC3339_canonical t) by (apply (Hc k); left).
  rewrite IH by (intros k' t' Hin; apply (Hc k'); right; exact Hin).
  reflexivity.
Qed.

Lemma object_written ParseLayout onRefusal kvs : forall m,
  (forall k t, (k, t) ∈ kvs -> canonical t) ->
  json.object ParseLayout onRefusal (written <$> kvs) m =
  (foldl (fun m kv => <[fst kv := snd kv]> m) m kvs, None).
Proof.
  induction kvs as [|[k t] kvs IH]; intros m Hc; [reflexivity|].
  cbn [fmap list_fmap json.object written fst snd].
  unfold json.unmarshalTime, time.parseStrictRFC3339.
  rewrite (parseRFC3339_format t) by (apply (Hc k); left).
  rewrite (IH (<[k:=t]> m)) by (intros k' t' Hin; apply (Hc k'); right; exact Hin).
  reflexivity.
Qed.

Lemma foldl_insert_union (kvs : list (string * time.Time)) : forall m : gmap string time.Time,
  NoDup kvs.*1 ->
  foldl (fun m kv => <[fst kv := snd kv]> m) m kvs = list_to_map kvs ∪ m.
Proof.
  induction kvs as [|[k t] kvs IH]; intros m Hnd.
  - simpl. rewrite (left_id_L ∅ (∪)). reflexivity.
  - rewrite fmap_cons in Hnd. apply NoDup_cons in Hnd as [Hk Hnd].
    cbn [foldl list_to_map foldr fst snd]. rewrite IH by exact Hnd.
    change (list_to_map ((k, t) :: kvs)) with (<[k:=t]> (list_to_map kvs : gmap string time.Time)).
    rewrite <- insert_union_l. symmetry. apply insert_union_r.
    apply not_elem_of_list_to_map_1. exact Hk.
Qed.

Lemma foldl_insert_sorted (m : gmap string time.Time) :
  foldl (fun m kv => <[fst kv := snd kv]> m) ∅ (merge_sort json.keyLe (map_to_list m)) = m.
Proof.
  pose proof (merge_sort_Permutation json.keyLe (map_to_list m)) as Hperm.
  assert (Hnd : NoDup (merge_sort json.keyLe (map_to_list m)).*1).
  { rewrite Hperm. apply NoDup_fst_map_to_list. }
  rewrite foldl_insert_union by exact Hnd.
  rewrite (right_id_L ∅ (∪)).
  rewrite (list_to_map_proper _ (map_to_list m) Hnd Hperm).
  apply list_to_map_to_list.
Qed.

Lemma UTC_canonical now : clockOK now -> canonical (time.UTC now).
Proof. intros [Hns Hy]. unfold canonical. simpl. repeat split; try apply Hns; try apply Hy; lia. Qed.

Lemma checkinHandler_canonical c now r :
  clockOK now -> allCanonical c -> allCanonical (after (checkinHandler c now r)).
Proof.
  intros Hnow Hc. unfold checkinHandler.
  destruct (parse (pathKey r)) as [[d [|]]|e]; simpl; try exact Hc.
  destruct c as [|m]; simpl; [exact Hc|].
  intros k t. simpl. rewrite lookup_insert.
  destruct (decide (pathKey r = k)) as [<-|]; [|apply Hc].
  intros [= <-]. apply UTC_canonical, Hnow.
Qed.

Lemma serve_canonical authToken route c now :
  clockOK now -> allCanonical c -> allCanonical (after (serve authToken route c now)).
Proof.
  intros Hnow Hc. destruct route as [r|r|visit r]; simpl.
  - unfold authMiddleware.
    destruct (if String.eqb (authorization r) "" then _ else _) as [token ok].
    destruct (negb ok); [exact Hc|]. destruct (negb _); [exact Hc|].
    apply checkinHandler_canonical; assumption.
  - unfold statusHandler. destruct (parse (pathKey r)) as [[d [|]]|e]; exact Hc.
  - unfold listHandler. destruct (listLines _ _ _); exact Hc.
Qed.

Lemma run_canonical authToken trace : forall c,
  Forall (fun rn => clockOK (snd rn)) trace ->
  allCanonical c -> allCanonical (run authToken trace c).
Proof.
  induction trace as [|[route now] trace IH]; intros c Hclock Hc; simpl; [exact Hc|].
  apply Forall_cons in Hclock as [Hnow Hclock].
  apply IH; [exact Hclock|]. apply serve_canonical; assumption.
Qed.



(** ** Startup *)





(** ** Further properties *)

(** A check-in under a key that [parse] accepts records the clock
    reading, in UTC, over whatever was recorded before, answers 204 and
    starts [save]; the next lookup returns that reading, and the other
    keys are as they were. *)
Theorem checkin_records (m : gmap string time.Time) (now : time.Time) (r : Request)
        (window : time.Duration) :
  parse (pathKey r) = Ret (window, true) ->
  let out := checkinHandler (goMap m) now r in
  out = mkOutcome (goMap (<[pathKey r := time.UTC now]> m))
                  (Ret (mkResponse StatusNoContent "" "")) true /\
  index (after out) (pathKey r) = time.UTC now /\
  (forall key, key <> pathKey r -> index (after out) key = index (goMap m) key).
Proof.
  intros Hp out. subst out. unfold checkinHandler. rewrite Hp. simpl.
  split; [reflexivity|]. unfold index. simpl. split.
  - rewrite lookup_insert_eq. reflexivity.
  - intros key Hne. rewrite lookup_insert_ne by congruence. reflexivity.
Qed.

Lemma checkin_records_witness :
  index (after (checkinHandler (goMap ∅) (unix 1700000000) (mkRequest "backup-24h" "" "")))
        "backup-24h" = unix 1700000000.
Proof.
  destruct (checkin_records ∅ (unix 1700000000) (mkRequest "backup-24h" "" "")
              (24 * time.Hour) eq_refl) as (_ & H & _).
  exact H.
Defined.

(** The scenarios of the specification: [backup-24h] checked in at T0 is
    OKAY 23 hours later and in ALARM 25 hours later; a key never checked
    in reads NEVER; a key without suffix is refused and changes nothing. *)
Theorem scenarios :
  let t0 := 1700000000 in
  let registry := after (serve "SECRET"
                           (PostKey (mkRequest "backup-24h" "Bearer SECRET" ""))
                           emptyMap (unix t0)) in
  reply (statusHandler registry (unix (t0 + 23 * 3600)) (mkRequest "backup-24h" "" "")) =
    Ret (mkResponse StatusOK "text/plain"
           ("backup-24h 2023-11-14T22:13:20Z 23h 1380m 82800s OKAY" +:+ fmt.newline)) /\
  reply (statusHandler registry (unix (t0 + 25 * 3600)) (mkRequest "backup-24h" "" "")) =
    Ret (mkResponse StatusOK "text/plain"
           ("backup-24h 2023-11-14T22:13:20Z 25h 1500m 90000s ALARM" +:+ fmt.newline)) /\
  reply (statusHandler registry (unix t0) (mkRequest "neverseen-1h" "" "")) =
    Ret (mkResponse StatusOK "text/plain" ("neverseen-1h NEVER ALARM" +:+ fmt.newline)) /\
  serve "SECRET" (PostKey (mkRequest "x" "Bearer SECRET" "")) registry (unix t0) =
    mkOutcome registry (Ret (httpError "Invalid key" StatusBadRequest)) false.
Proof. repeat split; vm_compute; reflexivity. Qed.

(** The JSON form of a canonical time is read back as the same time. *)
Theorem time_json_round_trip (ParseLayout : string -> result error time.Time)
        (onRefusal : json.OnRefusal)
        (t : time.Time) :
  canonical t ->
  exists v, json.marshalTime t = Ok v /\ json.unmarshalTime ParseLayout v = Ok t.
Proof.
  intros Hc. unfold json.marshalTime. rewrite (appendStrictRFC3339_canonical t Hc).
  eexists. split; [reflexivity|].
  unfold json.unmarshalTime, time.parseStrictRFC3339.
  rewrite (parseRFC3339_format t Hc). reflexivity.
Qed.

Lemma time_json_round_trip_witness :
  exists v,
    json.marshalTime (time.mkTime 63835596800 120000000 3600) = Ok v /\
    json.unmarshalTime (fun s => Err (errTimeParse s)) v =
      Ok (time.mkTime 63835596800 120000000 3600).
Proof.
  apply (time_json_round_trip (fun s => Err (errTimeParse s)) json.StopAtRefusal
           (time.mkTime 63835596800 120000000 3600)).
  unfold canonical. vm_compute. repeat split; congruence.
Defined.

(** * Further properties of the program

    ** The key codec *)

(** [parse] panics exactly on the keys of the pattern whose number,
    scaled by the unit, does not fit a [Duration]. *)
Theorem parse_panics_exactly (s : string) :
  (exists e, parse s = Panic e) <->
  exists label digits u, KeyShape label digits u s /\
    time.maxDuration < decimal digits 0 * unitNanos u.
Proof. apply parse_panics_iff. Qed.

Lemma unitNanos_second u : unitNanos u mod time.Second = 0.
Proof. destruct (unitNanos_cases u) as [E|[E|E]]; rewrite E; reflexivity. Qed.

(** The window [parse] returns is never negative, is below the largest
    [Duration] and is a whole number of seconds. *)
Theorem parse_window_whole_seconds (key : string) (d : time.Duration) (ok : bool) :
  parse key = Ret (d, ok) ->
  0 <= d < time.maxDuration /\ d mod time.Second = 0 /\ (ok = false -> d = 0).
Proof.
  intros H. split; [eapply parse_window_range, H|].
  destruct (regexp.FindStringSubmatchIndex keyRe key) as [m|] eqn:E.
  - apply find_keyRe_sound in E as (l & ds & u & HK & _).
    rewrite (parse_shape _ _ _ _ HK) in H.
    destruct (_ <=? _); [|discriminate]. injection H as <- <-.
    split; [|discriminate].
    rewrite <- Z.mul_mod_idemp_r by discriminate.
    rewrite unitNanos_second, Z.mul_0_r. reflexivity.
  - rewrite (parse_no_match _ E) in H. injection H as <- <-. split; reflexivity.
Qed.

Lemma parse_window_whole_seconds_witness :
  0 <= 90 * time.Minute < time.maxDuration /\ (90 * time.Minute) mod time.Second = 0 /\
  (true = false -> 90 * time.Minute = 0).
Proof. apply (parse_window_whole_seconds "db-90m" (90 * time.Minute) true). reflexivity. Defined.

Lemma unit_labelClass c : unitClass c = true -> labelClass c = true.
Proof.
  intros H. destruct (unitClass_cases c H) as [E|[E|E]]; rewrite E; reflexivity.
Qed.

Lemma key_labelClass key d : parse key = Ret (d, true) -> allb labelClass key = true /\ key <> "".
Proof.
  intros H. apply parse_accepts in H as (l & ds & u & -> & Hne & Hl & _ & Hd & Hu).
  split.
  - rewrite !allb_app, Hl. cbn [allb]. rewrite (allb_impl isDigit labelClass ds digit_labelClass Hd).
    rewrite (unit_labelClass _ Hu). reflexivity.
  - destruct l; [congruence|]. rewrite str_app_cons. discriminate.
Qed.

(** Only the last suffix counts: an accepted key followed by a dash,
    digits and a unit is accepted again, with the window of the new
    suffix. *)
Theorem parse_last_suffix_wins (key digits : string) (u : ascii) (d : time.Duration) :
  parse key = Ret (d, true) ->
  digits <> "" -> allb isDigit digits = true -> unitClass u = true ->
  decimal digits 0 * unitNanos u <= time.maxDuration ->
  parse (key +:+ "-" +:+ digits +:+ String u "") = Ret (decimal digits 0 * unitNanos u, true).
Proof.
  intros Hk Hne Hd Hu Hfit. destruct (key_labelClass _ _ Hk) as [Hl Hkne].
  rewrite (parse_shape key digits u).
  - destruct (Z.leb_spec (decimal digits 0 * unitNanos u) time.maxDuration); [reflexivity|lia].
  - unfold KeyShape. repeat split; assumption.
Qed.

Lemma parse_last_suffix_wins_witness :
  parse ("db-24h" +:+ "-" +:+ "5" +:+ String "m" "") = Ret (decimal "5" 0 * unitNanos "m", true).
Proof.
  apply (parse_last_suffix_wins "db-24h" "5" "m" (24 * time.Hour)); try reflexivity.
  - discriminate.
  - vm_compute. discriminate.
Defined.

(** ** The token *)

Lemma group_char (b1 b2 b3 b4 b5 : bool) :
  exists c, get (Z.to_nat (base32.valueOf [b1; b2; b3; b4; b5] 0)) base32.encodeStd = Some c /\
            base32Char c = true.
Proof. destruct b1, b2, b3, b4, b5; eexists; split; reflexivity. Qed.

Lemma encodeBits_shape fuel : forall bits,
  (length bits <= fuel)%nat ->
  allb base32Char (base32.encodeBits fuel bits) = true /\
  (length bits <= 5 * String.length (base32.encodeBits fuel bits) < length bits + 5)%nat.
Proof.
  induction fuel as [|fuel IH]; intros bits Hlen.
  - destruct bits; simpl in *; [split; [reflexivity|lia]|lia].
  - destruct bits as [|b bits]; [simpl; split; [reflexivity|lia]|].
    cbn [base32.encodeBits].
    assert (Hgroup : exists b1 b2 b3 b4 b5,
               take 5 ((b :: bits) ++ [false; false; false; false]) = [b1; b2; b3; b4; b5]).
    { destruct bits as [|c1 [|c2 [|c3 [|c4 bits]]]]; simpl; eauto 10. }
    destruct Hgroup as (b1 & b2 & b3 & b4 & b5 & ->).
    destruct (group_char b1 b2 b3 b4 b5) as (c & -> & Hc).
    destruct (IH (drop 5 (b :: bits))) as [Hall Hn].
    { rewrite length_drop. simpl in *. lia. }
    cbn [allb String.length]. rewrite Hc, Hall. split; [reflexivity|].
    rewrite length_drop in Hn. simpl in *. lia.
Qed.

Lemma length_bits src : length (flat_map (base32.bitsOfByte 8) src) = (8 * length src)%nat.
Proof.
  induction src as [|b src IH]; [reflexivity|].
  cbn [flat_map]. rewrite length_app, IH. simpl. lia.
Qed.

(** Started without [-t], [main] takes for its token the base32 text of
    the 32 random bytes: 52 characters of [A-Z2-7], which it logs. *)
Theorem startup_random_token (ParseLayout : string -> result error time.Time)
        (onRefusal : json.OnRefusal)
        (fileFlag : string) (random : list Z) (d : Disk)
        (authToken : string) (checkins : GoMap) (logged : list string) :
  length random = 32%nat ->
  startup ParseLayout onRefusal fileFlag "" random d = Continue (authToken, checkins, logged) ->
  authToken = base32.EncodeToString random /\
  String.length authToken = 52%nat /\
  allb base32Char authToken = true /\
  head logged = Some ("auth token not specified, using a random token: " +:+ authToken).
Proof.
  intros Hlen Hs.
  assert (Ht : authToken = base32.EncodeToString random /\
               head logged = Some ("auth token not specified, using a random token: " +:+ authToken)).
  { unfold startup in Hs. cbn [String.eqb] in Hs.
    destruct (String.eqb fileFlag "").
    - injection Hs as <- _ <-. split; reflexivity.
    - destruct (load ParseLayout onRefusal d emptyMap) as [[c l]|msg]; [|discriminate].
      injection Hs as <- _ <-. split; reflexivity. }
  destruct Ht as [-> Hlog]. split; [reflexivity|].
  unfold base32.EncodeToString in *.
  destruct (encodeBits_shape _ (flat_map (base32.bitsOfByte 8) random) (Nat.le_refl _))
    as [Hall Hn].
  rewrite !length_bits, !Hlen in *.
  repeat split; [lia|exact Hall|exact Hlog].
Qed.

Lemma startup_random_token_witness :
  String.length (base32.EncodeToString (replicate 32 255)) = 52%nat.
Proof.
  destruct (startup_random_token (fun s => Err (errTimeParse s)) json.StopAtRefusal "" (replicate 32 255)
              (mkDisk NoFile None) (base32.EncodeToString (replicate 32 255)) emptyMap
              ["auth token not specified, using a random token: "
                 +:+ base32.EncodeToString (replicate 32 255); logInMemory]
              eq_refl eq_refl) as (_ & H & _).
  exact H.
Defined.

(** [main] stops before it listens in one case only: a file is named and
    reading it fails with an error other than its absence.  What the file
    holds never stops it. *)
Theorem startup_stops_only_on_unreadable_file
        (ParseLayout : string -> result error time.Time)
        (onRefusal : json.OnRefusal)
        (fileFlag tokenFlag : string) (random : list Z) (d : Disk) (msg : string) :
  startup ParseLayout onRefusal fileFlag tokenFlag random d = Fatal msg <->
  fileFlag <> "" /\
  exists err, file d = Unreadable err /\ msg = "error loading watchdogd database: " +:+ err.
Proof.
  unfold startup.
  destruct (if String.eqb tokenFlag "" then _ else _) as [tok logged].
  destruct (String.eqb_spec fileFlag "") as [E|Hne].
  - split; [discriminate|]. intros [H _]. contradiction.
  - unfold load. destruct (file d) as [|err|data].
    + split; [discriminate|]. intros (_ & err & H & _). discriminate.
    + split.
      * intros [= <-]. split; [exact Hne|]. eauto.
      * intros (_ & err' & [= <-] & ->). reflexivity.
    + destruct (json.Unmarshal ParseLayout onRefusal data emptyMap) as [c [e|]];
        (split; [discriminate|]; intros (_ & err & H & _); discriminate).
Qed.

(** ** Check-in and status *)

Lemma nanosBetween_UTC t u : nanosBetween t (time.UTC u) = nanosBetween t u.
Proof. reflexivity. Qed.

Lemma evaluate_exact window lastSeen now :
  wfNsec lastSeen -> wfNsec now -> time.IsZero lastSeen = false ->
  time.minDuration <= window < time.maxDuration ->
  time.Sub now lastSeen = clamp (nanosBetween now lastSeen) /\
  evaluate window lastSeen now = if nanosBetween now lastSeen >? window then ALARM else OKAY.
Proof.
  intros Hl Hn Hz Hw. split; [apply Sub_clamp; assumption|].
  unfold evaluate. rewrite Hz.
  pose proof (Sub_gt_window now lastSeen window Hn Hl Hw) as Hiff.
  destruct (Z.gtb_spec (time.Sub now lastSeen) window),
           (Z.gtb_spec (nanosBetween now lastSeen) window); try reflexivity; lia.
Qed.

(** A check-in followed by a status query: the answer shows the time of
    the check-in in UTC and the time elapsed since (cut to the range of a
    [Duration]), and is ALARM exactly when the nanoseconds from the
    check-in to the query exceed the window of the key. *)
Theorem checkin_then_status (m : gmap string time.Time) (key : string)
        (window : time.Duration) (now later : time.Time) (header token : string) :
  parse key = Ret (window, true) ->
  wfNsec now -> wfNsec later -> time.IsZero now = false ->
  let c := after (checkinHandler (goMap m) now (mkRequest key header token)) in
  reply (statusHandler c later (mkRequest key "" "")) =
  Ret (mkResponse StatusOK "text/plain"
         (statusLine key (time.UTC now) (clamp (nanosBetween later now))
            (if nanosBetween later now >? window then ALARM else OKAY))).
Proof.
  intros Hp Hn Hl Hz c. subst c.
  unfold checkinHandler, statusHandler. cbn [pathKey]. rewrite Hp. cbn [assign after reply].
  unfold index. cbn [entries]. rewrite lookup_insert_eq. cbn [default from_option id].
  rewrite printStatus_evaluate.
  pose proof (parse_window_range _ _ _ Hp) as Hw.
  assert (Hw' : time.minDuration <= window < time.maxDuration).
  { change time.minDuration with (-9223372036854775808). lia. }
  destruct (evaluate_exact window (time.UTC now) later Hn Hl Hz Hw') as [E1 E2].
  rewrite E1, E2, nanosBetween_UTC. reflexivity.
Qed.

Lemma checkin_then_status_witness :
  reply (statusHandler
           (after (checkinHandler (goMap ∅) (unix 1700000000) (mkRequest "db-1h" "" "")))
           (unix 1700003601) (mkRequest "db-1h" "" "")) =
  Ret (mkResponse StatusOK "text/plain"
         (statusLine "db-1h" (unix 1700000000) (3601 * time.Second) ALARM)).
Proof.
  apply (checkin_then_status ∅ "db-1h" (1 * time.Hour) (unix 1700000000) (unix 1700003601) "" "").
  - reflexivity.
  - unfold wfNsec. simpl. lia.
  - unfold wfNsec. simpl. lia.
  - reflexivity.
Defined.

(** A second check-in under a key replaces the first: the registry is
    the one the second check-in alone would have left, and has no more
    keys than after the first. *)
Theorem checkin_last_wins (m : gmap string time.Time) (r : Request)
        (window : time.Duration) (t1 t2 : time.Time) :
  parse (pathKey r) = Ret (window, true) ->
  let first := after (checkinHandler (goMap m) t1 r) in
  let second := after (checkinHandler first t2 r) in
  second = after (checkinHandler (goMap m) t2 r) /\ len second = len first.
Proof.
  intros Hp first second. subst second first.
  unfold checkinHandler. rewrite Hp. cbn [assign after].
  rewrite insert_insert_eq. split; [reflexivity|].
  unfold len. cbn [entries]. rewrite !map_size_insert.
  destruct (m !! pathKey r); reflexivity.
Qed.

Lemma checkin_last_wins_witness :
  after (checkinHandler (after (checkinHandler (goMap ∅) (unix 1) (mkRequest "db-1h" "" "")))
           (unix 2) (mkRequest "db-1h" "" "")) =
  after (checkinHandler (goMap ∅) (unix 2) (mkRequest "db-1h" "" "")).
Proof.
  destruct (checkin_last_wins ∅ (mkRequest "db-1h" "" "") (1 * time.Hour) (unix 1) (unix 2)
              eq_refl) as [H _].
  exact H.
Defined.

(** The two reading routes leave the registry as it is and start no
    [save], whatever they answer; and they answer without looking at the
    token or at any credential of the request. *)
Theorem reads_change_nothing (authToken authToken' : string) (c : GoMap) (now : time.Time)
        (r r' : Request) (visit : list (string * time.Time)) :
  (after (serve authToken (GetKey r) c now) = c /\
   saving (serve authToken (GetKey r) c now) = false) /\
  (after (serve authToken (Root visit r) c now) = c /\
   saving (serve authToken (Root visit r) c now) = false) /\
  (pathKey r = pathKey r' ->
   serve authToken (GetKey r) c now = serve authToken' (GetKey r') c now) /\
  serve authToken (Root visit r) c now = serve authToken' (Root visit r') c now.
Proof.
  cbn [serve]. repeat split.
  - unfold statusHandler. destruct (parse (pathKey r)) as [[d [|]]|e]; reflexivity.
  - unfold statusHandler. destruct (parse (pathKey r)) as [[d [|]]|e]; reflexivity.
  - unfold listHandler. destruct (listLines _ _ _); reflexivity.
  - unfold listHandler. destruct (listLines _ _ _); reflexivity.
  - intros E. unfold statusHandler. rewrite E. reflexivity.
Qed.

Lemma parse_false_malformed key d : parse key = Ret (d, false) -> malformed key.
Proof.
  unfold parse, malformed.
  destruct (regexp.FindStringSubmatchIndex keyRe key); [|reflexivity].
  destruct (must _); discriminate.
Qed.

Lemma statusHandler_malformed c now key :
  malformed key ->
  reply (statusHandler c now (mkRequest key "" "")) =
  Ret (httpError "Invalid key" StatusBadRequest).
Proof. intros Hbad. unfold statusHandler. cbn [pathKey]. rewrite (parse_no_match _ Hbad). reflexivity. Qed.

(** [statusHandler] answers 400 "Invalid key" exactly on the keys the
    pattern refuses. *)
Theorem status_invalid_key (c : GoMap) (now : time.Time) (r : Request) :
  reply (statusHandler c now r) = Ret (httpError "Invalid key" StatusBadRequest) <->
  malformed (pathKey r).
Proof.
  unfold statusHandler. split.
  - destruct (parse (pathKey r)) as [[d [|]]|e] eqn:Hp; cbn [reply]; try discriminate.
    intros _. eapply parse_false_malformed, Hp.
  - intros Hbad. rewrite (parse_no_match _ Hbad). reflexivity.
Qed.

(** ** The listing *)

Lemma listLines_status c now : forall visit w,
  keysParse c ->
  (forall k t, (k, t) ∈ visit -> entries c !! k = Some t) ->
  exists lines,
    listLines visit now w = Ret (w +:+ concatLines lines) /\
    Forall2 (fun kv line => statusOf c now (fst kv) line) visit lines.
Proof.
  induction visit as [|[k t] visit IH]; intros w Hc Hv.
  - exists []. split; [|constructor]. simpl. rewrite str_app_nil_r. reflexivity.
  - destruct (Hc k t) as [d Hd]; [apply Hv; left|].
    destruct (IH (w +:+ printStatus k d t now) Hc) as (lines & Hl & Hs).
    { intros k' t' Hin. apply Hv. right. exact Hin. }
    exists (printStatus k d t now :: lines). split.
    + cbn [listLines]. rewrite Hd, Hl. cbn [concatLines foldr].
      rewrite str_app_assoc. reflexivity.
    + constructor; [|exact Hs].
      unfold statusOf, statusHandler. cbn [pathKey fst]. rewrite Hd. cbn [reply].
      unfold index. rewrite (Hv k t) by left. reflexivity.
Qed.

(** When every key of the registry is one [parse] accepts, as after
    check-ins alone, the listing is a first line with the number of keys
    followed, for each key in the order of the range, by the very line
    the status route answers for that key at the same instant. *)
Theorem list_is_status_of_each_key (c : GoMap) (visit : list (string * time.Time))
        (now : time.Time) (r : Request) :
  keysParse c ->
  visit ≡ₚ map_to_list (entries c) ->
  exists lines,
    reply (listHandler visit c now r) =
      Ret (mkResponse StatusOK "text/plain"
             ("watchdogd has " +:+ fmt.d (Z.of_nat (length lines)) +:+ " keys" +:+ fmt.newline
              +:+ concatLines lines)) /\
    Forall2 (fun kv line => statusOf c now (fst kv) line) visit lines.
Proof.
  intros Hc Hperm. unfold listHandler.
  destruct (listLines_status c now visit
              ("watchdogd has " +:+ fmt.d (len c) +:+ " keys" +:+ fmt.newline) Hc)
    as (lines & Hl & Hs).
  { intros k t Hin. rewrite Hperm in Hin. apply elem_of_map_to_list in Hin. exact Hin. }
  exists lines. split; [|exact Hs]. rewrite Hl. cbn [reply].
  assert (Hn : len c = Z.of_nat (length lines)).
  { unfold len. rewrite <- (Forall2_length _ _ _ Hs), Hperm, length_map_to_list. reflexivity. }
  rewrite Hn, !str_app_assoc. reflexivity.
Qed.

Lemma list_is_status_of_each_key_witness :
  exists lines,
    reply (listHandler [("db-1h", unix 1700000000)] (goMap {[ "db-1h" := unix 1700000000 ]})
             (unix 1700000060) (mkRequest "" "" "")) =
      Ret (mkResponse StatusOK "text/plain"
             ("watchdogd has " +:+ fmt.d (Z.of_nat (length lines)) +:+ " keys" +:+ fmt.newline
              +:+ concatLines lines)) /\
    Forall2 (fun kv line =>
               statusOf (goMap {[ "db-1h" := unix 1700000000 ]}) (unix 1700000060) (fst kv) line)
            [("db-1h", unix 1700000000)] lines.
Proof.
  apply (list_is_status_of_each_key (goMap {[ "db-1h" := unix 1700000000 ]})
           [("db-1h", unix 1700000000)] (unix 1700000060) (mkRequest "" "" "")).
  - intros k t H. simpl in H. apply lookup_singleton_Some in H as [<- _].
    exists (1 * time.Hour). reflexivity.
  - simpl. rewrite map_to_list_singleton. reflexivity.
Defined.

(** ** Keys that come from the database file *)

Lemma object_written_app ParseLayout onRefusal kvs others : forall m,
  (forall k t, (k, t) ∈ kvs -> canonical t) ->
  json.object ParseLayout onRefusal ((written <$> kvs) ++ others) m =
  json.object ParseLayout onRefusal others (foldl (fun m kv => <[fst kv := snd kv]> m) m kvs).
Proof.
  induction kvs as [|[k t] kvs IH]; intros m Hc; [reflexivity|].
  cbn [fmap list_fmap app json.object written fst snd foldl].
  unfold json.unmarshalTime, time.parseStrictRFC3339.
  rewrite (parseRFC3339_format t) by (apply (Hc k); left).
  apply IH. intros k' t' Hin. apply (Hc k'). right. exact Hin.
Qed.

(** [load] does not check the keys it reads: a key the pattern refuses
    enters the registry from the file.  The status route then answers
    400 for it, while the listing shows it with a window of zero, which
    is ALARM as soon as any time has passed since the recorded one. *)
Theorem loaded_keys_are_not_validated (ParseLayout : string -> result error time.Time)
        (onRefusal : json.OnRefusal)
        (key : string) (t now : time.Time) (r : Request) :
  malformed key -> canonical t ->
  let c := goMap {[ key := t ]} in
  load ParseLayout onRefusal (databaseFile [(key, t)] [] None) emptyMap = Continue (c, []) /\
  reply (statusHandler c now (mkRequest key "" "")) =
    Ret (httpError "Invalid key" StatusBadRequest) /\
  reply (listHandler [(key, t)] c now r) =
    Ret (mkResponse StatusOK "text/plain"
           ("watchdogd has 1 keys" +:+ fmt.newline +:+ printStatus key 0 t now)) /\
  (wfNsec now -> time.IsZero t = false -> nanosBetween now t > 0 ->
   printStatus key 0 t now = statusLine key t (clamp (nanosBetween now t)) ALARM).
Proof.
  intros Hbad Ht c. subst c. repeat split.
  - unfold load, databaseFile. cbn [file json.Unmarshal entries emptyMap].
    rewrite (object_written_app ParseLayout onRefusal [(key, t)] [] ∅).
    + cbn [foldl json.object fst snd]. rewrite insert_empty. reflexivity.
    + intros k t' Hin. apply list_elem_of_singleton in Hin as [= _ ->]. exact Ht.
  - apply statusHandler_malformed, Hbad.
  - unfold listHandler, len. cbn [entries]. rewrite map_size_singleton.
    cbn [listLines]. rewrite (parse_no_match _ Hbad). cbn [listLines reply].
    reflexivity.
  - intros Hn Hz Hpos. rewrite printStatus_evaluate.
    destruct (evaluate_exact 0 t now) as [-> ->]; try assumption.
    + apply Ht.
    + split; [discriminate|reflexivity].
    + destruct (Z.gtb_spec (nanosBetween now t) 0); [reflexivity|lia].
Qed.

Lemma loaded_keys_are_not_validated_witness :
  load (fun s => Err (errTimeParse s)) json.StopAtRefusal
       (databaseFile [("nightly", unix 1700000000)] [] None) emptyMap =
  Continue (goMap {[ "nightly" := unix 1700000000 ]}, []).
Proof.
  destruct (loaded_keys_are_not_validated (fun s => Err (errTimeParse s)) json.StopAtRefusal "nightly"
              (unix 1700000000) (unix 1700000001) (mkRequest "" "" "")) as [H _].
  - reflexivity.
  - unfold canonical. vm_compute. repeat split; congruence.
  - exact H.
Defined.

Lemma object_keeps ParseLayout onRefusal members : forall (m : gmap string time.Time) k,
  k ∉ members.*1 ->
  fst (json.object ParseLayout onRefusal members m) !! k = m !! k.
Proof.
  induction members as [|[k0 v0] members IH]; intros m k Hk; [reflexivity|].
  rewrite fmap_cons in Hk. cbn [fst] in Hk. apply not_elem_of_cons in Hk as [Hne Hk].
  cbn [json.object].
  destruct (json.unmarshalTime ParseLayout v0) as [t|e].
  - rewrite (IH _ k Hk). apply lookup_insert_ne. congruence.
  - destruct onRefusal; cbn [fst]; [reflexivity|].
    rewrite (IH _ k Hk). apply lookup_insert_ne. congruence.
Qed.

(** What precedes the first member that is not a time is kept: when the
    database file holds check-ins followed by a member whose value the
    decoder refuses, [load] logs the file as corrupted and goes on, and
    every check-in before that member whose key does not come again is in
    the registry with its time.  This holds whether the decoder stops at
    the refused member, and the registry is those check-ins alone, or
    leaves the zero time under its key and reads on. *)
Theorem load_keeps_what_precedes_the_bad_member
        (ParseLayout : string -> result error time.Time)
        (onRefusal : json.OnRefusal)
        (good : list (string * time.Time)) (k : string) (v : json.Value)
        (rest : list (string * json.Value)) (write : option string) (e : error) :
  (forall k t, (k, t) ∈ good -> canonical t) ->
  NoDup good.*1 ->
  json.unmarshalTime ParseLayout v = Err e ->
  exists c,
    load ParseLayout onRefusal (databaseFile good ((k, v) :: rest) write) emptyMap =
      Continue (c, [logCorrupted]) /\
    (forall k' t, (k', t) ∈ good -> k' ∉ ((k, v) :: rest).*1 -> entries c !! k' = Some t) /\
    (onRefusal = json.StopAtRefusal -> c = goMap (list_to_map good)) /\
    (onRefusal = json.ZeroAndGoOn -> rest = [] ->
     c = goMap (<[k := time.zeroTime]> (list_to_map good))).
Proof.
  intros Hc Hnd Hv. unfold load, databaseFile.
  cbn [file json.Unmarshal entries emptyMap].
  rewrite (object_written_app ParseLayout onRefusal good _ ∅ Hc).
  rewrite (foldl_insert_union good ∅ Hnd), (right_id_L ∅ (∪)).
  cbn [json.object]. rewrite Hv.
  assert (Hgood : forall k' t, (k', t) ∈ good ->
                    (list_to_map good : gmap string time.Time) !! k' = Some t).
  { intros k' t Hin. apply elem_of_list_to_map_1; assumption. }
  destruct onRefusal.
  - exists (goMap (list_to_map good)). split; [reflexivity|]. split; [|split].
    + intros k' t Hin _. apply Hgood, Hin.
    + reflexivity.
    + discriminate.
  - eexists. split; [reflexivity|]. split; [|split].
    + intros k' t Hin Hk'. cbn [entries].
      rewrite fmap_cons in Hk'. cbn [fst] in Hk'. apply not_elem_of_cons in Hk' as [Hne Hk'].
      rewrite (object_keeps _ _ _ _ _ Hk'), lookup_insert_ne by congruence.
      apply Hgood, Hin.
    + discriminate.
    + intros _ ->. reflexivity.
Qed.

Lemma load_keeps_what_precedes_the_bad_member_witness :
  exists c,
    load (fun s => Err (errTimeParse s)) json.ZeroAndGoOn
         (databaseFile [("a-1h", unix 1700000000)]
                       [("b-1h", json.Number "5"); ("c-1h", json.Str "2023-11-14T22:13:20Z")]
                       None) emptyMap =
      Continue (c, [logCorrupted]) /\
    entries c !! "a-1h" = Some (unix 1700000000).
Proof.
  destruct (load_keeps_what_precedes_the_bad_member (fun s => Err (errTimeParse s))
              json.ZeroAndGoOn [("a-1h", unix 1700000000)] "b-1h" (json.Number "5")
              [("c-1h", json.Str "2023-11-14T22:13:20Z")] None errNotJSONString)
    as (c & Hload & Hkept & _).
  - intros k t Hin. apply list_elem_of_singleton in Hin as [= _ ->].
    unfold canonical. vm_compute. repeat split; congruence.
  - apply NoDup_singleton.
  - reflexivity.
  - exists c. split; [exact Hload|]. apply Hkept; [apply list_elem_of_singleton; reflexivity|].
    cbn. intros Hin. repeat (apply elem_of_cons in Hin as [Hin|Hin]; [discriminate|]).
    apply elem_of_nil in Hin. exact Hin.
Defined.

(** ** The verdict as time passes *)

Lemma clamp_mono a b : a <= b -> clamp a <= clamp b.
Proof.
  unfold clamp. change time.minDuration with (-9223372036854775808).
  change time.maxDuration with 9223372036854775807. intros H.
  destruct (Z.ltb_spec a (-9223372036854775808)), (Z.ltb_spec b (-9223372036854775808));
    try destruct (Z.ltb_spec 9223372036854775807 a);
    try destruct (Z.ltb_spec 9223372036854775807 b); lia.
Qed.

Lemma Before_false t u :
  wfNsec t -> wfNsec u -> time.Before t u = false -> forall v, nanosBetween u v <= nanosBetween t v.
Proof.
  unfold wfNsec, time.Before, nanosBetween. change time.Second with 1000000000.
  intros Ht Hu H v.
  destruct (Z.ltb_spec (time.sec t) (time.sec u)); [discriminate|].
  destruct (Z.eqb_spec (time.sec t) (time.sec u)); simpl in H;
    [destruct (Z.ltb_spec (time.nsec t) (time.nsec u)); [discriminate|]|]; lia.
Qed.

(** Until the next check-in an alarm stays: if the time elapsed exceeds
    the window at one instant, then at every instant that is not before
    it the time elapsed is no less, and [printStatus] writes ALARM. *)
Theorem alarm_persists (key : string) (window : time.Duration)
        (lastSeen now later : time.Time) :
  wfNsec lastSeen -> wfNsec now -> wfNsec later ->
  time.IsZero lastSeen = false ->
  time.Before later now = false ->
  time.Sub now lastSeen > window ->
  time.Sub now lastSeen <= time.Sub later lastSeen /\
  printStatus key window lastSeen later =
    statusLine key lastSeen (time.Sub later lastSeen) ALARM.
Proof.
  intros Hl Hn Hla Hz Hord Halarm.
  assert (Hm : time.Sub now lastSeen <= time.Sub later lastSeen).
  { rewrite (Sub_clamp now lastSeen Hn Hl), (Sub_clamp later lastSeen Hla Hl).
    apply clamp_mono, (Before_false later now Hla Hn Hord lastSeen). }
  split; [exact Hm|].
  rewrite printStatus_evaluate. unfold evaluate. rewrite Hz.
  destruct (Z.gtb_spec (time.Sub later lastSeen) window); [reflexivity|lia].
Qed.

Lemma alarm_persists_witness :
  time.Sub (unix 1700003601) (unix 1700000000) <= time.Sub (unix 1700009999) (unix 1700000000) /\
  printStatus "db-1h" (1 * time.Hour) (unix 1700000000) (unix 1700009999) =
    statusLine "db-1h" (unix 1700000000) (time.Sub (unix 1700009999) (unix 1700000000)) ALARM.
Proof.
  apply (alarm_persists "db-1h" (1 * time.Hour) (unix 1700000000) (unix 1700003601)
           (unix 1700009999)).
  - unfold wfNsec. simpl. lia.
  - unfold wfNsec. simpl. lia.
  - unfold wfNsec. simpl. lia.
  - reflexivity.
  - reflexivity.
  - vm_compute. reflexivity.
Defined.

(** A check-in that lies after the instant of the query (the clock was
    set back in between) reads OKAY under every key: the time elapsed is
    negative, and no window is. *)
Theorem later_checkin_reads_okay (key : string) (window : time.Duration)
        (lastSeen now : time.Time) :
  parse key = Ret (window, true) ->
  wfNsec lastSeen -> wfNsec now ->
  time.IsZero lastSeen = false ->
  time.Before now lastSeen = true ->
  time.Sub now lastSeen < 0 /\
  printStatus key window lastSeen now = statusLine key lastSeen (time.Sub now lastSeen) OKAY.
Proof.
  intros Hp Hl Hn Hz Hb.
  pose proof (parse_window_range _ _ _ Hp) as Hw.
  assert (Hneg : time.Sub now lastSeen < 0).
  { rewrite (Sub_clamp now lastSeen Hn Hl).
    assert (nanosBetween now lastSeen < 0).
    { unfold wfNsec, time.Before, nanosBetween in *. change time.Second with 1000000000.
      destruct (Z.ltb_spec (time.sec now) (time.sec lastSeen)); [lia|].
      destruct (Z.eqb_spec (time.sec now) (time.sec lastSeen)); [|discriminate].
      destruct (Z.ltb_spec (time.nsec now) (time.nsec lastSeen)); [lia|discriminate]. }
    unfold clamp. change time.minDuration with (-9223372036854775808).
    change time.maxDuration with 9223372036854775807.
    destruct (Z.ltb_spec (nanosBetween now lastSeen) (-9223372036854775808)); [lia|].
    destruct (Z.ltb_spec 9223372036854775807 (nanosBetween now lastSeen)); lia. }
  split; [exact Hneg|].
  rewrite printStatus_evaluate. unfold evaluate. rewrite Hz.
  destruct (Z.gtb_spec (time.Sub now lastSeen) window); [lia|reflexivity].
Qed.

Lemma later_checkin_reads_okay_witness :
  time.Sub (unix 1700000000) (unix 1700000060) < 0 /\
  printStatus "db-1h" (1 * time.Hour) (unix 1700000060) (unix 1700000000) =
  statusLine "db-1h" (unix 1700000060) (time.Sub (unix 1700000000) (unix 1700000060)) OKAY.
Proof.
  apply (later_checkin_reads_okay "db-1h" (1 * time.Hour) (unix 1700000060) (unix 1700000000)).
  - reflexivity.
  - unfold wfNsec. simpl. lia.
  - unfold wfNsec. simpl. lia.
  - reflexivity.
  - reflexivity.
Defined.

(** ** Restarting *)

Lemma save_then_load ParseLayout onRefusal filename c d :
  filename <> "" -> writeError d = None -> allCanonical c ->
  exists d',
    save filename c d = Ret (Continue d') /\ writeError d' = None /\
    load ParseLayout onRefusal d' emptyMap = Continue (c, []).
Proof.
  intros Hname Hwrite Hc. unfold save.
  destruct (String.eqb_spec filename "") as [E|_]; [contradiction|].
  rewrite Hwrite. destruct c as [|m].
  - eexists. repeat split; reflexivity.
  - cbn [json.MarshalIndent]. unfold allCanonical in Hc. simpl in Hc.
    assert (Hc' : forall k t, (k, t) ∈ merge_sort json.keyLe (map_to_list m) -> canonical t).
    { intros k t Hin. rewrite merge_sort_Permutation in Hin.
      apply elem_of_map_to_list in Hin. apply (Hc k t Hin). }
    rewrite (marshalMembers_canonical _ Hc'). cbn [must].
    eexists. split; [reflexivity|]. split; [reflexivity|].
    unfold load. cbn [file json.Unmarshal entries emptyMap].
    rewrite (object_written ParseLayout onRefusal _ ∅ Hc'), foldl_insert_sorted. reflexivity.
Qed.




(** Without [-f] the server never writes: whatever requests it serves,
    no save fails and the disk stays as it was. *)
Theorem in_memory_never_writes (authToken : string) (trace : list (Route * time.Time))
        (s : Server) :
  runSaved "" authToken trace s = Ok (mkServer (run authToken trace (registry s)) (disk s)).
Proof.
  revert s. induction trace as [|[route now] trace IH]; intros [c d]; [reflexivity|].
  cbn [runSaved run registry disk]. unfold serveSaved. cbn [registry disk save String.eqb].
  destruct (saving (serve authToken route c now)); apply IH.
Qed.

(** ** The mutex *)

(** With [mu] free and a registry that is a map (or on a route that only
    reads), every handler ends with [mu] free again, and answers and
    leaves the registry exactly as the handlers read without [mu] do. *)
Theorem handlers_release_the_mutex (authToken : string) (route : Route) (now : time.Time)
        (c : GoMap) :
  (c <> nilMap \/ forall r, route <> PostKey r) ->
  mutex.serve authToken route now (mutex.mkShared c false) =
  ofOutcome (serve authToken route c now).
Proof.
  intros Hc. destruct route as [r|r|visit r]; cbn [mutex.serve serve].
  - unfold mutex.authMiddleware, authMiddleware.
    destruct (if String.eqb (authorization r) "" then _ else _) as [token ok].
    destruct (negb ok); [reflexivity|]. destruct (negb _); [reflexivity|].
    unfold mutex.checkinHandler, checkinHandler, mutex.bind, mutex.lift.
    destruct (parse (pathKey r)) as [[d [|]]|e]; try reflexivity.
    destruct c as [|m]; [|reflexivity].
    destruct Hc as [Hc|Hc]; [congruence|]. destruct (Hc r). reflexivity.
  - unfold mutex.statusHandler, statusHandler, mutex.bind, mutex.lift.
    destruct (parse (pathKey r)) as [[d [|]]|e]; reflexivity.
  - unfold mutex.listHandler, listHandler, mutex.bind, mutex.lift. cbn.
    destruct (listLines _ _ _); reflexivity.
Qed.

Lemma handlers_release_the_mutex_witness :
  mutex.serve "SECRET" (PostKey (mkRequest "db-1h" "Bearer SECRET" "")) (unix 1700000000)
    (mutex.mkShared emptyMap false) =
  ofOutcome (serve "SECRET" (PostKey (mkRequest "db-1h" "Bearer SECRET" "")) emptyMap
               (unix 1700000000)).
Proof.
  apply (handlers_release_the_mutex "SECRET" (PostKey (mkRequest "db-1h" "Bearer SECRET" ""))
           (unix 1700000000) emptyMap).
  left. discriminate.
Defined.

Lemma mutex_authorized authToken handler now r :
  authorization r = "Bearer " +:+ authToken ->
  mutex.authMiddleware authToken handler now r = handler now r.
Proof.
  intros E. unfold mutex.authMiddleware. rewrite E.
  rewrite (proj1 (CutPrefix_spec "Bearer " ("Bearer " +:+ authToken)) authToken eq_refl).
  change (String.eqb ("Bearer " +:+ authToken) "") with false. cbn iota.
  rewrite ConstantTimeCompare_spec.
  destruct (decide (authToken = authToken)); [reflexivity|congruence].
Qed.

(** A database file that holds the JSON [null] is read without a
    warning and leaves [checkins] nil.  The first authorised check-in
    under a valid key then panics on the assignment, between [Lock] and
    [Unlock]; and once [mu] is left locked, no status query for a valid
    key, no listing and no authorised check-in is ever answered. *)
Theorem null_database_wedges_server (ParseLayout : string -> result error time.Time)
        (onRefusal : json.OnRefusal)
        (write : option string) (authToken : string) (r : Request) (now : time.Time)
        (window : time.Duration) :
  parse (pathKey r) = Ret (window, true) ->
  authorization r = "Bearer " +:+ authToken ->
  load ParseLayout onRefusal (mkDisk (Data (json.Wellformed json.Null)) write) emptyMap =
    Continue (nilMap, []) /\
  mutex.serve authToken (PostKey r) now (mutex.mkShared nilMap false) =
    mutex.Panics errNilMap (mutex.mkShared nilMap true) /\
  (forall c now', mutex.serve authToken (PostKey r) now' (mutex.mkShared c true) = mutex.Blocks) /\
  (forall c now' r' window',
     parse (pathKey r') = Ret (window', true) ->
     mutex.serve authToken (GetKey r') now' (mutex.mkShared c true) = mutex.Blocks) /\
  (forall c now' visit r',
     mutex.serve authToken (Root visit r') now' (mutex.mkShared c true) = mutex.Blocks).
Proof.
  intros Hp Hauth. split; [reflexivity|]. cbn [mutex.serve].
  repeat split.
  - rewrite (mutex_authorized _ _ _ _ Hauth).
    unfold mutex.checkinHandler, mutex.bind, mutex.lift. rewrite Hp. reflexivity.
  - intros c now'. rewrite (mutex_authorized _ _ _ _ Hauth).
    unfold mutex.checkinHandler, mutex.bind, mutex.lift. rewrite Hp. reflexivity.
  - intros c now' r' window' Hp'.
    unfold mutex.statusHandler, mutex.bind, mutex.lift. rewrite Hp'. reflexivity.
Qed.

Lemma null_database_wedges_server_witness :
  mutex.serve "SECRET" (PostKey (mkRequest "db-1h" "Bearer SECRET" "")) (unix 1700000000)
    (mutex.mkShared nilMap false) =
  mutex.Panics errNilMap (mutex.mkShared nilMap true).
Proof.
  destruct (null_database_wedges_server (fun s => Err (errTimeParse s)) json.StopAtRefusal None "SECRET"
              (mkRequest "db-1h" "Bearer SECRET" "") (unix 1700000000) (1 * time.Hour)
              eq_refl eq_refl) as (_ & H & _).
  exact H.
Defined.

(** ** Reading a time *)

Lemma yearOfEra_inverse yoe doy :
  0 <= yoe < 400 -> 0 <= doy ->
  (doy <= 364 \/
   (doy = 365 /\ (yoe + 1) mod 4 = 0 /\
    ((yoe + 1) mod 100 <> 0 \/ (yoe + 1) mod 400 = 0))) ->
  let doe := 365 * yoe + yoe / 4 - yoe / 100 + doy in
  0 <= doe < 146097 /\ (doe - doe / 1460 + doe / 36524 - doe / 146096) / 365 = yoe.
Proof. intros Hy Hd HL doe. subst doe. Z.div_mod_to_equations; lia. Qed.

Lemma monthOfYear_inverse mp d :
  0 <= mp < 12 -> 1 <= d <= (153 * (mp + 1) + 2) / 5 - (153 * mp + 2) / 5 ->
  (5 * ((153 * mp + 2) / 5 + d - 1) + 2) / 153 = mp.
Proof. intros Hmp Hd. Z.div_mod_to_equations; lia. Qed.

Lemma isLeap_mods y :
  time.isLeap y = true -> y mod 4 = 0 /\ (y mod 100 <> 0 \/ y mod 400 = 0).
Proof.
  unfold time.isLeap. intros H. apply andb_true_iff in H as [H4 H].
  apply Z.eqb_eq in H4. split; [exact H4|].
  apply orb_true_iff in H as [H|H].
  - left. apply negb_true_iff, Z.eqb_neq in H. exact H.
  - right. apply Z.eqb_eq in H. exact H.
Qed.

(** [dateOfEra] leads back from [dayOfEra] on the dates of the
    calendar. *)
Lemma dateOfEra_dayOfEra yoe mp day :
  0 <= yoe < 400 -> 0 <= mp < 12 ->
  1 <= day <= time.daysIn (if mp <? 10 then mp + 3 else mp - 9)
                          (if (if mp <? 10 then mp + 3 else mp - 9) <=? 2 then yoe + 1 else yoe) ->
  0 <= time.dayOfEra yoe mp day < 146097 /\
  time.dateOfEra (time.dayOfEra yoe mp day) = (yoe, mp, day).
Proof.
  intros Hyoe Hmp Hday.
  set (doy := (153 * mp + 2) / 5 + day - 1).
  assert (Hlen : day <= (153 * (mp + 1) + 2) / 5 - (153 * mp + 2) / 5 /\
                 (doy <= 364 \/
                  (doy = 365 /\ (yoe + 1) mod 4 = 0 /\
                   ((yoe + 1) mod 100 <> 0 \/ (yoe + 1) mod 400 = 0)))).
  { destruct (Z.eq_dec mp 11) as [E|Hne].
    - subst mp doy. change (11 <? 10) with false in Hday. cbv iota in Hday.
      change (11 - 9) with 2 in Hday. change (2 <=? 2) with true in Hday. cbv iota in Hday.
      unfold time.daysIn in Hday. change (2 =? 2) with true in Hday. cbv iota in Hday.
      change ((153 * (11 + 1) + 2) / 5) with 367. change ((153 * 11 + 2) / 5) with 337.
      destruct (time.isLeap (yoe + 1)) eqn:HL.
      + apply isLeap_mods in HL. split; [lia|].
        destruct (Z.eq_dec day 29); [right; split; [lia|exact HL]|left; lia].
      + split; [lia|left; lia].
    - rewrite <- (monthLength mp _ ltac:(lia)) in Hday. split; [lia|]. left.
      subst doy. clear - Hmp Hne Hday. Z.div_mod_to_equations. lia. }
  destruct Hlen as [Hlen HL].
  assert (Hdoy0 : 0 <= doy).
  { subst doy. clear - Hmp Hday. Z.div_mod_to_equations. lia. }
  pose proof (yearOfEra_inverse yoe doy Hyoe Hdoy0 HL) as Hy. cbv zeta in Hy.
  assert (Hdoe : time.dayOfEra yoe mp day = 365 * yoe + yoe / 4 - yoe / 100 + doy).
  { unfold time.dayOfEra. subst doy. lia. }
  rewrite Hdoe. destruct Hy as [Hrange Hyoe'].
  split; [exact Hrange|].
  unfold time.dateOfEra. rewrite Hyoe'.
  replace (365 * yoe + yoe / 4 - yoe / 100 + doy - (365 * yoe + yoe / 4 - yoe / 100))
    with doy by lia.
  assert (Hmp' : (5 * doy + 2) / 153 = mp).
  { subst doy. apply monthOfYear_inverse; [exact Hmp|lia]. }
  rewrite Hmp'. subst doy. f_equal. lia.
Qed.

(** [dateOfDays] leads back from [daysOfDate] on the dates of the
    calendar. *)
Lemma dateOfDays_daysOfDate year month day :
  1 <= month <= 12 -> 1 <= day <= time.daysIn month year ->
  time.dateOfDays (time.daysOfDate year month day) = (year, month, day).
Proof.
  intros Hm Hd. unfold time.daysOfDate.
  set (Y := if month <=? 2 then year - 1 else year).
  set (era := Y / 400). set (yoe := Y - era * 400).
  set (mp := if month <=? 2 then month + 9 else month - 3).
  assert (Hyoe : 0 <= yoe < 400).
  { subst yoe era. pose proof (Z.mod_pos_bound Y 400 ltac:(lia)) as H.
    rewrite Z.mod_eq in H by lia. lia. }
  assert (Hmp : 0 <= mp < 12 /\ (if mp <? 10 then mp + 3 else mp - 9) = month).
  { subst mp. destruct (Z.leb_spec month 2).
    - destruct (Z.ltb_spec (month + 9) 10); lia.
    - destruct (Z.ltb_spec (month - 3) 10); lia. }
  destruct Hmp as [Hmp Hmonth].
  assert (Hyear : (if month <=? 2 then yoe + 1 else yoe) + era * 400 = year).
  { subst yoe Y. destruct (month <=? 2); lia. }
  destruct (dateOfEra_dayOfEra yoe mp day Hyoe Hmp) as [Hrange Hback].
  { rewrite Hmonth. rewrite <- (daysIn_shift month _ era), Hyear. exact Hd. }
  unfold time.dateOfDays. cbv zeta.
  set (z := era * 146097 + time.dayOfEra yoe mp day - 306 + 306).
  assert (Hz : z = time.dayOfEra yoe mp day + era * 146097) by (subst z; lia).
  assert (Hera : z / 146097 = era).
  { rewrite Hz, Z.div_add, (Z.div_small _ _ Hrange) by lia. reflexivity. }
  rewrite Hera. replace (z - era * 146097) with (time.dayOfEra yoe mp day) by lia.
  rewrite Hback, Hmonth.
  f_equal. f_equal. destruct (month <=? 2); lia.
Qed.

Lemma uintOf_bound s : forall x y,
  time.uintOf s x = Some y -> 0 <= x ->
  x * 10 ^ Z.of_nat (String.length s) <= y < (x + 1) * 10 ^ Z.of_nat (String.length s).
Proof.
  induction s as [|c s IH]; intros x y H Hx.
  - injection H as <-. simpl. lia.
  - cbn [time.uintOf] in H. destruct (isDigit c) eqn:Hc; [|discriminate].
    pose proof (isDigit_val c Hc) as Hv.
    apply IH in H; [|lia].
    cbn [String.length]. rewrite Nat2Z.inj_succ, Z.pow_succ_r by lia.
    set (p := 10 ^ Z.of_nat (String.length s)) in *.
    assert (0 < p) by (apply Z.pow_pos_nonneg; lia). nia.
Qed.

Lemma parseUint_range s lo hi x : time.parseUint s lo hi = Some x -> lo <= x <= hi.
Proof.
  unfold time.parseUint. destruct (time.uintOf s 0) as [y|]; [|discriminate].
  destruct (Z.ltb_spec y lo); [discriminate|]. destruct (Z.ltb_spec hi y); [discriminate|].
  intros [= <-]. lia.
Qed.

Lemma length_substring_le n : forall s, (String.length (substring 0 n s) <= n)%nat.
Proof.
  induction n as [|n IH]; intros s; destruct s as [|c s]; simpl; try lia.
  specialize (IH s). lia.
Qed.

Lemma parseNanoseconds_range ds : 0 <= time.parseNanoseconds ds < 1000000000.
Proof.
  unfold time.parseNanoseconds.
  pose proof (length_substring_le 9 ds) as Hlen.
  destruct (time.uintOf (substring 0 9 ds) 0) as [x|] eqn:E; [|lia].
  apply uintOf_bound in E; [|lia].
  set (n := String.length (substring 0 9 ds)) in *. clearbody n.
  set (p := 10 ^ Z.of_nat n) in *. set (q := 10 ^ Z.of_nat (9 - n)).
  assert (Hp : 0 < p) by (apply Z.pow_pos_nonneg; lia).
  assert (Hq : 0 < q) by (apply Z.pow_pos_nonneg; lia).
  assert (Hpq : p * q = 1000000000).
  { subst p q. rewrite <- Z.pow_add_r by lia.
    replace (Z.of_nat n + Z.of_nat (9 - n)) with 9 by lia. reflexivity. }
  nia.
Qed.

Lemma parseFraction_range rest ns rest' :
  time.parseFraction rest = (ns, rest') -> 0 <= ns < 1000000000.
Proof.
  unfold time.parseFraction.
  destruct rest as [|p [|f1 frac]]; try (intros [= <- _]; lia).
  destruct (Ascii.eqb p "." && isDigit f1); [|intros [= <- _]; lia].
  destruct (time.spanDigits (String f1 frac)) as [ds r]. intros [= <- _].
  apply parseNanoseconds_range.
Qed.

Lemma parseZone_offset sign colon hr mm z :
  0 <= hr <= 23 -> 0 <= mm <= 59 ->
  (if (Ascii.eqb sign "-" || Ascii.eqb sign "+") && Ascii.eqb colon ":" then
     Some (if Ascii.eqb sign "-" then - ((hr * 60 + mm) * 60) else (hr * 60 + mm) * 60)
   else None) = Some z ->
  z mod 60 = 0 /\ - 86400 < z < 86400.
Proof.
  intros Hh Hmm. destruct (_ && _); [|discriminate].
  destruct (Ascii.eqb sign "-"); intros [= <-]; split; try lia.
  - rewrite <- Z.mul_opp_l. apply Z.mod_mul. lia.
  - apply Z.mod_mul. lia.
Qed.

Lemma parseZone_range s zone :
  time.parseZone s = Some zone -> zone mod 60 = 0 /\ - 86400 < zone < 86400.
Proof.
  destruct s as [|sign rest]; [discriminate|].
  destruct (Ascii.eqb_spec sign "Z") as [->|Hsign].
  - destruct rest as [|h1 [|h2 [|colon [|m1 [|m2 [|x rest]]]]]]; try discriminate.
    + intros [= <-]. split; [reflexivity|lia].
    + cbn [time.parseZone].
      destruct (time.parseUint _ 0 23) as [hr|]; [|discriminate].
      destruct (time.parseUint _ 0 59) as [mm|]; discriminate.
  - assert (Hshape : time.parseZone (String sign rest) =
                     match rest with
                     | String h1 (String h2 (String colon (String m1 (String m2 "")))) =>
                         match time.parseUint (String h1 (String h2 "")) 0 23,
                               time.parseUint (String m1 (String m2 "")) 0 59 with
                         | Some hr, Some mm =>
                             if (Ascii.eqb sign "-" || Ascii.eqb sign "+") && Ascii.eqb colon ":"
                             then Some (if Ascii.eqb sign "-" then - ((hr * 60 + mm) * 60)
                                        else (hr * 60 + mm) * 60)
                             else None
                         | _, _ => None
                         end
                     | _ => None
                     end).
    { destruct sign as [b0 b1 b2 b3 b4 b5 b6 b7].
      destruct b0, b1, b2, b3, b4, b5, b6, b7; try (exfalso; apply Hsign; reflexivity);
        destruct rest as [|h1 [|h2 [|colon [|m1 [|m2 [|x rest]]]]]]; reflexivity. }
    rewrite Hshape.
    destruct rest as [|h1 [|h2 [|colon [|m1 [|m2 [|x rest]]]]]]; try discriminate.
    destruct (time.parseUint _ 0 23) as [hr|] eqn:Hh; [|discriminate].
    destruct (time.parseUint _ 0 59) as [mm|] eqn:Hmm; [|discriminate].
    apply parseUint_range in Hh, Hmm. apply parseZone_offset; assumption.
Qed.

(** Every time the parser of the exact RFC 3339 form returns is
    canonical. *)
Lemma parseRFC3339_canonical s t : time.parseRFC3339 s = Some t -> canonical t.
Proof.
  unfold time.parseRFC3339.
  do 19 (destruct s as [|? s]; [discriminate|]).
  destruct (time.parseUint _ 0 9999) as [year|] eqn:Hy; [|discriminate].
  destruct (time.parseUint _ 1 12) as [month|] eqn:Hm; [|discriminate].
  destruct (time.parseUint _ 1 (time.daysIn month year)) as [day|] eqn:Hd; [|discriminate].
  destruct (time.parseUint _ 0 23) as [hour|] eqn:Hh; [|discriminate].
  match goal with
  | |- match ?x with _ => _ end = _ -> _ => destruct x as [min|] eqn:Hmi; [|discriminate]
  end.
  match goal with
  | |- match ?x with _ => _ end = _ -> _ => destruct x as [sec|] eqn:Hs; [|discriminate]
  end.
  match goal with
  | |- (if ?b then _ else _) = _ -> _ => destruct b; [|discriminate]
  end.
  destruct (time.parseFraction s) as [ns rest'] eqn:Hf.
  destruct (time.parseZone rest') as [zone|] eqn:Hz; [|discriminate].
  intros [= <-].
  apply parseUint_range in Hy, Hm, Hd, Hh, Hmi, Hs.
  apply parseFraction_range in Hf. apply parseZone_range in Hz as [Hz60 Hz].
  unfold canonical. cbn [time.nsec time.offset].
  split; [exact Hf|]. split; [|split; [exact Hz60|exact Hz]].
  unfold time.Year, time.Date, time.abs. cbn [time.sec time.offset].
  replace ((time.daysOfDate year month day * 86400 + hour * 3600 + min * 60 + sec - zone + zone)
           / 86400) with (time.daysOfDate year month day)
    by (Z.div_mod_to_equations; lia).
  rewrite (dateOfDays_daysOfDate year month day Hm Hd). exact Hy.
Qed.

Lemma zeroTime_canonical : canonical time.zeroTime.
Proof. unfold canonical. vm_compute. repeat split; congruence. Qed.

Lemma object_strict ParseLayout onRefusal members : forall m,
  Forall strictMember members ->
  (forall k t, m !! k = Some t -> canonical t) ->
  exists m', json.object ParseLayout onRefusal members m = (m', None) /\
             forall k t, m' !! k = Some t -> canonical t.
Proof.
  induction members as [|[k v] members IH]; intros m Hs Hm; [eauto|].
  apply Forall_cons in Hs as [Hv Hs]. unfold strictMember in Hv. cbn [snd] in Hv.
  cbn [json.object].
  assert (Ht : exists t, json.unmarshalTime ParseLayout v = Ok t /\ canonical t).
  { destruct v; try contradiction.
    - exists time.zeroTime. split; [reflexivity|apply zeroTime_canonical].
    - cbn [json.unmarshalTime]. unfold time.parseStrictRFC3339.
      destruct (time.parseRFC3339 raw) as [t|] eqn:E; [|congruence].
      exists t. split; [reflexivity|]. eapply parseRFC3339_canonical, E. }
  destruct Ht as (t & -> & Hc). apply IH; [exact Hs|].
  intros k' t'. rewrite lookup_insert. destruct (decide (k = k')); [|apply Hm].
  intros [= <-]. exact Hc.
Qed.

(** A database file whose every value is a time in the exact RFC 3339
    form, or [null], is read without a warning; every time read is
    canonical; and when the server next saves, the file it writes is read
    back as the same registry. *)
Theorem database_survives_rewriting (ParseLayout : string -> result error time.Time)
        (onRefusal : json.OnRefusal)
        (filename : string) (members : list (string * json.Value)) :
  filename <> "" ->
  Forall strictMember members ->
  let d := mkDisk (Data (json.Wellformed (json.Object members))) None in
  exists c d',
    load ParseLayout onRefusal d emptyMap = Continue (c, []) /\
    allCanonical c /\
    save filename c d = Ret (Continue d') /\
    load ParseLayout onRefusal d' emptyMap = Continue (c, []).
Proof.
  intros Hname Hs d.
  destruct (object_strict ParseLayout onRefusal members ∅ Hs) as (m & Hobj & Hc).
  { intros k t H. rewrite lookup_empty in H. discriminate. }
  assert (Hload : load ParseLayout onRefusal d emptyMap = Continue (goMap m, [])).
  { unfold load, d. cbn [file json.Unmarshal entries emptyMap]. rewrite Hobj. reflexivity. }
  destruct (save_then_load ParseLayout onRefusal filename (goMap m) d Hname eq_refl Hc)
    as (d' & Hsave & _ & Hback).
  exists (goMap m), d'.
  split; [exact Hload|]. split; [exact Hc|]. split; [exact Hsave|exact Hback].
Qed.

Lemma database_survives_rewriting_witness :
  exists c d',
    load (fun s => Err (errTimeParse s)) json.StopAtRefusal
         (mkDisk (Data (json.Wellformed
                          (json.Object [("a-1h", json.Str "2023-11-14T22:13:20.50+01:00");
                                        ("b-1h", json.Null)]))) None) emptyMap =
      Continue (c, []) /\
    allCanonical c /\
    save "watchdogd.json" c
         (mkDisk (Data (json.Wellformed
                          (json.Object [("a-1h", json.Str "2023-11-14T22:13:20.50+01:00");
                                        ("b-1h", json.Null)]))) None) = Ret (Continue d') /\
    load (fun s => Err (errTimeParse s)) json.StopAtRefusal d' emptyMap = Continue (c, []).
Proof.
  apply (database_survives_rewriting (fun s => Err (errTimeParse s)) json.StopAtRefusal "watchdogd.json"
           [("a-1h", json.Str "2023-11-14T22:13:20.50+01:00"); ("b-1h", json.Null)]).
  - discriminate.
  - repeat constructor. unfold strictMember. cbn [snd]. vm_compute. discriminate.
Defined.

(** ** What changes the registry *)

Lemma CutPrefix_true prefix : forall s t, CutPrefix s prefix = (t, true) -> s = prefix +:+ t.
Proof.
  induction prefix as [|p prefix IH]; intros s t; simpl.
  - intros [= ->]. reflexivity.
  - destruct s as [|c s]; [discriminate|].
    destruct (Ascii.eqb_spec c p) as [->|_]; [|discriminate].
    destruct (CutPrefix s prefix) as [rest found] eqn:E.
    destruct found; [|discriminate]. intros [= ->].
    rewrite str_app_cons, (IH s t E). reflexivity.
Qed.

Lemma authMiddleware_cases authToken handler c now r :
  (authMiddleware authToken handler c now r = handler c now r /\
   (authorization r = "Bearer " +:+ authToken \/
    (authorization r = "" /\ queryToken r = authToken))) \/
  authMiddleware authToken handler c now r = unauthorized c \/
  authMiddleware authToken handler c now r = badHeader c.
Proof.
  unfold authMiddleware.
  destruct (String.eqb_spec (authorization r) "") as [E|Hne].
  - cbn [negb]. cbv iota. rewrite ConstantTimeCompare_spec.
    destruct (decide (authToken = queryToken r)) as [->|_]; [left|right; left; reflexivity].
    split; [reflexivity|]. right. split; [exact E|reflexivity].
  - destruct (CutPrefix (authorization r) "Bearer ") as [token ok] eqn:Hcut.
    destruct ok; cbn [negb]; cbv iota; [|right; right; reflexivity].
    apply CutPrefix_true in Hcut. rewrite ConstantTimeCompare_spec.
    destruct (decide (authToken = token)) as [->|_]; [left|right; left; reflexivity].
    split; [reflexivity|]. left. exact Hcut.
Qed.

Lemma serve_changes authToken route c now :
  after (serve authToken route c now) = c \/
  exists r m, c = goMap m /\
              after (serve authToken route c now) = goMap (<[pathKey r := time.UTC now]> m).
Proof.
  destruct route as [r|r|visit r]; cbn [serve].
  - destruct (authMiddleware_cases authToken checkinHandler c now r) as [[-> Hcred]|[->| ->]];
      [|left; reflexivity|left; reflexivity].
    unfold checkinHandler.
    destruct (parse (pathKey r)) as [[d [|]]|e] eqn:Hp; try (left; reflexivity).
    destruct c as [|m]; [left; reflexivity|].
    right. exists r, m. split; reflexivity.
  - left. unfold statusHandler. destruct (parse (pathKey r)) as [[d [|]]|e]; reflexivity.
  - left. unfold listHandler. destruct (listLines _ _ _); reflexivity.
Qed.

(** The registry changes in one way only: a check-in that carries the
    token (after [Bearer ] in the header, or in the query when there is
    no header) under a key that [parse] accepts sets that key to the
    clock reading in UTC.  Every other request leaves the registry as it
    was. *)
Theorem only_an_authorised_checkin_changes_the_registry
        (authToken : string) (route : Route) (c : GoMap) (now : time.Time) :
  after (serve authToken route c now) = c \/
  exists r window m,
    route = PostKey r /\
    parse (pathKey r) = Ret (window, true) /\
    (authorization r = "Bearer " +:+ authToken \/
     (authorization r = "" /\ queryToken r = authToken)) /\
    c = goMap m /\
    after (serve authToken route c now) = goMap (<[pathKey r := time.UTC now]> m).
Proof.
  destruct route as [r|r|visit r]; cbn [serve].
  - destruct (authMiddleware_cases authToken checkinHandler c now r) as [[-> Hcred]|[->| ->]];
      [|left; reflexivity|left; reflexivity].
    unfold checkinHandler.
    destruct (parse (pathKey r)) as [[d [|]]|e] eqn:Hp; try (left; reflexivity).
    destruct c as [|m]; [left; reflexivity|].
    right. exists r, d, m. repeat split; assumption.
  - left. unfold statusHandler. destruct (parse (pathKey r)) as [[d [|]]|e]; reflexivity.
  - left. unfold listHandler. destruct (listLines _ _ _); reflexivity.
Qed.

Lemma serve_keeps_keys authToken route c now k t :
  entries c !! k = Some t ->
  exists t', entries (after (serve authToken route c now)) !! k = Some t'.
Proof.
  intros Hk.
  destruct (serve_changes authToken route c now)
    as [->|(r & m & -> & ->)]; [eauto|].
  cbn [entries] in *. rewrite lookup_insert.
  destruct (decide (pathKey r = k)); eauto.
Qed.

(** The registry never forgets: a key that is in it stays in it,
    whatever requests are served. *)
Theorem registry_never_forgets (authToken : string) (trace : list (Route * time.Time))
        (c : GoMap) (k : string) (t : time.Time) :
  entries c !! k = Some t ->
  exists t', entries (run authToken trace c) !! k = Some t'.
Proof.
  revert c t. induction trace as [|[route now] trace IH]; intros c t Hk; [eauto|].
  cbn [run]. destruct (serve_keeps_keys authToken route c now k t Hk) as [t' Hk'].
  eapply IH, Hk'.
Qed.

Lemma registry_never_forgets_witness :
  exists t',
    entries (run "SECRET" [(PostKey (mkRequest "other-1h" "Bearer SECRET" ""), unix 1700000060)]
                 (goMap {[ "db-1h" := unix 1700000000 ]})) !! "db-1h" = Some t'.
Proof.
  apply (registry_never_forgets "SECRET"
           [(PostKey (mkRequest "other-1h" "Bearer SECRET" ""), unix 1700000060)]
           (goMap {[ "db-1h" := unix 1700000000 ]}) "db-1h" (unix 1700000000)).
  reflexivity.
Defined.

(** ** A listing that panics *)

(** The listing panics exactly when [parse] panics on one of the keys it
    visits: a key of the pattern whose window does not fit a
    [Duration].  Check-ins never store such a key; the database file
    may hold one. *)
Theorem listing_panics_exactly (visit : list (string * time.Time)) (c : GoMap)
        (now : time.Time) (r : Request) :
  (exists e, reply (listHandler visit c now r) = Panic e) <->
  exists k t e, (k, t) ∈ visit /\ parse k = Panic e.
Proof.
  unfold listHandler.
  generalize ("watchdogd has " +:+ fmt.d (len c) +:+ " keys" +:+ fmt.newline).
  assert (H : forall w, (exists e, listLines visit now w = Panic e) <->
                        exists k t e, (k, t) ∈ visit /\ parse k = Panic e).
  { induction visit as [|[k t] visit IH]; intros w; cbn [listLines].
    - split; [intros [e H]; discriminate|].
      intros (k & t & e & Hin & _). apply elem_of_nil in Hin. contradiction.
    - destruct (parse k) as [[d ok]|e] eqn:Hp.
      + rewrite IH. split.
        * intros (k' & t' & e & Hin & He). exists k', t', e. split; [right; exact Hin|exact He].
        * intros (k' & t' & e & Hin & He). apply elem_of_cons in Hin as [[= -> ->]|Hin].
          -- rewrite Hp in He. discriminate.
          -- eauto.
      + split; [|eauto]. intros _. exists k, t, e. split; [left|exact Hp]. }
  intros w. rewrite <- (H w).
  destruct (listLines visit now w) as [w'|e]; cbn [reply].
  - split; intros [e He]; discriminate.
  - split; eauto.
Qed.

(** ** The time elapsed *)

(** [now.Sub(lastCheckin)] is the number of nanoseconds from the one
    instant to the other whenever that number fits a [Duration], and the
    nearest end of the range when it does not; the zones of the two times
    play no part. *)
Theorem elapsed_is_the_exact_difference (now lastCheckin : time.Time) :
  wfNsec now -> wfNsec lastCheckin ->
  time.Sub now lastCheckin = clamp (nanosBetween now lastCheckin) /\
  (time.minDuration <= nanosBetween now lastCheckin <= time.maxDuration ->
   time.Sub now lastCheckin = nanosBetween now lastCheckin) /\
  (forall zone zone',
     time.Sub (time.mkTime (time.sec now) (time.nsec now) zone)
              (time.mkTime (time.sec lastCheckin) (time.nsec lastCheckin) zone') =
     time.Sub now lastCheckin).
Proof.
  intros Hn Hl. split; [apply Sub_clamp; assumption|]. split.
  - intros Hr. rewrite (Sub_clamp _ _ Hn Hl). unfold clamp.
    destruct (Z.ltb_spec (nanosBetween now lastCheckin) time.minDuration); [lia|].
    destruct (Z.ltb_spec time.maxDuration (nanosBetween now lastCheckin)); [lia|reflexivity].
  - intros zone zone'. rewrite (Sub_clamp now lastCheckin Hn Hl).
    apply (Sub_clamp (time.mkTime (time.sec now) (time.nsec now) zone)
             (time.mkTime (time.sec lastCheckin) (time.nsec lastCheckin) zone')); assumption.
Qed.

Lemma elapsed_is_the_exact_difference_witness :
  time.Sub (unix 1700000090) (unix 1700000000) = clamp (90 * time.Second).
Proof.
  destruct (elapsed_is_the_exact_difference (unix 1700000090) (unix 1700000000)) as [H _].
  - unfold wfNsec. simpl. lia.
  - unfold wfNsec. simpl. lia.
  - exact H.
Defined.

(** ** The time a status line shows *)

Lemma toTheSecond_canonical t : canonical t -> canonical (toTheSecond t).
Proof. intros (_ & Hy & Hz). split; [simpl; lia|]. split; [exact Hy|exact Hz]. Qed.

Lemma FormatRFC3339_toTheSecond t :
  time.FormatRFC3339 t = time.appendFormatRFC3339 (toTheSecond t) true.
Proof. reflexivity. Qed.

Lemma FormatRFC3339_length t :
  canonical t -> time.offset t = 0 -> String.length (time.FormatRFC3339 t) = 20%nat.
Proof.
  intros (Hns & Hyear & Hzmod & Hzr) Hoff.
  unfold time.FormatRFC3339, time.appendFormatRFC3339, time.Year, time.Date in *.
  pose proof (dateOfDays_valid (time.abs t / 86400)) as Hdate.
  destruct (time.dateOfDays (time.abs t / 86400)) as [[year month] day].
  simpl in Hyear. destruct Hdate as (Hmonth & Hday & Hback).
  pose proof (Clock_range t) as Hclock.
  destruct (time.Clock t) as [[hour min] s].
  destruct Hclock as (Hh & Hmi & Hs & Hsum).
  assert (Hd31 : day <= 31).
  { unfold time.daysIn in Hday.
    destruct (month =? 2); [destruct (time.isLeap year)|destruct (_ || _)]; lia. }
  rewrite appendInt_four by lia. rewrite !appendInt_two by lia.
  rewrite Hoff. unfold four, two. reflexivity.
Qed.

Lemma serve_utc authToken route c now :
  (forall k t, entries c !! k = Some t -> time.offset t = 0) ->
  forall k t, entries (after (serve authToken route c now)) !! k = Some t -> time.offset t = 0.
Proof.
  intros Hc k t.
  destruct (serve_changes authToken route c now) as [->|(r & m & -> & ->)]; [apply Hc|].
  cbn [entries] in *. rewrite lookup_insert.
  destruct (decide (pathKey r = k)); [|apply Hc]. intros [= <-]. reflexivity.
Qed.

Lemma run_utc authToken trace : forall c,
  (forall k t, entries c !! k = Some t -> time.offset t = 0) ->
  forall k t, entries (run authToken trace c) !! k = Some t -> time.offset t = 0.
Proof.
  induction trace as [|[route now] trace IH]; intros c Hc; [exact Hc|].
  cbn [run]. apply IH, serve_utc, Hc.
Qed.

(** The times that check-ins record are in UTC, so a status line shows
    them as twenty characters that end in [Z]; read back, that text gives
    the recorded instant to the second. *)
Theorem status_shows_utc_to_the_second (authToken : string)
        (trace : list (Route * time.Time)) (k : string) (t : time.Time) :
  Forall (fun rn => clockOK (snd rn)) trace ->
  entries (run authToken trace emptyMap) !! k = Some t ->
  time.offset t = 0 /\
  String.length (time.FormatRFC3339 t) = 20%nat /\
  time.parseRFC3339 (time.FormatRFC3339 t) = Some (toTheSecond t).
Proof.
  intros Hclock Hk.
  assert (Hoff : time.offset t = 0).
  { apply (run_utc authToken trace emptyMap) with (k := k); [|exact Hk].
    intros k' t' H. simpl in H. rewrite lookup_empty in H. discriminate. }
  assert (Hc : canonical t).
  { apply (run_canonical authToken trace emptyMap Hclock) with (k := k); [|exact Hk].
    intros k' t' H. simpl in H. rewrite lookup_empty in H. discriminate. }
  split; [exact Hoff|]. split; [apply FormatRFC3339_length; assumption|].
  rewrite FormatRFC3339_toTheSecond. apply parseRFC3339_format, toTheSecond_canonical, Hc.
Qed.

Lemma status_shows_utc_to_the_second_witness :
  time.offset (time.mkTime 63835596800 120000000 0) = 0 /\
  String.length (time.FormatRFC3339 (time.mkTime 63835596800 120000000 0)) = 20%nat /\
  time.parseRFC3339 (time.FormatRFC3339 (time.mkTime 63835596800 120000000 0)) =
    Some (toTheSecond (time.mkTime 63835596800 120000000 0)).
Proof.
  apply (status_shows_utc_to_the_second "SECRET"
           [(PostKey (mkRequest "db-1h" "Bearer SECRET" ""),
             time.mkTime 63835596800 120000000 3600)] "db-1h").
  - constructor; [|constructor]. split; [unfold wfNsec; simpl; lia|].
    vm_compute. split; congruence.
  - reflexivity.
Defined.

(** ** A write that fails *)

Lemma authMiddleware_bearer authToken handler c now r :
  authorization r = "Bearer " +:+ authToken ->
  authMiddleware authToken handler c now r = handler c now r.
Proof.
  intros E. unfold authMiddleware. rewrite E.
  rewrite (proj1 (CutPrefix_spec "Bearer " ("Bearer " +:+ authToken)) authToken eq_refl).
  change (String.eqb ("Bearer " +:+ authToken) "") with false. cbn iota.
  rewrite ConstantTimeCompare_spec.
  destruct (decide (authToken = authToken)); [reflexivity|congruence].
Qed.

(** When the database file cannot be written, the first accepted
    check-in ends the server: the handler stores the clock reading in
    UTC under the key, answers 204 and starts [save], and that save ends
    the process.  When the times of the registry are canonical and the
    clock shows a year of four digits, it ends it by logging the error
    of the write and exiting. *)
Theorem write_error_stops_server (filename authToken : string) (r : Request)
        (now : time.Time) (m : gmap string time.Time) (d : Disk) (err : string)
        (window : time.Duration) :
  filename <> "" ->
  writeError d = Some err ->
  parse (pathKey r) = Ret (window, true) ->
  authorization r = "Bearer " +:+ authToken ->
  serve authToken (PostKey r) (goMap m) now =
    mkOutcome (goMap (<[pathKey r := time.UTC now]> m))
              (Ret (mkResponse StatusNoContent "" "")) true /\
  (exists stop,
     serveSaved filename authToken (PostKey r) (mkServer (goMap m) d) now = Err stop) /\
  (allCanonical (goMap m) -> clockOK now ->
   serveSaved filename authToken (PostKey r) (mkServer (goMap m) d) now =
     Err (Exited ("watchdogd saving failed: " +:+ err))).
Proof.
  intros Hname Hw Hp Hauth.
  assert (Hserve : serve authToken (PostKey r) (goMap m) now =
                   mkOutcome (goMap (<[pathKey r := time.UTC now]> m))
                             (Ret (mkResponse StatusNoContent "" "")) true).
  { cbn [serve]. rewrite (authMiddleware_bearer _ _ _ _ _ Hauth).
    unfold checkinHandler. rewrite Hp. reflexivity. }
  split; [exact Hserve|].
  unfold serveSaved. cbn [registry disk]. rewrite Hserve. cbn [saving after].
  unfold save. destruct (String.eqb_spec filename "") as [E|_]; [contradiction|].
  rewrite Hw. split.
  - destruct (must (json.MarshalIndent (goMap (<[pathKey r := time.UTC now]> m))));
      eexists; reflexivity.
  - intros Hc Hnow.
    pose proof (serve_canonical authToken (PostKey r) (goMap m) now Hnow Hc) as Hc'.
    rewrite Hserve in Hc'. cbn [after] in Hc'.
    cbn [json.MarshalIndent].
    assert (Hs : forall k t, (k, t) ∈ merge_sort json.keyLe
                                       (map_to_list (<[pathKey r := time.UTC now]> m)) ->
                             canonical t).
    { intros k t Hin. rewrite merge_sort_Permutation in Hin.
      apply elem_of_map_to_list in Hin. apply (Hc' k t Hin). }
    rewrite (marshalMembers_canonical _ Hs). reflexivity.
Qed.

Lemma write_error_stops_server_witness :
  serve "SECRET" (PostKey (mkRequest "db-1h" "Bearer SECRET" "")) (goMap ∅) (unix 1700000000) =
    mkOutcome (goMap (<["db-1h" := time.UTC (unix 1700000000)]> ∅))
              (Ret (mkResponse StatusNoContent "" "")) true /\
  serveSaved "watchdogd.json" "SECRET" (PostKey (mkRequest "db-1h" "Bearer SECRET" ""))
    (mkServer (goMap ∅) (mkDisk NoFile (Some "disk full"))) (unix 1700000000) =
    Err (Exited ("watchdogd saving failed: " +:+ "disk full")).
Proof.
  destruct (write_error_stops_server "watchdogd.json" "SECRET"
              (mkRequest "db-1h" "Bearer SECRET" "") (unix 1700000000) ∅
              (mkDisk NoFile (Some "disk full")) "disk full" (1 * time.Hour))
    as (Hserve & _ & Hexit).
  - discriminate.
  - reflexivity.
  - reflexivity.
  - reflexivity.
  - split; [exact Hserve|]. apply Hexit.
    + intros k t H. simpl in H. rewrite lookup_empty in H. discriminate.
    + split; [unfold wfNsec; simpl; lia|]. vm_compute. split; congruence.
Defined.
